(** * Scene layout tool: originals, instances and their locator frames

    A shallow embedding of the layout tool (src/__init__.py) together with a
    model of the part of the host scene graph the tool drives through
    [maya.cmds]: DAG nodes addressed by path, local transforms, the custom
    [identifier] attribute, node and attribute locks, the selection and the
    undo queue calls.

    Coordinates are exact rationals: every equation below is the
    exact-arithmetic reading of what the tool computes in floating point. *)

From Stdlib Require Import QArith Qcanon.
From stdpp Require Import gmap strings list fin_maps stringmap.

Local Open Scope Qc_scope.

#[local] Arguments Qcplus : simpl never.
#[local] Arguments Qcminus : simpl never.
#[local] Arguments Qcmult : simpl never.
#[local] Arguments Qcopp : simpl never.
#[local] Arguments Qcdiv : simpl never.
#[local] Arguments Qcinv : simpl never.
#[local] Arguments Q2Qc : simpl never.

(** ** Affine algebra (row vectors, as the host stores matrices) *)

Module Affine.

Record vec := Vec { vx : Qc; vy : Qc; vz : Qc }.
Record mat := Mat { r0 : vec; r1 : vec; r2 : vec }.
(** An affine transform: a point [p] goes to [p * lin + tr]. *)
Record affine := Aff { lin : mat; tr : vec }.

Definition vzero : vec := Vec 0 0 0.
Definition ex : vec := Vec 1 0 0.
Definition ey : vec := Vec 0 1 0.
Definition ez : vec := Vec 0 0 1.

Definition vadd (a b : vec) : vec :=
  Vec (vx a + vx b) (vy a + vy b) (vz a + vz b).
Definition vsub (a b : vec) : vec :=
  Vec (vx a - vx b) (vy a - vy b) (vz a - vz b).
Definition vopp (a : vec) : vec := Vec (- vx a) (- vy a) (- vz a).
Definition vscale (k : Qc) (a : vec) : vec :=
  Vec (k * vx a) (k * vy a) (k * vz a).

(** Row vector times matrix. *)
Definition vmul (v : vec) (m : mat) : vec :=
  vadd (vscale (vx v) (r0 m)) (vadd (vscale (vy v) (r1 m)) (vscale (vz v) (r2 m))).

Definition mmul (a b : mat) : mat :=
  Mat (vmul (r0 a) b) (vmul (r1 a) b) (vmul (r2 a) b).

Definition mid : mat := Mat ex ey ez.
Definition aid : affine := Aff mid vzero.

(** [acomp a b]: first [a], then [b]; the product [a * b] of the 4x4
    matrices. *)
Definition acomp (a b : affine) : affine :=
  Aff (mmul (lin a) (lin b)) (vadd (vmul (tr a) (lin b)) (tr b)).

Definition det (m : mat) : Qc :=
  vx (r0 m) * (vy (r1 m) * vz (r2 m) - vz (r1 m) * vy (r2 m))
  - vy (r0 m) * (vx (r1 m) * vz (r2 m) - vz (r1 m) * vx (r2 m))
  + vz (r0 m) * (vx (r1 m) * vy (r2 m) - vy (r1 m) * vx (r2 m)).

(** Inverse by the adjugate; the zero determinant case divides by zero,
    which [Qc] defines as zero. *)
Definition minv (m : mat) : mat :=
  let d := det m in
  let a := vx (r0 m) in let b := vy (r0 m) in let c := vz (r0 m) in
  let e := vx (r1 m) in let f := vy (r1 m) in let g := vz (r1 m) in
  let h := vx (r2 m) in let i := vy (r2 m) in let j := vz (r2 m) in
  Mat (Vec ((f * j - g * i) / d) ((c * i - b * j) / d) ((b * g - c * f) / d))
      (Vec ((g * h - e * j) / d) ((a * j - c * h) / d) ((c * e - a * g) / d))
      (Vec ((e * i - f * h) / d) ((b * h - a * i) / d) ((a * f - b * e) / d)).

Definition ainv (a : affine) : affine :=
  Aff (minv (lin a)) (vopp (vmul (tr a) (minv (lin a)))).

Definition regular (a : affine) : Prop := det (lin a) <> 0.

(** The sixteen numbers of the host's matrix queries, row after row, the
    fourth column being [0 0 0 1]. *)
Definition to_list16 (a : affine) : list Qc :=
  let m := lin a in
  [ vx (r0 m); vy (r0 m); vz (r0 m); 0;
    vx (r1 m); vy (r1 m); vz (r1 m); 0;
    vx (r2 m); vy (r2 m); vz (r2 m); 0;
    vx (tr a); vy (tr a); vz (tr a); 1 ].

(** What the host keeps of sixteen numbers given as a matrix: the three
    basis rows and the translation row; a transform node has no storage
    for the fourth column. *)
Definition of_list16 (l : list Qc) : option affine :=
  match l with
  | [a; b; c; _; e; f; g; _; h; i; j; _; x; y; z; _] =>
      Some (Aff (Mat (Vec a b c) (Vec e f g) (Vec h i j)) (Vec x y z))
  | _ => None
  end.

Definition vec_to_list (v : vec) : list Qc := [vx v; vy v; vz v].

#[global] Instance vec_eq_dec : EqDecision vec.
Proof. solve_decision. Defined.
#[global] Instance mat_eq_dec : EqDecision mat.
Proof. solve_decision. Defined.
#[global] Instance affine_eq_dec : EqDecision affine.
Proof. solve_decision. Defined.

End Affine.


(** ** The host scene graph

    The tool is a script over [maya.cmds]; what follows is the part of the
    host it relies on.  A DAG path [|A|B|C] is kept leaf first, as
    [["C"; "B"; "A"]]: the head is the node's short name, the tail its
    parent's path, and [[]] is the world.  Names returned by host commands
    are unique names of the node they denote, so every such name is kept as
    the node's full path. *)

Module Maya.
Import Affine.

Abbreviation dag := (list string).

Definition render (p : dag) : string :=
  fold_left (fun acc n => acc +:+ "|" +:+ n) (rev p) ""%string.

Inductive Kind := Transform | Shape.

Record Node := mkNode {
  uid : nat * dag;        (* identity of the node: creating command, place in what it created *)
  kind : Kind;
  local : affine;         (* transform relative to the parent *)
  ident : option string;  (* the custom string attribute "identifier", when present *)
  lockT : bool;           (* .translate locked *)
  lockR : bool;           (* .rotate locked *)
  lockS : bool;           (* .scale locked *)
  lockN : bool;           (* node locked (lockNode) *)
  visible : bool
}.

Definition with_uid (u : nat * dag) (n : Node) : Node :=
  mkNode u (kind n) (local n) (ident n) (lockT n) (lockR n) (lockS n) (lockN n) (visible n).
Definition with_local (a : affine) (n : Node) : Node :=
  mkNode (uid n) (kind n) a (ident n) (lockT n) (lockR n) (lockS n) (lockN n) (visible n).
Definition with_ident (i : option string) (n : Node) : Node :=
  mkNode (uid n) (kind n) (local n) i (lockT n) (lockR n) (lockS n) (lockN n) (visible n).
Definition with_lockN (b : bool) (n : Node) : Node :=
  mkNode (uid n) (kind n) (local n) (ident n) (lockT n) (lockR n) (lockS n) b (visible n).
Definition with_visible (b : bool) (n : Node) : Node :=
  mkNode (uid n) (kind n) (local n) (ident n) (lockT n) (lockR n) (lockS n) (lockN n) b.

Inductive trs := translate | rotate | scale.

Definition with_lock (a : trs) (b : bool) (n : Node) : Node :=
  match a with
  | translate => mkNode (uid n) (kind n) (local n) (ident n) b (lockR n) (lockS n) (lockN n) (visible n)
  | rotate => mkNode (uid n) (kind n) (local n) (ident n) (lockT n) b (lockS n) (lockN n) (visible n)
  | scale => mkNode (uid n) (kind n) (local n) (ident n) (lockT n) (lockR n) b (lockN n) (visible n)
  end.

Definition fresh_node (u : nat * dag) (k : Kind) : Node :=
  mkNode u k aid None false false false false true.

(** All four locks set, as [lockTransform] leaves a node; none set, as
    [unlockTransform] leaves it. *)
Definition locked (n : Node) : Prop :=
  lockT n = true /\ lockR n = true /\ lockS n = true /\ lockN n = true.
Definition unlocked (n : Node) : Prop :=
  lockT n = false /\ lockR n = false /\ lockS n = false /\ lockN n = false.

Inductive UndoCall := OpenChunk | CloseChunk | Undo.

#[global] Instance Kind_eq_dec : EqDecision Kind.
Proof. solve_decision. Defined.
#[global] Instance Node_eq_dec : EqDecision Node.
Proof. solve_decision. Defined.
#[global] Instance UndoCall_eq_dec : EqDecision UndoCall.
Proof. solve_decision. Defined.

Record Host := mkHost {
  nodes : gmap dag Node;
  selection : list dag;
  stamp : nat;                (* next creation stamp *)
  undoLog : list UndoCall     (* calls made to the undo queue, oldest first *)
}.

(** *** Subtrees *)

(** [strip q k]: the path of [k] relative to [q], when [k] is [q] or
    below it. *)
Definition strip (q k : dag) : option dag :=
  if decide (q `suffix_of` k) then Some (take (length k - length q) k) else None.

Definition prune (p : dag) (m : gmap dag Node) : gmap dag Node :=
  filter (fun kv => ~ p `suffix_of` kv.1) m.

Definition sub (p : dag) (m : gmap dag Node) : gmap dag Node :=
  map_fold (fun k v acc => match strip p k with
                           | Some r => <[r := v]> acc
                           | None => acc
                           end) ∅ m.

Definition graft (q : dag) (t m : gmap dag Node) : gmap dag Node :=
  kmap (fun r : dag => app r q) t ∪ m.

(** Moves the subtree at [c] to [c'], changing its root by [f]. *)
Definition move (c c' : dag) (f : Node -> Node) (m : gmap dag Node) : gmap dag Node :=
  graft c' (alter f [] (sub c m)) (prune c m).

(** The names in use directly below [t]: the child of [t] on every
    branch through [t]. *)
Definition child_name (t k : dag) : option string := strip t k ≫= last.

Definition taken (m : gmap dag Node) (t : dag) : gset string :=
  set_omap (child_name t) (dom m).

(** The host resolves a name clash among siblings by numbering: the name
    itself when free, else the first free of [name1], [name2], ... *)
Definition fresh_name (base : string) (X : gset string) : string :=
  fresh_string_of_set base ({[ base +:+ "0" ]} ∪ X).

(** *** World transforms *)

Definition loc (m : gmap dag Node) (k : dag) : affine :=
  match m !! k with Some n => local n | None => aid end.

Fixpoint world (m : gmap dag Node) (k : dag) : affine :=
  match k with
  | [] => aid
  | _ :: t => acomp (loc m k) (world m t)
  end.

(** *** Commands: state and exceptions *)

Inductive exn :=
| CmdsError (msg : string)     (* raised by cmds.error *)
| HostError (cmd : string)     (* a host command refused its arguments *)
| IndexError.

Inductive res (A : Type) := Ok (a : A) | Raise (e : exn).
Arguments Ok {A} a.
Arguments Raise {A} e.

#[global] Instance exn_eq_dec : EqDecision exn.
Proof. solve_decision. Defined.
#[global] Instance res_eq_dec {A} `{EqDecision A} : EqDecision (res A).
Proof. solve_decision. Defined.
#[global] Instance Host_eq_dec : EqDecision Host.
Proof. solve_decision. Defined.

Definition M (A : Type) : Type := Host -> res A * Host.

Definition ret {A} (a : A) : M A := fun h => (Ok a, h).
Definition bind {A B} (c : M A) (k : A -> M B) : M B :=
  fun h => match c h with
           | (Ok a, h') => k a h'
           | (Raise e, h') => (Raise e, h')
           end.
Definition raise {A} (e : exn) : M A := fun h => (Raise e, h).

(** [try: body / except: handler / else: orelse], the handler being
    entered for every exception and the value of [body] kept for what
    follows the statement. *)
Definition try_except_else {A} (body : M A) (handler : exn -> M A) (orelse : M unit) : M A :=
  fun h => match body h with
           | (Ok a, h') => match orelse h' with
                           | (Ok _, h'') => (Ok a, h'')
                           | (Raise e, h'') => (Raise e, h'')
                           end
           | (Raise e, h') => handler e h'
           end.

Declare Scope cmds_scope.
Delimit Scope cmds_scope with cmds.
Notation "x <- c ;; k" := (bind c (fun x => k))
  (at level 100, c at next level, k at level 200, right associativity) : cmds_scope.
Notation "c ;;; k" := (bind c (fun _ => k))
  (at level 100, k at level 200, right associativity) : cmds_scope.
Local Open Scope cmds_scope.

Fixpoint each {A B} (f : A -> M B) (l : list A) : M (list B) :=
  match l with
  | [] => ret []
  | a :: l' => b <- f a ;; bs <- each f l' ;; ret (b :: bs)
  end.

Fixpoint for_each {A} (l : list A) (body : A -> M unit) : M unit :=
  match l with
  | [] => ret tt
  | a :: l' => body a ;;; for_each l' body
  end.

(** [l[0]] *)
Definition item0 {A} (l : list A) : M A :=
  match l with
  | a :: _ => ret a
  | [] => raise IndexError
  end.

Definition with_nodes (m : gmap dag Node) (h : Host) : Host :=
  mkHost m (selection h) (stamp h) (undoLog h).

(** Changes the node at [p] by [f], refusing when [p] is no node or [ok]
    does not hold of it. *)
Definition edit (cmd : string) (ok : Node -> bool) (f : Node -> Node) (p : dag) : M unit :=
  fun h => match nodes h !! p with
           | Some n => if ok n then (Ok tt, with_nodes (<[p := f n]> (nodes h)) h)
                       else (Raise (HostError cmd), h)
           | None => (Raise (HostError cmd), h)
           end.

(** *** Commands *)

(** cmds.error(msg) *)
Definition error {A} (msg : string) : M A := raise (CmdsError msg).

(** cmds.undoInfo(openChunk=True), cmds.undoInfo(closeChunk=True),
    cmds.undo(): the calls are recorded; what the host's queue then does
    to the scene is outside the model. *)
Definition undo_call (c : UndoCall) : M unit :=
  fun h => (Ok tt, mkHost (nodes h) (selection h) (stamp h) (undoLog h ++ [c])).
Definition undoInfo_openChunk : M unit := undo_call OpenChunk.
Definition undoInfo_closeChunk : M unit := undo_call CloseChunk.
Definition undo : M unit := undo_call Undo.

Definition is_transform (m : gmap dag Node) (p : dag) : bool :=
  match m !! p with
  | Some n => match kind n with Transform => true | Shape => false end
  | None => false
  end.

(** The name patterns the tool lists with: ["*"] and ["|Originals|*"]. *)
Inductive pattern := AnyNode | ChildOf (parent : dag).

Definition matches (pat : pattern) (p : dag) : bool :=
  match pat with
  | AnyNode => true
  | ChildOf t => match p with
                 | _ :: t' => bool_decide (t' = t)
                 | [] => false
                 end
  end.

(** cmds.ls(sl=True) *)
Definition ls_sl : M (list dag) := fun h => (Ok (selection h), h).

(** cmds.ls(pattern, sl=True, type="transform") *)
Definition ls_sl_transform (pat : pattern) : M (list dag) :=
  fun h => (Ok (filter (fun p => matches pat p && is_transform (nodes h) p) (selection h)), h).

(** A plug [node.attribute]; [original.split(".", 1)[0]] is its node. *)
Definition plug : Type := dag * string.
Definition plug_node (p : plug) : dag := fst p.
Definition identifier_of (p : dag) : plug := (p, "identifier"%string).

Definition has_identifier (m : gmap dag Node) (p : dag) : bool :=
  match m !! p with
  | Some n => match ident n with Some _ => true | None => false end
  | None => false
  end.

(** cmds.ls(pattern + ".identifier", l=True): the plugs of the nodes
    that match and carry the attribute, in the host's listing order. *)
Definition ls_identifier (pat : pattern) : M (list plug) :=
  fun h => (Ok (map identifier_of
                  (filter (fun p => matches pat p && has_identifier (nodes h) p)
                          (map fst (map_to_list (nodes h))))), h).

(** cmds.objExists(node) *)
Definition objExists (p : dag) : M bool :=
  fun h => (Ok (match nodes h !! p with Some _ => true | None => false end), h).

(** cmds.objExists(node + ".identifier") *)
Definition objExists_identifier (p : dag) : M bool :=
  fun h => (Ok (has_identifier (nodes h) p), h).

(** cmds.getAttr(plug), for a plug of the identifier attribute *)
Definition getAttr (pl : plug) : M string :=
  fun h => match nodes h !! plug_node pl with
           | Some n => match ident n with
                       | Some v => (Ok v, h)
                       | None => (Raise (HostError "getAttr"), h)
                       end
           | None => (Raise (HostError "getAttr"), h)
           end.

(** cmds.deleteAttr(node, attribute="identifier") *)
Definition deleteAttr_identifier (p : dag) : M unit :=
  edit "deleteAttr" (fun n => negb (lockN n) && match ident n with Some _ => true | None => false end)
       (with_ident None) p.

(** cmds.addAttr(node, longName="identifier", shortName="id", dt="string") *)
Definition addAttr_identifier (p : dag) : M unit :=
  edit "addAttr" (fun n => negb (lockN n) && match ident n with Some _ => false | None => true end)
       (with_ident (Some ""%string)) p.

(** cmds.setAttr(node + ".id", value, type="string") *)
Definition setAttr_identifier (p : dag) (v : string) : M unit :=
  edit "setAttr" (fun n => match ident n with Some _ => true | None => false end)
       (with_ident (Some v)) p.

(** cmds.setAttr(node + ".translate" / ".rotate" / ".scale", lock=b) *)
Definition setAttr_lock (p : dag) (a : trs) (b : bool) : M unit :=
  edit "setAttr" (fun n => negb (lockN n)) (with_lock a b) p.

(** cmds.lockNode(node, lock=b) *)
Definition lockNode (p : dag) (b : bool) : M unit :=
  edit "lockNode" (fun _ => true) (with_lockN b) p.

(** cmds.setAttr(node + ".translate", x, y, z) *)
Definition setAttr_translate (p : dag) (v : vec) : M unit :=
  edit "setAttr" (fun n => negb (lockT n)) (fun n => with_local (Aff (lin (local n)) v) n) p.

(** cmds.hide(nodes) *)
Definition hide (ps : list dag) : M unit :=
  each (edit "hide" (fun _ => true) (with_visible false)) ps ;;; ret tt.

(** cmds.spaceLocator(name=n): a transform with its locator shape, at
    the world origin, selected. *)
Definition spaceLocator (name : string) : M (list dag) :=
  fun h =>
    let n := fresh_name name (taken (nodes h) []) in
    let m := <[ [n +:+ "Shape"; n] := fresh_node (stamp h, [n +:+ "Shape"]) Shape ]>
             (<[ [n] := fresh_node (stamp h, []) Transform ]> (nodes h)) in
    (Ok [[n]], mkHost m [[n]] (S (stamp h)) (undoLog h)).

(** cmds.group(em=True, name=n): an empty transform under the world,
    selected. *)
Definition group_empty (name : string) : M dag :=
  fun h =>
    let n := fresh_name name (taken (nodes h) []) in
    (Ok [n], mkHost (<[ [n] := fresh_node (stamp h, []) Transform ]> (nodes h)) [[n]]
                    (S (stamp h)) (undoLog h)).

(** cmds.parent(child, target) and, with [target = []],
    cmds.parent(child, w=True): the child keeps its world transform (the
    command's default), takes a free name below the target, and is left
    selected.  Refused for a missing or locked child, a missing target, a
    target inside the child, and a child that is already there. *)
Definition parent_one (t c : dag) : M dag :=
  fun h =>
    let m := nodes h in
    match m !! c with
    | Some n =>
        if lockN n
           || negb (bool_decide (t = []) || bool_decide (is_Some (m !! t)))
           || bool_decide (c `suffix_of` t)
           || bool_decide (tail c = t)
        then (Raise (HostError "parent"), h)
        else
          let c' := fresh_name (hd ""%string c) (taken m t) :: t in
          let a := acomp (world m c) (ainv (world m t)) in
          (Ok c', mkHost (move c c' (with_local a) m) [c'] (stamp h) (undoLog h))
    | None => (Raise (HostError "parent"), h)
    end.

Definition parent (cs : list dag) (t : dag) : M (list dag) := each (parent_one t) cs.

(** cmds.duplicate(node): a copy of the subtree, beside the node, under
    a free name, selected. *)
Definition duplicate (p : dag) : M (list dag) :=
  fun h =>
    let m := nodes h in
    match m !! p with
    | Some _ =>
        let c := fresh_name (hd ""%string p) (taken m (tail p)) :: tail p in
        let copy := map_imap (fun r v => Some (with_uid (stamp h, r) v)) (sub p m) in
        (Ok [c], mkHost (graft c copy m) [c] (S (stamp h)) (undoLog h))
    | None => (Raise (HostError "duplicate"), h)
    end.

(** cmds.delete(node): the node and everything below it. *)
Definition delete (p : dag) : M unit :=
  fun h =>
    match nodes h !! p with
    | Some n =>
        if lockN n then (Raise (HostError "delete"), h)
        else (Ok tt, mkHost (prune p (nodes h))
                            (filter (fun s => ~ p `suffix_of` s) (selection h))
                            (stamp h) (undoLog h))
    | None => (Raise (HostError "delete"), h)
    end.

(** cmds.rename(node, name): the name when no sibling has it, else the
    next free one; returns the node under its new name. *)
Definition rename (cs : list dag) (name : string) : M dag :=
  fun h =>
    let m := nodes h in
    match cs with
    | [c] =>
        match m !! c with
        | Some n =>
            if lockN n then (Raise (HostError "rename"), h)
            else
              let c' := fresh_name name (taken (prune c m) (tail c)) :: tail c in
              let resel s := match strip c s with Some r => app r c' | None => s end in
              (Ok c', mkHost (move c c' (fun n => n) m) (map resel (selection h))
                             (stamp h) (undoLog h))
        | None => (Raise (HostError "rename"), h)
        end
    | _ => (Raise (HostError "rename"), h)
    end.

(** cmds.xform(node, q=True, ws=True, m=True) *)
Definition xform_q_matrix (p : dag) : M (list Qc) :=
  fun h => match nodes h !! p with
           | Some _ => (Ok (to_list16 (world (nodes h) p)), h)
           | None => (Raise (HostError "xform"), h)
           end.

(** cmds.xform(node, q=True, ws=True, rp=True): the world position of
    the rotate pivot, which sits at the node's own origin. *)
Definition xform_q_rp (p : dag) : M (list Qc) :=
  fun h => match nodes h !! p with
           | Some _ => (Ok (vec_to_list (tr (world (nodes h) p))), h)
           | None => (Raise (HostError "xform"), h)
           end.

(** cmds.xform(nodes, ws=True, m=matrix) *)
Definition xform_set_one (l : list Qc) (p : dag) : M unit :=
  fun h => match of_list16 l with
           | Some a =>
               edit "xform" (fun n => negb (lockT n || lockR n || lockS n))
                    (with_local (acomp a (ainv (world (nodes h) (tail p))))) p h
           | None => (Raise (HostError "xform"), h)
           end.

Definition xform_set_matrix (ps : list dag) (l : list Qc) : M unit :=
  each (xform_set_one l) ps ;;; ret tt.

End Maya.

(** ** The layout tool (src/__init__.py) *)

Module Layout.
Import Affine Maya.
Local Open Scope cmds_scope.

(** The group ["|Originals"]. *)
Definition Originals : dag := ["Originals"%string].

Definition lockTransform (node : dag) : M unit :=
  setAttr_lock node translate true ;;;
  setAttr_lock node rotate true ;;;
  setAttr_lock node scale true ;;;
  lockNode node true.

Definition unlockTransform (node : dag) : M unit :=
  lockNode node false ;;;
  setAttr_lock node translate false ;;;
  setAttr_lock node rotate false ;;;
  setAttr_lock node scale false.

(** [node.rsplit("|", 1)[-1]] *)
Definition shortName (node : dag) : string := hd ""%string node.

Definition addIdentifier (node : dag) (identifier : string) : M unit :=
  e <- objExists_identifier node ;;
  (if e then deleteAttr_identifier node else ret tt) ;;;
  addAttr_identifier node ;;;
  setAttr_identifier node identifier.

Definition select_one_msg : string := "Please select exactly 1 object.".

(** The [try] block of [instantiateOriginal] (lines 94-102). *)
Definition instantiate_body (original : option dag) : M (list dag) :=
  original <- match original with
              | None =>
                  selection <- ls_sl_transform (ChildOf Originals) ;;
                  (if negb (length selection =? 1) then error select_one_msg else ret tt) ;;;
                  item0 selection
              | Some o => ret o
              end ;;
  dup <- duplicate original ;;
  copy <- item0 dup ;;
  unlockTransform copy ;;;
  parent [copy] [].

Definition instantiateOriginal (original : option dag) : M (list dag) :=
  undoInfo_openChunk ;;;
  try_except_else
    (instantiate_body original)
    (fun e => undoInfo_closeChunk ;;; undo ;;; raise e)
    undoInfo_closeChunk.

(** [cmds.parent(cmds.spaceLocator(name=name), node)[0]] *)
Definition makeLocator (name : string) (node : dag) : M dag :=
  l <- spaceLocator name ;;
  r <- parent l node ;;
  item0 r.

(** Lines 53-61: "Make locators representing the local space". *)
Definition makeLocators (node : dag) : M unit :=
  zero <- makeLocator "Zero" node ;;
  X <- makeLocator "X" node ;;
  Y <- makeLocator "Y" node ;;
  Z <- makeLocator "Z" node ;;
  setAttr_translate X (Vec 1 0 0) ;;;
  setAttr_translate Y (Vec 0 1 0) ;;;
  setAttr_translate Z (Vec 0 0 1) ;;;
  hide [zero; X; Y; Z].

(** The [try] block of [initializeOriginal] up to the call of
    [instantiateOriginal] (lines 49-76). *)
Definition initialize_steps : M unit :=
  selection <- ls_sl_transform AnyNode ;;
  (if negb (length selection =? 1) then error select_one_msg else ret tt) ;;;
  sel0 <- item0 selection ;;
  makeLocators sel0 ;;;
  (* Ensure originals group exists *)
  e <- objExists Originals ;;
  (if negb e then
     originals <- group_empty "Originals" ;;
     lockTransform originals ;;;
     hide [originals]
   else ret tt) ;;;
  (* Parent the original *)
  selection <- parent selection Originals ;;
  sel0 <- item0 selection ;;
  (* Add identifier *)
  addIdentifier sel0 (shortName sel0) ;;;
  (* Lock the original *)
  lockTransform sel0.

Definition initializeOriginal : M unit :=
  undoInfo_openChunk ;;;
  originalSelection <- ls_sl ;;
  try_except_else
    (initialize_steps ;;;
     (* Instantiate the original so we have a workable copy *)
     instantiateOriginal None ;;;
     ret tt)
    (fun e => undoInfo_closeChunk ;;; raise e)
    undoInfo_closeChunk.

Fixpoint findOriginal_loop (identifier : string) (originals : list plug) : M (option dag) :=
  match originals with
  | [] => ret None
  | original :: rest =>
      v <- getAttr original ;;
      if String.eqb v identifier then ret (Some (plug_node original))
      else findOriginal_loop identifier rest
  end.

Definition findOriginal (identifier : string) : M (option dag) :=
  originals <- ls_identifier (ChildOf Originals) ;;
  findOriginal_loop identifier originals.

(** [a[i] -= b[i]] *)
Definition isub (i : nat) (a b : list Qc) : M (list Qc) :=
  match a !! i, b !! i with
  | Some x, Some y => ret (<[i := x - y]> a)
  | _, _ => raise IndexError
  end.

Definition matrixFromLocators (node : dag) : M (list Qc) :=
  row0 <- xform_q_rp ("X"%string :: node) ;;
  row1 <- xform_q_rp ("Y"%string :: node) ;;
  row2 <- xform_q_rp ("Z"%string :: node) ;;
  row3 <- xform_q_rp ("Zero"%string :: node) ;;
  row0 <- isub 0 row0 row3 ;;
  row0 <- isub 1 row0 row3 ;;
  row0 <- isub 2 row0 row3 ;;
  row1 <- isub 0 row1 row3 ;;
  row1 <- isub 1 row1 row3 ;;
  row1 <- isub 2 row1 row3 ;;
  row2 <- isub 0 row2 row3 ;;
  row2 <- isub 1 row2 row3 ;;
  row2 <- isub 2 row2 row3 ;;
  let row0 := app row0 [0] in
  let row1 := app row1 [0] in
  let row2 := app row2 [0] in
  let row3 := app row3 [0] in
  ret (app row0 (app row1 (app row2 row3))).

Definition select_two_msg : string := "Please select the new and then the old object.".
Definition wrong_order_msg : string :=
  "Please select the new and then the old object." +:+
  "The old object is missing the identifier attribute, " +:+
  "did you select in the wrong order?".
Definition not_found_msg (identifier : string) : string :=
  "Unexpected error, could not find original object with " +:+ identifier +:+ ".".

(** [instance.startswith("|Originals|")] *)
Definition startswith_Originals (p : dag) : bool :=
  match rev p with
  | root :: _ :: _ => String.eqb root "Originals"
  | _ => false
  end.

(** Lines 141-171, "Update Original": returns the new original and the
    identifier. *)
Definition updateOriginal : M (dag * string) :=
  (* Validate the selection *)
  selection <- ls_sl_transform AnyNode ;;
  (if negb (length selection =? 2) then error select_two_msg else ret tt) ;;;
  sel1 <- item0 (drop 1 selection) ;;
  e <- objExists_identifier sel1 ;;
  (if negb e then error wrong_order_msg else ret tt) ;;;
  (* Get the new and old objects *)
  sel0 <- item0 selection ;;
  dup <- duplicate sel0 ;;
  new <- item0 dup ;;
  identifier <- getAttr (identifier_of sel1) ;;
  old <- findOriginal identifier ;;
  match old with
  | None => error (not_found_msg identifier)
  | Some old =>
      (* Copy the position to new *)
      oldMatrix <- xform_q_matrix old ;;
      xform_set_matrix [new] oldMatrix ;;;
      (* Move the locators to new *)
      for_each ["Zero"%string :: old; "X"%string :: old; "Y"%string :: old; "Z"%string :: old]
               (fun locator => parent [locator] new ;;; ret tt) ;;;
      (* Add the identifier to the new original *)
      addIdentifier new identifier ;;;
      (* Delete old *)
      unlockTransform old ;;;
      delete old ;;;
      (* Rename new, parent it to the same parent, lock it *)
      new <- parent [new] Originals ;;
      new <- rename new (shortName old) ;;
      lockTransform new ;;;
      ret (new, identifier)
  end.

(** The body of the loop of lines 175-194. *)
Definition updateInstance (new : dag) (identifier : string) (instance : plug) : M unit :=
  (* Do not replace originals, only instances *)
  if startswith_Originals (plug_node instance) then ret tt
  else
    v <- getAttr instance ;;
    (* Do not replace objects with the wrong identifier *)
    if negb (String.eqb v identifier) then ret tt
    else
      (* Move a copy to the right place *)
      copy <- instantiateOriginal (Some new) ;;
      let instance := plug_node instance in
      matrix <- matrixFromLocators instance ;;
      xform_set_matrix copy matrix ;;;
      (* Delete the old instance *)
      delete instance ;;;
      (* Steal its parent and name *)
      let parent_ := tail instance in
      let old_name := hd ""%string instance in
      copy <- (match parent_ with
               | [] => ret copy
               | _ => parent copy parent_
               end) ;;
      copy <- rename copy old_name ;;
      ret tt.

(** Lines 173-194, "Update Instances". *)
Definition updateInstances (new : dag) (identifier : string) : M unit :=
  plugs <- ls_identifier AnyNode ;;
  for_each plugs (updateInstance new identifier).

Definition updateOriginalAndInstances : M unit :=
  r <- updateOriginal ;;
  updateInstances (fst r) (snd r).

End Layout.


(** ** Notions used to state the properties *)

Module Props.
Import Affine Maya Layout.

(** The pose read off the four locators below [node]: the rows
    [X - Zero], [Y - Zero], [Z - Zero] and [Zero]. *)
Definition sampled (m : gmap dag Node) (node : dag) : affine :=
  let o := tr (world m ("Zero"%string :: node)) in
  Aff (Mat (vsub (tr (world m ("X"%string :: node))) o)
           (vsub (tr (world m ("Y"%string :: node))) o)
           (vsub (tr (world m ("Z"%string :: node))) o)) o.

(** The sixteen numbers of a pose with [0.0] closing each of the four
    rows. *)
Definition rows_with_zero (a : affine) : list Qc :=
  let m := lin a in
  [ vx (r0 m); vy (r0 m); vz (r0 m); 0;
    vx (r1 m); vy (r1 m); vz (r1 m); 0;
    vx (r2 m); vy (r2 m); vz (r2 m); 0;
    vx (tr a); vy (tr a); vz (tr a); 0 ].

Definition has_locators (m : gmap dag Node) (node : dag) : Prop :=
  is_Some (m !! ("X"%string :: node)) /\ is_Some (m !! ("Y"%string :: node)) /\
  is_Some (m !! ("Z"%string :: node)) /\ is_Some (m !! ("Zero"%string :: node)).

(** The position of a node in its parent's space. *)
Definition local_pos (m : gmap dag Node) (p : dag) : vec := tr (loc m p).

(** The four locators sit at the origin and at the unit points of the
    node's local space. *)
Definition unit_frame (m : gmap dag Node) (node : dag) : Prop :=
  has_locators m node /\
  local_pos m ("Zero"%string :: node) = vzero /\
  local_pos m ("X"%string :: node) = ex /\
  local_pos m ("Y"%string :: node) = ey /\
  local_pos m ("Z"%string :: node) = ez.



(** A locator's transform node as created, with local transform [a]. *)
Definition locator_node (st : nat) (a : affine) : Node :=
  with_local a (fresh_node (st, []) Transform).

(** A scene of one transform ["|Pillar"], translated by [t], selected. *)
Definition pillar_scene (t : vec) : Host :=
  mkHost {[ ["Pillar"%string] := with_local (Aff mid t) (fresh_node (0%nat, []) Transform) ]}
         [["Pillar"%string]] 1 [].

(** The scene [pillar_scene t] after the locator-creation steps. *)
Definition after_locators (t : vec) : Host :=
  snd (makeLocators ["Pillar"%string] (pillar_scene t)).



(** The scene [pillar_scene vzero] with nothing selected. *)
Definition nothing_selected : Host :=
  mkHost (nodes (pillar_scene vzero)) [] 1 [].

(** The transforms among the selected nodes: what
    [cmds.ls(sl=True, type="transform")] lists. *)
Definition selected_transforms (h : Host) : list dag :=
  filter (fun p => matches AnyNode p && is_transform (nodes h) p) (selection h).

(** The nodes that match [pat] and carry the identifier [i], in the host's
    listing order. *)
Definition carriers (pat : pattern) (m : gmap dag Node) (i : string) : list dag :=
  filter (fun p => matches pat p && bool_decide (ident <$> m !! p = Some (Some i)))
         (map fst (map_to_list m)).

(** A scene with a transform [|Cand] and a transform [|Pillar1] that carries
    the identifier ["Pillar"], both selected in that order, and no
    [|Originals]. *)
Definition orphan_scene : Host :=
  mkHost (<[ ["Cand"%string] := fresh_node (0%nat, []) Transform ]>
          {[ ["Pillar1"%string] := with_ident (Some "Pillar"%string) (fresh_node (1%nat, []) Transform) ]})
         [["Cand"%string]; ["Pillar1"%string]] 2 [].

(** Unlocking, as one change of the node. *)
Definition unlock_node (n : Node) : Node :=
  with_lock scale false (with_lock rotate false (with_lock translate false (with_lockN false n))).

(** The copy of the subtree at [p] that [duplicate] makes with stamp [st]. *)
Definition copy_of (st : nat) (p : dag) (m : gmap dag Node) : gmap dag Node :=
  map_imap (fun r v => Some (with_uid (st, r) v)) (sub p m).

(** The scene [pillar_scene vzero] after [initializeOriginal], and the
    original it holds. *)
Definition published : Host := snd (initializeOriginal (pillar_scene vzero)).
Definition published_original : Node :=
  default (fresh_node (0%nat, []) Transform) (nodes published !! ["Pillar"; "Originals"]%string).

(** The scene [published] with a candidate [|Cand] selected before the
    instance [|Pillar1], and two transforms tagged ["Vase"]: [|Vase2]
    under the world and [|Pillar1|Vase1] under the instance. *)
Definition vase (st : nat) : Node := with_ident (Some "Vase"%string) (fresh_node (st, []) Transform).
Definition nested_scene : Host :=
  mkHost (<[ ["Vase1"; "Pillar1"]%string := vase 100 ]>
          (<[ ["Vase2"%string] := vase 101 ]>
           (<[ ["Cand"%string] := fresh_node (102%nat, []) Transform ]> (nodes published))))
         [["Cand"%string]; ["Pillar1"%string]] 103 [].

(** No node at [c] or below it. *)
Definition clear (c : dag) (m : gmap dag Node) : Prop :=
  forall k, c `suffix_of` k -> m !! k = None.

(** The subtree at [p] replaced by the tree [t]. *)
Definition replace_at (p : dag) (t m : gmap dag Node) : gmap dag Node :=
  graft p t (prune p m).

(** The tree put in place of the instance at [p]: a copy of the subtree of
    [new] whose root is unlocked and given the local transform that brings
    it, under the parent of [p], to the pose sampled from the locators of
    [p]. *)
Definition fresh_instance (st : nat) (new p : dag) (m : gmap dag Node) : gmap dag Node :=
  alter (with_local (acomp (sampled m p) (ainv (world m (tail p)))) ∘ unlock_node) []
        (copy_of st new m).

(** Locking, as one change of the node. *)
Definition lock_node (n : Node) : Node :=
  with_lockN true (with_lock scale true (with_lock rotate true (with_lock translate true n))).

(** Where the nodes of the tree [t] come from: made with the stamp [st], or
    nodes of [m] that were strictly below [old], under the identity they
    had. *)
Definition prov (st : nat) (old : dag) (m t : gmap dag Node) : Prop :=
  forall r n, t !! r = Some n ->
    fst (uid n) = st \/
    exists k n0, old `suffix_of` k /\ k <> old /\ m !! k = Some n0 /\ uid n = uid n0.

(** The tree [t] has, right below its root, the node that [m] has at
    [L :: old], up to its local transform. *)
Definition adopted (L : string) (old : dag) (m t : gmap dag Node) : Prop :=
  exists (z : string) nL a, m !! (L :: old) = Some nL /\ t !! [z] = Some (with_local a nL).

(** The identity [u] is found in [m] only at paths that satisfy [P]. *)
Definition confined (u : nat * dag) (P : dag -> Prop) (m : gmap dag Node) : Prop :=
  map_Forall (fun k n => uid n = u -> P k) m.
Definition only_at (u : nat * dag) (p : dag) (m : gmap dag Node) : Prop :=
  confined u (fun k => k = p) m.
Definition absent (u : nat * dag) (m : gmap dag Node) : Prop :=
  confined u (fun _ => False) m.

(** Every node of the tree was made with the stamp [st]. *)
Definition fresh_tree (st : nat) (t : gmap dag Node) : Prop :=
  forall r n, t !! r = Some n -> fst (uid n) = st.

(** The world itself is no node, every node was made before the next
    stamp, and no two nodes have one identity. *)
Definition well_formed (h : Host) : Prop :=
  nodes h !! [] = None /\
  map_Forall (fun k n => (fst (uid n) < stamp h)%nat /\ only_at (uid n) k (nodes h)) (nodes h).

#[global] Instance confined_dec u P `{forall k, Decision (P k)} m : Decision (confined u P m).
Proof. unfold confined. apply _. Defined.
#[global] Instance only_at_dec u p m : Decision (only_at u p m).
Proof. unfold only_at. apply _. Defined.
#[global] Instance absent_dec u m : Decision (absent u m).
Proof. unfold absent. apply _. Defined.
#[global] Instance well_formed_dec h : Decision (well_formed h).
Proof. unfold well_formed. apply _. Defined.

(** The scene left by [initializeOriginal] on a [|Pillar] translated by
    [(5, 0, 0)], with a candidate [|Cand] selected before the instance
    [|Pillar1]. *)
Definition offset_scene : Host :=
  let h := snd (initializeOriginal (pillar_scene (Vec (Q2Qc 5) 0 0))) in
  mkHost (<[ ["Cand"%string] := fresh_node (stamp h, []) Transform ]> (nodes h))
         [["Cand"%string]; ["Pillar1"%string]] (S (stamp h)) [].

(** The instance [|Pillar1] of [nested_scene]. *)
Definition nested_instance : Node :=
  default (fresh_node (0%nat, []) Transform) (nodes nested_scene !! ["Pillar1"%string]).

(** No node carries the identifier [i]. *)
Definition untagged (i : string) (m : gmap dag Node) : Prop :=
  map_Forall (fun _ n => ident n <> Some i) m.

(** The transform [u] is at [p], no node carries the identifier [i], and no
    node right under [|Originals] has the name [i]: the scene before [p] is
    moved to [|Originals] and tagged. *)
Definition pending (i : string) (p : dag) (u : nat * dag) (m : gmap dag Node) : Prop :=
  (exists n, m !! p = Some n /\ uid n = u /\ kind n = Transform) /\
  untagged i m /\ (i ∉ taken m Originals).

(** A command that keeps [J] true of the scene whenever it returns. *)
Definition preserves {A : Type} (J : gmap dag Node -> Prop) (c : M A) : Prop :=
  forall h a h', c h = (Ok a, h') -> J (nodes h) -> J (nodes h').

#[global] Instance untagged_dec i m : Decision (untagged i m).
Proof. unfold untagged. apply _. Defined.

(** The transform [|Pillar] of [pillar_scene vzero]. *)
Definition pillar_node : Node := fresh_node (0%nat, []) Transform.

(** The nodes of [orphan_scene] with [|Cand] alone selected. *)
Definition bystander_scene : Host :=
  mkHost (nodes orphan_scene) [["Cand"%string]] 2 [].

(** The scene [after_locators vzero] with [|Pillar] alone selected. *)
Definition rigged_scene : Host :=
  mkHost (nodes (after_locators vzero)) [["Pillar"%string]] (stamp (after_locators vzero)) [].

(** [m'] has, outside the subtree at [p], the nodes of [m]. *)
Definition same_outside (p : dag) (m m' : gmap dag Node) : Prop :=
  forall k, ~ p `suffix_of` k -> m' !! k = m !! k.

(** [m'] has every node of [m], as it is in [m]. *)
Definition extends (m m' : gmap dag Node) : Prop :=
  forall k, is_Some (m !! k) -> m' !! k = m !! k.

(** A command that makes no call to the undo queue. *)
Definition quiet {A} (c : M A) : Prop :=
  forall h r h', c h = (r, h') -> undoLog h' = undoLog h.

(** [kept k m m']: the node at [k] and all nodes above it are the same
    in [m'] as in [m]. *)
Definition kept (k : dag) (m m' : gmap dag Node) : Prop :=
  forall j, j `suffix_of` k -> m' !! j = m !! j.

End Props.

(** ** Long names as strings: the string operations of the tool *)

Module Names.
Import Affine Maya Layout Props.
Import Stdlib.Strings.Ascii.
Local Open Scope cmds_scope.

(** Whether the character [c] occurs in [s]. *)
Fixpoint occurs (c : ascii) (s : string) : bool :=
  match s with
  | EmptyString => false
  | String a s' => Ascii.eqb a c || occurs c s'
  end.

(** The string cut at its last, and at its first, occurrence of [sep]. *)
Fixpoint cut_last (sep : ascii) (s : string) : option (string * string) :=
  match s with
  | EmptyString => None
  | String a s' =>
      match cut_last sep s' with
      | Some (b, c) => Some (String a b, c)
      | None => if Ascii.eqb a sep then Some (EmptyString, s') else None
      end
  end.

Fixpoint cut_first (sep : ascii) (s : string) : option (string * string) :=
  match s with
  | EmptyString => None
  | String a s' =>
      if Ascii.eqb a sep then Some (EmptyString, s')
      else match cut_first sep s' with
           | Some (b, c) => Some (String a b, c)
           | None => None
           end
  end.

(** [s.rsplit(sep, 1)] and [s.split(sep, 1)], for a separator of one
    character. *)
Definition rsplit1 (sep : ascii) (s : string) : list string :=
  match cut_last sep s with Some (b, c) => [b; c] | None => [s] end.
Definition split1 (sep : ascii) (s : string) : list string :=
  match cut_first sep s with Some (b, c) => [b; c] | None => [s] end.

(** [shortName] on the long name itself: [node.rsplit("|", 1)[-1]]. *)
Definition shortName_of (node : string) : string :=
  List.last (rsplit1 "|"%char node) ""%string.

(** [original.split(".", 1)[0]] *)
Definition node_of_plug (original : string) : string :=
  List.hd ""%string (split1 "."%char original).

(** [s.startswith(pre)] *)
Fixpoint startswith (s pre : string) {struct pre} : bool :=
  match pre, s with
  | EmptyString, _ => true
  | String a pre', String b s' => Ascii.eqb a b && startswith s' pre'
  | String _ _, EmptyString => false
  end.

(** The long names of the nodes have no ["|"] and no ["."] in their
    components. *)
Definition plain (p : dag) : Prop :=
  Forall (fun n => occurs "|"%char n = false /\ occurs "."%char n = false) p.

#[global] Instance plain_dec p : Decision (plain p).
Proof. unfold plain. apply _. Defined.

End Names.

(** ** Facts about the affine algebra *)

Module AffineFacts.
Import Affine.

Lemma vec_eq a b : vx a = vx b -> vy a = vy b -> vz a = vz b -> a = b.
Proof. destruct a, b; simpl; intros; subst; reflexivity. Qed.

Ltac crush_vec :=
  repeat match goal with
         | v : vec |- _ => destruct v
         | m : mat |- _ => destruct m
         | a : affine |- _ => destruct a
         end;
  cbv [acomp ainv mmul minv vmul vadd vsub vopp vscale det regular
       aid mid ex ey ez vzero vx vy vz r0 r1 r2 lin tr] in *.

Ltac split_affine :=
  f_equal; [f_equal|]; apply vec_eq; cbv [vx vy vz].

Lemma acomp_id_l a : acomp aid a = a.
Proof. crush_vec. split_affine; ring. Qed.

Lemma acomp_id_r a : acomp a aid = a.
Proof. crush_vec. split_affine; ring. Qed.

Lemma acomp_assoc a b c : acomp (acomp a b) c = acomp a (acomp b c).
Proof. crush_vec. split_affine; ring. Qed.

Lemma regular_aid : regular aid.
Proof. crush_vec. intros H. discriminate H. Qed.

Lemma ainv_r a : regular a -> acomp a (ainv a) = aid.
Proof.
  intros H. crush_vec. split_affine; field; exact H.
Qed.

Lemma ainv_l a : regular a -> acomp (ainv a) a = aid.
Proof.
  intros H. crush_vec. split_affine; field; exact H.
Qed.

(** Re-expressing a world transform under a regular parent and going back
    to world space gives the transform again. *)
Lemma acomp_ainv_cancel w p : regular p -> acomp (acomp w (ainv p)) p = w.
Proof.
  intros H. rewrite acomp_assoc, ainv_l by exact H. apply acomp_id_r.
Qed.

Lemma acomp_cancel_ainv w p : regular p -> acomp (acomp w p) (ainv p) = w.
Proof.
  intros H. rewrite acomp_assoc, ainv_r by exact H. apply acomp_id_r.
Qed.

Lemma of_to_list16 a : of_list16 (to_list16 a) = Some a.
Proof. destruct a as [[[] [] []] []]. reflexivity. Qed.

Lemma tr_acomp a b : tr (acomp a b) = vadd (vmul (tr a) (lin b)) (tr b).
Proof. reflexivity. Qed.

End AffineFacts.

(** ** Facts about the scene graph *)

Module SceneFacts.
Import Affine Maya.


Implicit Types (p q c k r t : dag) (m : gmap dag Node).

Lemma strip_Some q k r : strip q k = Some r <-> k = app r q.
Proof.
  unfold strip. case_decide as H; split.
  - intros [= <-]. destruct H as [r' ->].
    rewrite length_app, Nat.add_sub, take_app_length. reflexivity.
  - intros ->. rewrite length_app, Nat.add_sub, take_app_length. reflexivity.
  - discriminate.
  - intros ->. destruct H. apply suffix_app_r. reflexivity.
Qed.

Lemma strip_app q r : strip q (app r q) = Some r.
Proof. apply strip_Some. reflexivity. Qed.

Lemma strip_None q k : strip q k = None <-> ~ q `suffix_of` k.
Proof. unfold strip. case_decide; split; intros; try done. Qed.

Lemma strip_self q : strip q q = Some [].
Proof. apply (strip_app q []). Qed.

Lemma lookup_prune p m k :
  prune p m !! k = if decide (p `suffix_of` k) then None else m !! k.
Proof.
  unfold prune. rewrite map_lookup_filter.
  destruct (m !! k) as [n|]; simpl; case_decide; try reflexivity.
  - rewrite option_guard_False; [reflexivity | simpl; tauto].
  - rewrite option_guard_True; [reflexivity | simpl; tauto].
Qed.

Lemma lookup_sub p m r : sub p m !! r = m !! (app r p).
Proof.
  unfold sub.
  apply (map_fold_weak_ind (fun acc m0 => acc !! r = m0 !! (app r p))).
  - rewrite !lookup_empty. reflexivity.
  - intros k v m0 acc Hk IH.
    destruct (strip p k) as [r0|] eqn:Hs.
    + apply strip_Some in Hs. subst k.
      destruct (decide (r0 = r)) as [->|Hne].
      * rewrite !lookup_insert_eq. reflexivity.
      * rewrite !lookup_insert_ne; [exact IH | | exact Hne].
        intros Heq. apply app_inv_tail in Heq. contradiction.
    + rewrite lookup_insert_ne; [exact IH|].
      intros ->. rewrite strip_app in Hs. discriminate.
Qed.

Lemma lookup_graft q (t : gmap dag Node) m k :
  graft q t m !! k =
    match strip q k with
    | Some r => match t !! r with Some v => Some v | None => m !! k end
    | None => m !! k
    end.
Proof.
  unfold graft. rewrite lookup_union.
  destruct (strip q k) as [r|] eqn:Hs.
  - apply strip_Some in Hs. subst k.
    rewrite (lookup_kmap (fun r : dag => app r q)).
    destruct (t !! r); destruct (m !! _); reflexivity.
  - assert (kmap (fun r : dag => app r q) t !! k = None) as ->.
    { apply (lookup_kmap_None (fun r : dag => app r q)). intros r ->.
      rewrite strip_app in Hs. discriminate. }
    destruct (m !! k); reflexivity.
Qed.


Lemma lookup_move c c' f m k :
  move c c' f m !! k =
    match strip c' k with
    | Some r => match m !! (app r c) with
                | Some v => Some (if decide (r = []) then f v else v)
                | None => prune c m !! k
                end
    | None => prune c m !! k
    end.
Proof.
  unfold move. rewrite lookup_graft.
  destruct (strip c' k) as [r|]; [|reflexivity].
  rewrite lookup_alter.
  destruct (decide ([] = r)) as [Hr|Hr].
  - subst r. rewrite lookup_sub. simpl. destruct (m !! c); reflexivity.
  - rewrite lookup_sub. destruct (m !! _); [|reflexivity].
    rewrite decide_False by congruence. reflexivity.
Qed.

Lemma lookup_move_root c c' f m n :
  m !! c = Some n -> move c c' f m !! c' = Some (f n).
Proof.
  intros H. rewrite lookup_move, strip_self. simpl. rewrite H. reflexivity.
Qed.

Lemma lookup_move_below c c' f m r v :
  r <> [] -> m !! (app r c) = Some v -> move c c' f m !! (app r c') = Some v.
Proof.
  intros Hr H. rewrite lookup_move, strip_app, H.
  rewrite decide_False by exact Hr. reflexivity.
Qed.

Lemma lookup_move_other c c' f m k :
  ~ c `suffix_of` k -> ~ c' `suffix_of` k -> move c c' f m !! k = m !! k.
Proof.
  intros H H'. rewrite lookup_move.
  apply strip_None in H'. rewrite H', lookup_prune.
  rewrite decide_False by exact H. reflexivity.
Qed.

(** Where a node of the scene after a move comes from. *)
Lemma lookup_move_Some c c' f m k v :
  move c c' f m !! k = Some v ->
  (exists r v0, k = app r c' /\ m !! (app r c) = Some v0 /\
                v = if decide (r = []) then f v0 else v0)
  \/ (~ c `suffix_of` k /\ m !! k = Some v).
Proof.
  rewrite lookup_move. destruct (strip c' k) as [r|] eqn:Hs.
  - apply strip_Some in Hs. subst k.
    destruct (m !! app r c) as [v0|] eqn:Hv.
    + intros [= <-]. left. eauto.
    + rewrite lookup_prune. case_decide; [discriminate|]. intros; right; auto.
  - rewrite lookup_prune. case_decide; [discriminate|]. intros; right; auto.
Qed.

Lemma child_name_Some t k n :
  child_name t k = Some n <-> exists r, k = app r (n :: t).
Proof.
  unfold child_name. split.
  - destruct (strip t k) as [r'|] eqn:Hs; simpl; [|discriminate].
    apply strip_Some in Hs. subst k. intros Hl.
    apply last_Some in Hl as [r ->]. exists r.
    rewrite <- app_assoc. reflexivity.
  - intros [r ->].
    replace (app r (n :: t)) with (app (app r [n]) t) by (rewrite <- app_assoc; reflexivity).
    rewrite strip_app. simpl. apply last_snoc.
Qed.

Lemma elem_of_taken m t n :
  n ∈ taken m t <-> exists k, is_Some (m !! k) /\ (n :: t) `suffix_of` k.
Proof.
  unfold taken. rewrite elem_of_set_omap. split.
  - intros (k & Hk & Hc). apply elem_of_dom in Hk.
    apply child_name_Some in Hc as [r ->]. eexists; split; [eassumption|].
    exists r. reflexivity.
  - intros (k & Hk & r & ->). exists (app r (n :: t)). split.
    + apply elem_of_dom. exact Hk.
    + apply child_name_Some. eauto.
Qed.

Lemma fresh_name_fresh base (X : gset string) : fresh_name base X ∉ X.
Proof.
  unfold fresh_name. intros H.
  apply (fresh_string_of_set_fresh ({[ base +:+ "0" ]} ∪ X) base).
  apply elem_of_union_r. exact H.
Qed.

Lemma string_app_length (a b : string) :
  String.length (a +:+ b) = (String.length a + String.length b)%nat.
Proof. induction a; simpl; auto. Qed.

Lemma fresh_name_free base (X : gset string) : base ∉ X -> fresh_name base X = base.
Proof.
  intros H. unfold fresh_name, fresh_string_of_set, fresh_string.
  assert (base ∉ ({[base +:+ "0"]} ∪ X : gset string)) as H'.
  { intros [Heq%elem_of_singleton|?]%elem_of_union; [|contradiction].
    apply (f_equal String.length) in Heq. rewrite string_app_length in Heq.
    simpl in Heq. lia. }
  destruct (mapset.mapset_car _ !! base) as [[]|] eqn:E; [|reflexivity].
  exfalso. apply H'. exact E.
Qed.

Lemma fresh_name_avoids m t base k :
  is_Some (m !! k) -> ~ (fresh_name base (taken m t) :: t) `suffix_of` k.
Proof.
  intros Hk Hs. apply (fresh_name_fresh base (taken m t)).
  apply elem_of_taken. eauto.
Qed.

Lemma world_ext m m' k :
  (forall j, j <> [] -> j `suffix_of` k -> m' !! j = m !! j) ->
  world m' k = world m k.
Proof.
  induction k as [|n t IH]; intros H; [reflexivity|].
  simpl. unfold loc. rewrite H; [|discriminate|reflexivity].
  rewrite IH; [reflexivity|].
  intros j Hj Hs. apply H; [exact Hj|]. apply suffix_cons_r. exact Hs.
Qed.

End SceneFacts.

(** ** Facts about the commands *)

Module CmdFacts.
Import Affine Maya Layout Props SceneFacts.
Local Open Scope cmds_scope.
Implicit Types (p q c k r t : dag) (m : gmap dag Node) (h : Host).

Lemma bind_Ok {A B} (c : M A) (f : A -> M B) h b h' :
  bind c f h = (Ok b, h') -> exists a h1, c h = (Ok a, h1) /\ f a h1 = (Ok b, h').
Proof.
  unfold bind. destruct (c h) as [[a|e] h1]; [eauto|discriminate].
Qed.

Lemma bind_Raise {A B} (c : M A) (f : A -> M B) h e h' :
  bind c f h = (Raise e, h') ->
  c h = (Raise e, h') \/ exists a h1, c h = (Ok a, h1) /\ f a h1 = (Raise e, h').
Proof.
  unfold bind. destruct (c h) as [[a|e0] h1]; [eauto|].
  intros [= <- <-]. left. reflexivity.
Qed.

Lemma ret_Ok {A} (a b : A) h h' : ret a h = (Ok b, h') -> b = a /\ h' = h.
Proof. unfold ret. intros [= <- <-]. auto. Qed.

Lemma item0_Ok {A} (l : list A) a h h' :
  item0 l h = (Ok a, h') -> h' = h /\ exists l', l = a :: l'.
Proof. destruct l; simpl; [discriminate|]. intros [= <- <-]. eauto. Qed.

Lemma edit_Ok cmd ok f p h u h' :
  edit cmd ok f p h = (Ok u, h') ->
  exists n, nodes h !! p = Some n /\ ok n = true /\
            h' = with_nodes (<[p := f n]> (nodes h)) h.
Proof.
  unfold edit. destruct (nodes h !! p) as [n|]; [|discriminate].
  destruct (ok n) eqn:Hok; [|discriminate]. intros [= <- <-]. eauto.
Qed.

Lemma parent_one_Ok t c h c' h' :
  parent_one t c h = (Ok c', h') ->
  exists n, nodes h !! c = Some n /\ lockN n = false /\
            (t = [] \/ is_Some (nodes h !! t)) /\
            ~ c `suffix_of` t /\ tail c <> t /\
            c' = fresh_name (hd ""%string c) (taken (nodes h) t) :: t /\
            h' = mkHost (move c c' (with_local (acomp (world (nodes h) c) (ainv (world (nodes h) t))))
                              (nodes h))
                        [c'] (stamp h) (undoLog h).
Proof.
  unfold parent_one; cbv zeta. destruct (nodes h !! c) as [n|]; [|intros H; discriminate H].
  destruct (lockN n) eqn:L; [simpl; discriminate|]. simpl.
  destruct (bool_decide (t = []) || bool_decide (is_Some (nodes h !! t))) eqn:Ht; [|discriminate].
  simpl. destruct (bool_decide (c `suffix_of` t)) eqn:Hs; simpl; [discriminate|].
  destruct (bool_decide (tail c = t)) eqn:Hp; [discriminate|].
  apply bool_decide_eq_false in Hs, Hp.
  intros [= <- <-]. exists n.
  split; [reflexivity|]. split; [exact L|].
  split; [apply orb_true_iff in Ht as [Ht|Ht]; apply bool_decide_eq_true in Ht; auto|].
  split; [exact Hs|]. split; [exact Hp|]. split; reflexivity.
Qed.

Lemma parent_Ok cs t h (rs : list dag) h' :
  parent cs t h = (Ok rs, h') ->
  forall c, cs = [c] -> exists c', rs = [c'] /\ parent_one t c h = (Ok c', h').
Proof.
  intros H c ->. unfold parent in H. simpl in H.
  apply bind_Ok in H as (c' & h1 & H1 & H).
  apply bind_Ok in H as (bs & h2 & H2 & H).
  apply ret_Ok in H2 as [-> ->]. apply ret_Ok in H as [-> ->]. eauto.
Qed.

Lemma duplicate_Ok p h (rs : list dag) h' :
  duplicate p h = (Ok rs, h') ->
  exists n, nodes h !! p = Some n /\
    let c := fresh_name (hd ""%string p) (taken (nodes h) (tail p)) :: tail p in
    rs = [c] /\
    h' = mkHost (graft c (map_imap (fun r v => Some (with_uid (stamp h, r) v)) (sub p (nodes h)))
                       (nodes h))
                [c] (S (stamp h)) (undoLog h).
Proof.
  unfold duplicate; cbv zeta. destruct (nodes h !! p) as [n|]; [|discriminate].
  intros [= <- <-]. eauto.
Qed.

Lemma delete_Ok p h u h' :
  delete p h = (Ok u, h') ->
  exists n, nodes h !! p = Some n /\ lockN n = false /\
    h' = mkHost (prune p (nodes h)) (filter (fun s => ~ p `suffix_of` s) (selection h))
                (stamp h) (undoLog h).
Proof.
  unfold delete. destruct (nodes h !! p) as [n|]; [|discriminate].
  destruct (lockN n) eqn:L; [discriminate|]. intros [= <- <-]. eauto.
Qed.

Lemma rename_Ok cs name h c' h' :
  rename cs name h = (Ok c', h') ->
  exists c n, cs = [c] /\ nodes h !! c = Some n /\ lockN n = false /\
    c' = fresh_name name (taken (prune c (nodes h)) (tail c)) :: tail c /\
    nodes h' = move c c' (fun n => n) (nodes h) /\
    stamp h' = stamp h /\ undoLog h' = undoLog h.
Proof.
  unfold rename; cbv zeta. destruct cs as [|c [|]]; try discriminate.
  destruct (nodes h !! c) as [n|] eqn:Hc; [|discriminate].
  destruct (lockN n) eqn:L; [discriminate|]. intros [= <- <-].
  exists c, n. repeat split; done.
Qed.

End CmdFacts.

(** ** Facts about the locators *)

Module LocatorFacts.
Import Affine Maya Layout Props AffineFacts SceneFacts CmdFacts.
Local Open Scope cmds_scope.
Implicit Types (p q c k r t : dag) (m : gmap dag Node) (h : Host).

Lemma suffix_cons_l_inv (x : string) p k : (x :: p) `suffix_of` k -> p `suffix_of` k.
Proof. intros [r ->]. exists (app r [x]). rewrite <- app_assoc. reflexivity. Qed.

Lemma not_suffix_cons (x : string) p k : ~ p `suffix_of` k -> ~ (x :: p) `suffix_of` k.
Proof. intros H Hs. apply H. eapply suffix_cons_l_inv. exact Hs. Qed.

Lemma suffix_one_inv (x y : string) p : (x :: p) `suffix_of` [y] -> x = y /\ p = [].
Proof.
  intros H. apply suffix_cons_inv in H as [[= -> ->]|H]; [auto|].
  apply suffix_nil_inv in H. discriminate.
Qed.

Lemma cons_neq_self {A} (x : A) (l : list A) : x :: l <> l.
Proof. intros E. apply (f_equal length) in E. simpl in E. lia. Qed.

Lemma app_cons_inj_l r (s : string) c : app r c = s :: c -> r = [s].
Proof. intros E. change (s :: c) with (app [s] c) in E. apply app_inv_tail in E. exact E. Qed.

Lemma app_eq_self_l r c : app r c = c -> r = [].
Proof. intros E. change c with (app [] c) in E at 2. apply app_inv_tail in E. exact E. Qed.

(** A move whose source subtree is a node and one child. *)
Lemma move_pair m c0 c' (s : string) (L S : Node) f :
  (forall k, is_Some (m !! k) -> ~ c0 `suffix_of` k) ->
  move c0 c' f (<[s :: c0 := S]> (<[c0 := L]> m)) = <[s :: c' := S]> (<[c' := f L]> m).
Proof.
  intros Hfree. apply map_eq. intros k.
  set (m1 := <[s :: c0 := S]> (<[c0 := L]> m)).
  assert (m1 !! c0 = Some L) as H0.
  { unfold m1. rewrite lookup_insert_ne by apply cons_neq_self. apply lookup_insert_eq. }
  assert (m1 !! (s :: c0) = Some S) as H1 by apply lookup_insert_eq.
  destruct (decide (k = c')) as [->|Nk0].
  { rewrite (lookup_move_root _ _ _ _ _ H0).
    rewrite lookup_insert_ne by apply cons_neq_self. rewrite lookup_insert_eq. reflexivity. }
  destruct (decide (k = s :: c')) as [->|Nk1].
  { pose proof (lookup_move_below c0 c' f m1 [s] S) as E. simpl in E.
    rewrite E; [|discriminate|exact H1].
    rewrite lookup_insert_eq. reflexivity. }
  rewrite !lookup_insert_ne by congruence.
  assert (prune c0 m1 !! k = m !! k) as Hp.
  { rewrite lookup_prune. case_decide as Hc.
    - destruct (m !! k) eqn:E; [|reflexivity].
      exfalso. eapply Hfree; [eexists; exact E|exact Hc].
    - unfold m1. rewrite !lookup_insert_ne; [reflexivity| |].
      + intros ->. apply Hc. reflexivity.
      + intros <-. apply Hc. apply suffix_cons_r. reflexivity. }
  rewrite lookup_move. destruct (strip c' k) as [r|] eqn:Hs; [|exact Hp].
  apply strip_Some in Hs. subst k.
  assert (m1 !! app r c0 = None) as ->; [|exact Hp].
  unfold m1. rewrite !lookup_insert_ne.
  - destruct (m !! app r c0) eqn:E; [|reflexivity].
    exfalso. eapply Hfree; [eexists; exact E|]. apply suffix_app_r. reflexivity.
  - intros E. symmetry in E. apply app_eq_self_l in E. subst r. apply Nk0. reflexivity.
  - intros E. symmetry in E. apply app_cons_inj_l in E. subst r. apply Nk1. reflexivity.
Qed.

Lemma kept_refl k m : kept k m m.
Proof. intros j _. reflexivity. Qed.

Lemma kept_trans k m m1 m2 : kept k m m1 -> kept k m1 m2 -> kept k m m2.
Proof. intros H1 H2 j Hj. rewrite H2, H1 by exact Hj. reflexivity. Qed.

Lemma kept_insert k m p v : ~ p `suffix_of` k -> kept k m (<[p := v]> m).
Proof. intros H j Hj. apply lookup_insert_ne. intros ->. contradiction. Qed.

Lemma kept_prune k m p : ~ p `suffix_of` k -> kept k m (prune p m).
Proof.
  intros H j Hj. rewrite lookup_prune. rewrite decide_False; [reflexivity|].
  intros Hp. apply H. etrans; eassumption.
Qed.

Lemma kept_graft k m q (t : gmap dag Node) : ~ q `suffix_of` k -> kept k m (graft q t m).
Proof.
  intros H j Hj. rewrite lookup_graft.
  assert (strip q j = None) as ->; [|reflexivity].
  apply strip_None. intros Hq. apply H. etrans; eassumption.
Qed.

Lemma kept_move k m c c' f :
  ~ c `suffix_of` k -> ~ c' `suffix_of` k -> kept k m (move c c' f m).
Proof.
  intros H H' j Hj. apply lookup_move_other.
  - intros Hp. apply H. etrans; eassumption.
  - intros Hp. apply H'. etrans; eassumption.
Qed.

Lemma kept_world k m m' : kept k m m' -> world m' k = world m k.
Proof. intros H. apply world_ext. intros j _ Hj. apply H. exact Hj. Qed.

Lemma kept_lookup k m m' : kept k m m' -> m' !! k = m !! k.
Proof. intros H. apply H. reflexivity. Qed.

Lemma kept_suffix k j m m' : kept k m m' -> j `suffix_of` k -> kept j m m'.
Proof. intros H Hj i Hi. apply H. etrans; eassumption. Qed.


Lemma world_fresh_root m (z : string) a :
  world (<[ [z] := a ]> m) [z] = local a.
Proof.
  simpl. unfold loc. rewrite lookup_insert_eq. apply acomp_id_r.
Qed.

Lemma makeLocator_Ok name node h c h' :
  makeLocator name node h = (Ok c, h') ->
  let z0 := fresh_name name (taken (nodes h) []) in
  let sh := (z0 +:+ "Shape")%string in
  let m1 := <[ [sh; z0] := fresh_node (stamp h, [sh]) Shape ]>
            (<[ [z0] := fresh_node (stamp h, []) Transform ]> (nodes h)) in
  is_Some (nodes h !! node) /\ node <> [] /\
  c = fresh_name z0 (taken m1 node) :: node /\
  h' = mkHost (<[ sh :: c := fresh_node (stamp h, [sh]) Shape ]>
               (<[ c := locator_node (stamp h) (ainv (world (nodes h) node)) ]> (nodes h)))
              [c] (S (stamp h)) (undoLog h).
Proof.
  intros H z0 sh m1. unfold makeLocator in H.
  apply bind_Ok in H as (l & h1 & H1 & H).
  apply bind_Ok in H as (rs & h2 & H2 & H).
  apply item0_Ok in H as [-> [l' ->]].
  unfold spaceLocator in H1. injection H1 as <- <-.
  fold z0 in H2. fold sh in H2. fold m1 in H2.
  apply parent_Ok with (c := [z0]) in H2 as (c' & [= <- ->] & H2); [|reflexivity].
  apply parent_one_Ok in H2 as (n & Hn & _ & Ht & Hs & Htl & -> & ->).
  cbn [nodes stamp undoLog selection] in *.
  assert (forall k, is_Some (nodes h !! k) -> ~ [z0] `suffix_of` k) as Hfree.
  { intros k Hk. apply fresh_name_avoids. exact Hk. }
  assert (node <> []) as Hne by (intros ->; apply Htl; reflexivity).
  assert (is_Some (nodes h !! node)) as Hnode.
  { destruct Ht as [->|[x Hx]]; [done|].
    unfold m1 in Hx. rewrite !lookup_insert_ne in Hx; [eauto| |].
    - intros <-. apply Hs. reflexivity.
    - intros <-. apply Hs. apply suffix_cons_r. reflexivity. }
  split; [exact Hnode|]. split; [exact Hne|]. split; [reflexivity|].
  f_equal.
  assert (world m1 [z0] = aid) as Hw0.
  { unfold m1. simpl. unfold loc.
    rewrite lookup_insert_ne by (intros E; apply (f_equal length) in E; discriminate E).
    rewrite lookup_insert_eq. apply acomp_id_l. }
  assert (world m1 node = world (nodes h) node) as Hw1.
  { apply kept_world. unfold m1. eapply kept_trans; apply kept_insert.
    - apply Hfree, Hnode.
    - apply not_suffix_cons. apply Hfree, Hnode. }
  rewrite Hw0, Hw1, acomp_id_l.
  unfold m1. apply move_pair. exact Hfree.
Qed.


Lemma taken_insert m k (v : Node) t n :
  (n ∈ taken (<[k := v]> m) t) <-> ((n :: t) `suffix_of` k) \/ (n ∈ taken m t).
Proof.
  rewrite !elem_of_taken. split.
  - intros (j & Hj & Hs). destruct (decide (j = k)) as [->|Hne]; [auto|].
    rewrite lookup_insert_ne in Hj by congruence. right. eauto.
  - intros [Hs|(j & Hj & Hs)].
    + exists k. rewrite lookup_insert_eq. eauto.
    + exists j. split; [|exact Hs].
      destruct (decide (k = j)) as [->|Hne].
      * rewrite lookup_insert_eq. eauto.
      * rewrite lookup_insert_ne by exact Hne. exact Hj.
Qed.


Lemma suffix_cons_cons_inv (x y : string) t : (x :: t) `suffix_of` (y :: t) -> x = y.
Proof.
  intros H. apply suffix_cons_inv in H as [[= ->]|H]; [reflexivity|].
  apply suffix_cons_not in H. contradiction.
Qed.

Lemma suffix_cons2_inv (x y z : string) t : (x :: t) `suffix_of` (z :: y :: t) -> x = y.
Proof.
  intros H. apply suffix_cons_inv in H as [E|H].
  - apply (f_equal length) in E. simpl in E. lia.
  - apply suffix_cons_cons_inv in H. exact H.
Qed.






Ltac key_neq :=
  first [ congruence
        | let E := fresh in intros E; apply (f_equal length) in E; simpl in E; lia ].



End LocatorFacts.

(** ** Facts about the sampled frame *)

Module FrameFacts.
Import Affine Maya Layout Props AffineFacts SceneFacts CmdFacts LocatorFacts.
Local Open Scope cmds_scope.
Implicit Types (p q c k r t : dag) (m : gmap dag Node) (h : Host).

Lemma xform_q_rp_Some p h :
  is_Some (nodes h !! p) ->
  xform_q_rp p h = (Ok (vec_to_list (tr (world (nodes h) p))), h).
Proof. intros [n Hn]. unfold xform_q_rp. rewrite Hn. reflexivity. Qed.

Lemma xform_q_rp_Ok p h l h' :
  xform_q_rp p h = (Ok l, h') ->
  is_Some (nodes h !! p) /\ h' = h /\ l = vec_to_list (tr (world (nodes h) p)).
Proof.
  unfold xform_q_rp. destruct (nodes h !! p) as [n|] eqn:Hn; [|discriminate].
  intros [= <- <-]. eauto.
Qed.

Lemma matrixFromLocators_Some node h :
  has_locators (nodes h) node ->
  matrixFromLocators node h = (Ok (rows_with_zero (sampled (nodes h) node)), h).
Proof.
  intros (HX & HY & HZ & HO). unfold matrixFromLocators, bind.
  rewrite !xform_q_rp_Some by assumption. reflexivity.
Qed.

Lemma matrixFromLocators_Ok node h l h' :
  matrixFromLocators node h = (Ok l, h') ->
  has_locators (nodes h) node /\ h' = h /\ l = rows_with_zero (sampled (nodes h) node).
Proof.
  intros H. assert (has_locators (nodes h) node) as Hl.
  { unfold matrixFromLocators in H.
    apply bind_Ok in H as (l0 & h0 & H0 & H). apply xform_q_rp_Ok in H0 as (HX & -> & _).
    apply bind_Ok in H as (l1 & h1 & H1 & H). apply xform_q_rp_Ok in H1 as (HY & -> & _).
    apply bind_Ok in H as (l2 & h2 & H2 & H). apply xform_q_rp_Ok in H2 as (HZ & -> & _).
    apply bind_Ok in H as (l3 & h3 & H3 & H). apply xform_q_rp_Ok in H3 as (HO & -> & _).
    repeat split; assumption. }
  rewrite (matrixFromLocators_Some _ _ Hl) in H. injection H as <- <-. auto.
Qed.

Lemma of_rows_with_zero a : of_list16 (rows_with_zero a) = Some a.
Proof. destruct a as [[[] [] []] []]. reflexivity. Qed.

Lemma world_cons m (n : string) p : world m (n :: p) = acomp (loc m (n :: p)) (world m p).
Proof. reflexivity. Qed.

(** With the locators at the origin and the unit points of the node's
    space, the sampled pose is the node's world transform. *)
Lemma sampled_unit_frame m node : unit_frame m node -> sampled m node = world m node.
Proof.
  intros (_ & HO & HX & HY & HZ). unfold sampled, local_pos in *.
  rewrite !world_cons, !tr_acomp, HO, HX, HY, HZ.
  generalize (world m node). intros a. crush_vec. split_affine; ring.
Qed.



End FrameFacts.

(** ** Facts about the undo queue *)

Module UndoFacts.
Import Affine Maya Layout Props AffineFacts SceneFacts CmdFacts LocatorFacts.
Local Open Scope cmds_scope.
Implicit Types (p q c k r t : dag) (m : gmap dag Node) (h : Host).

Lemma quiet_ret {A} (a : A) : quiet (ret a).
Proof. intros h r h' [= <- <-]. reflexivity. Qed.

Lemma quiet_raise {A} e : quiet (@raise A e).
Proof. intros h r h' [= <- <-]. reflexivity. Qed.

Lemma quiet_error {A} msg : quiet (@error A msg).
Proof. apply quiet_raise. Qed.

Lemma quiet_bind {A B} (c : M A) (f : A -> M B) :
  quiet c -> (forall a, quiet (f a)) -> quiet (bind c f).
Proof.
  intros Hc Hf h r h'. unfold bind. destruct (c h) as [[a|e] h1] eqn:E.
  - intros H. rewrite (Hf a _ _ _ H). apply (Hc _ _ _ E).
  - intros [= <- <-]. apply (Hc _ _ _ E).
Qed.

Lemma quiet_each {A B} (f : A -> M B) l : (forall a, quiet (f a)) -> quiet (each f l).
Proof.
  intros Hf. induction l as [|a l IH]; simpl.
  - apply quiet_ret.
  - apply quiet_bind; [apply Hf|]. intros b. apply quiet_bind; [exact IH|].
    intros bs. apply quiet_ret.
Qed.

Lemma quiet_for_each {A} (l : list A) (body : A -> M unit) :
  (forall a, quiet (body a)) -> quiet (for_each l body).
Proof.
  intros Hf. induction l as [|a l IH]; simpl.
  - apply quiet_ret.
  - apply quiet_bind; [apply Hf|]. intros _. exact IH.
Qed.

Lemma quiet_item0 {A} (l : list A) : quiet (item0 l).
Proof. destruct l; [apply quiet_raise|apply quiet_ret]. Qed.

Ltac quiet_prim :=
  let h := fresh "h" in let r := fresh "r" in let h' := fresh "h'" in let H := fresh "H" in
  intros h r h' H;
  repeat match type of H with
         | context [match ?x with _ => _ end] => destruct x
         end;
  injection H as <- <-; reflexivity.

Lemma quiet_edit cmd ok f p : quiet (edit cmd ok f p).
Proof. unfold edit. quiet_prim. Qed.

Lemma quiet_ls_sl : quiet ls_sl.
Proof. unfold ls_sl. quiet_prim. Qed.

Lemma quiet_ls_sl_transform pat : quiet (ls_sl_transform pat).
Proof. unfold ls_sl_transform. quiet_prim. Qed.

Lemma quiet_ls_identifier pat : quiet (ls_identifier pat).
Proof. unfold ls_identifier. quiet_prim. Qed.

Lemma quiet_objExists p : quiet (objExists p).
Proof. unfold objExists. quiet_prim. Qed.

Lemma quiet_objExists_identifier p : quiet (objExists_identifier p).
Proof. unfold objExists_identifier. quiet_prim. Qed.

Lemma quiet_getAttr pl : quiet (getAttr pl).
Proof. unfold getAttr. quiet_prim. Qed.

Lemma quiet_spaceLocator name : quiet (spaceLocator name).
Proof. unfold spaceLocator. quiet_prim. Qed.

Lemma quiet_group_empty name : quiet (group_empty name).
Proof. unfold group_empty. quiet_prim. Qed.

Lemma quiet_parent_one t c : quiet (parent_one t c).
Proof. unfold parent_one. quiet_prim. Qed.

Lemma quiet_duplicate p : quiet (duplicate p).
Proof. unfold duplicate. quiet_prim. Qed.

Lemma quiet_delete p : quiet (delete p).
Proof. unfold delete. quiet_prim. Qed.

Lemma quiet_rename cs name : quiet (rename cs name).
Proof. unfold rename. quiet_prim. Qed.

Lemma quiet_xform_q_matrix p : quiet (xform_q_matrix p).
Proof. unfold xform_q_matrix. quiet_prim. Qed.

Lemma quiet_xform_q_rp p : quiet (xform_q_rp p).
Proof. unfold xform_q_rp. quiet_prim. Qed.

Lemma quiet_xform_set_one l p : quiet (xform_set_one l p).
Proof.
  unfold xform_set_one. intros h r h'. destruct (of_list16 l).
  - apply quiet_edit.
  - intros [= <- <-]. reflexivity.
Qed.

Create HintDb quiet.
#[export] Hint Resolve quiet_ret quiet_raise quiet_error quiet_each quiet_for_each quiet_item0
  quiet_edit quiet_ls_sl quiet_ls_sl_transform quiet_ls_identifier quiet_objExists
  quiet_objExists_identifier quiet_getAttr quiet_spaceLocator quiet_group_empty
  quiet_parent_one quiet_duplicate quiet_delete quiet_rename quiet_xform_q_matrix
  quiet_xform_q_rp quiet_xform_set_one : quiet.

Ltac quiet :=
  repeat first
    [ progress intros
    | solve [auto with quiet]
    | match goal with
      | |- quiet (if ?b then _ else _) => destruct b
      | |- quiet (match ?x with _ => _ end) => destruct x
      end
    | apply quiet_bind ].

Lemma quiet_lockTransform node : quiet (lockTransform node).
Proof. unfold lockTransform, setAttr_lock, lockNode. quiet. Qed.

Lemma quiet_unlockTransform node : quiet (unlockTransform node).
Proof. unfold unlockTransform, setAttr_lock, lockNode. quiet. Qed.

Lemma quiet_addIdentifier node i : quiet (addIdentifier node i).
Proof.
  unfold addIdentifier, deleteAttr_identifier, addAttr_identifier, setAttr_identifier. quiet.
Qed.

Lemma quiet_hide ps : quiet (hide ps).
Proof. unfold hide. quiet. Qed.

Lemma quiet_parent cs t : quiet (parent cs t).
Proof. unfold parent. quiet. Qed.

Lemma quiet_xform_set_matrix ps l : quiet (xform_set_matrix ps l).
Proof. unfold xform_set_matrix. quiet. Qed.

#[export] Hint Resolve quiet_lockTransform quiet_unlockTransform quiet_addIdentifier
  quiet_hide quiet_parent quiet_xform_set_matrix : quiet.

Lemma quiet_makeLocators node : quiet (makeLocators node).
Proof. unfold makeLocators, makeLocator, setAttr_translate. quiet. Qed.

Lemma quiet_matrixFromLocators node : quiet (matrixFromLocators node).
Proof. unfold matrixFromLocators, isub. quiet. Qed.

Lemma quiet_findOriginal i : quiet (findOriginal i).
Proof.
  unfold findOriginal. apply quiet_bind; [quiet|]. intros l.
  induction l as [|pl l IH]; simpl; quiet.
Qed.

#[export] Hint Resolve quiet_makeLocators quiet_matrixFromLocators quiet_findOriginal : quiet.

Lemma quiet_instantiate_body o : quiet (instantiate_body o).
Proof. unfold instantiate_body. quiet. Qed.

Lemma quiet_initialize_steps : quiet initialize_steps.
Proof. unfold initialize_steps. quiet. Qed.


Lemma undo_call_run (uc : UndoCall) h :
  undo_call uc h = (Ok tt, mkHost (nodes h) (selection h) (stamp h) (undoLog h ++ [uc])).
Proof. reflexivity. Qed.

Lemma instantiateOriginal_unfold o h :
  instantiateOriginal o h =
    match instantiate_body o (mkHost (nodes h) (selection h) (stamp h) (undoLog h ++ [OpenChunk])) with
    | (Ok a, h1) => (Ok a, mkHost (nodes h1) (selection h1) (stamp h1) (undoLog h1 ++ [CloseChunk]))
    | (Raise e, h1) =>
        (Raise e, mkHost (nodes h1) (selection h1) (stamp h1) (undoLog h1 ++ [CloseChunk; Undo]))
    end.
Proof.
  unfold instantiateOriginal, bind at 1, undoInfo_openChunk. rewrite undo_call_run.
  unfold try_except_else.
  destruct (instantiate_body o _) as [[a|e] h1]; [reflexivity|].
  unfold bind, undoInfo_closeChunk, undo, undo_call, raise. cbn.
  rewrite <- app_assoc. reflexivity.
Qed.

Lemma instantiateOriginal_log o h (res : res (list dag)) h' :
  instantiateOriginal o h = (res, h') ->
  match res with
  | Ok _ => undoLog h' = undoLog h ++ [OpenChunk; CloseChunk]
  | Raise _ => undoLog h' = undoLog h ++ [OpenChunk; CloseChunk; Undo]
  end.
Proof.
  rewrite instantiateOriginal_unfold.
  destruct (instantiate_body o _) as [[a|e] h1] eqn:E; intros [= <- <-]; cbn;
    rewrite (quiet_instantiate_body _ _ _ _ E); cbn; rewrite <- app_assoc; reflexivity.
Qed.


End UndoFacts.

(** ** Facts about the lookup of originals *)

Module LookupFacts.
Import Affine Maya Layout Props AffineFacts SceneFacts CmdFacts LocatorFacts.
Local Open Scope cmds_scope.
Implicit Types (p q c k r t : dag) (m : gmap dag Node) (h : Host).

Lemma elem_of_carriers pat m i p :
  p ∈ carriers pat m i <->
  matches pat p = true /\ exists n, m !! p = Some n /\ ident n = Some i.
Proof.
  unfold carriers. rewrite list_elem_of_filter, andb_True, bool_decide_spec. split.
  - intros [[Hm Hi] Hp]. split; [apply Is_true_eq_true; exact Hm|].
    destruct (m !! p) as [n|]; [|discriminate Hi].
    injection Hi as Hi. eauto.
  - intros [Hm (n & Hn & Hi)]. split.
    + split; [rewrite Hm; exact I|]. rewrite Hn. cbn. rewrite Hi. reflexivity.
    + apply list_elem_of_fmap. exists (p, n). split; [reflexivity|].
      apply elem_of_map_to_list. exact Hn.
Qed.

Lemma carriers_nil pat m i :
  carriers pat m i = [] ->
  forall p n, matches pat p = true -> m !! p = Some n -> ident n <> Some i.
Proof.
  intros H p n Hm Hn Hi.
  assert (p ∈ carriers pat m i) as Hin by (apply elem_of_carriers; eauto).
  rewrite H in Hin. apply elem_of_nil in Hin. exact Hin.
Qed.

Lemma NoDup_carriers pat m i : NoDup (carriers pat m i).
Proof. unfold carriers. apply NoDup_filter. apply NoDup_fst_map_to_list. Qed.

Lemma getAttr_Some pl h n v :
  nodes h !! plug_node pl = Some n -> ident n = Some v -> getAttr pl h = (Ok v, h).
Proof. intros Hn Hv. unfold getAttr. rewrite Hn, Hv. reflexivity. Qed.

Lemma findOriginal_loop_None i (l : list plug) h :
  (forall pl, pl ∈ l -> exists n v, nodes h !! plug_node pl = Some n /\ ident n = Some v /\ v <> i) ->
  findOriginal_loop i l h = (Ok None, h).
Proof.
  induction l as [|pl l IH]; intros H; [reflexivity|].
  destruct (H pl) as (n & v & Hn & Hv & Hne); [left|].
  simpl. unfold bind. rewrite (getAttr_Some _ _ _ _ Hn Hv).
  destruct (String.eqb v i) eqn:E.
  - apply String.eqb_eq in E. contradiction.
  - apply IH. intros pl' Hpl'. apply H. right. exact Hpl'.
Qed.

Lemma findOriginal_None i h :
  carriers (ChildOf Originals) (nodes h) i = [] ->
  findOriginal i h = (Ok None, h).
Proof.
  intros H0. pose proof (carriers_nil _ _ _ H0) as H. unfold findOriginal, bind at 1, ls_identifier.
  apply findOriginal_loop_None. intros pl Hpl.
  apply list_elem_of_fmap in Hpl as (p & -> & Hp).
  apply list_elem_of_filter in Hp as [Hp _].
  apply andb_prop_elim in Hp as [Hm Hi]. apply Is_true_eq_true in Hm.
  unfold has_identifier in Hi. cbn [plug_node identifier_of fst].
  destruct (nodes h !! p) as [n|] eqn:Hn; [|contradiction].
  destruct (ident n) as [v|] eqn:Hv; [|contradiction].
  exists n, v. repeat split; try assumption.
  intros ->. apply (H p n Hm Hn). exact Hv.
Qed.

Lemma duplicate_kept p h rs h' k :
  duplicate p h = (Ok rs, h') -> is_Some (nodes h !! k) ->
  kept k (nodes h) (nodes h') /\ exists c, rs = [c] /\ ~ c `suffix_of` k.
Proof.
  intros H Hk. apply duplicate_Ok in H as (n & Hn & H). cbv zeta in H.
  destruct H as [-> ->]. cbn [nodes].
  assert (~ (fresh_name (hd ""%string p) (taken (nodes h) (tail p)) :: tail p) `suffix_of` k) as Hc
    by (apply fresh_name_avoids; exact Hk).
  split; [apply kept_graft; exact Hc|eauto].
Qed.

End LookupFacts.

(** ** Facts about the instantiation *)

Module InstFacts.
Import Affine Maya Layout Props AffineFacts SceneFacts CmdFacts LocatorFacts FrameFacts UndoFacts.
Local Open Scope cmds_scope.
Implicit Types (p q c k r t : dag) (m : gmap dag Node) (h : Host).

Lemma edit_run cmd ok f p h n :
  nodes h !! p = Some n -> ok n = true ->
  edit cmd ok f p h = (Ok tt, with_nodes (<[p := f n]> (nodes h)) h).
Proof. intros Hn Hok. unfold edit. rewrite Hn, Hok. reflexivity. Qed.

Lemma unlockTransform_run p h n :
  nodes h !! p = Some n ->
  unlockTransform p h = (Ok tt, with_nodes (<[p := unlock_node n]> (nodes h)) h).
Proof.
  intros Hn. unfold unlockTransform, lockNode, setAttr_lock.
  unfold bind at 1. rewrite (edit_run _ _ _ _ _ _ Hn eq_refl).
  unfold bind at 1. erewrite edit_run; [|cbn; apply lookup_insert_eq|reflexivity].
  unfold bind at 1. erewrite edit_run; [|cbn; apply lookup_insert_eq|reflexivity].
  erewrite edit_run; [|cbn; apply lookup_insert_eq|reflexivity].
  unfold with_nodes. cbn. rewrite !insert_insert_eq. reflexivity.
Qed.

Lemma unlockTransform_Ok p h u h' :
  unlockTransform p h = (Ok u, h') ->
  exists n, nodes h !! p = Some n /\ h' = with_nodes (<[p := unlock_node n]> (nodes h)) h.
Proof.
  intros H. assert (is_Some (nodes h !! p)) as [n Hn].
  { unfold unlockTransform in H. apply bind_Ok in H as (u1 & h1 & H1 & _).
    apply edit_Ok in H1 as (n & Hn & _). eauto. }
  rewrite (unlockTransform_run _ _ _ Hn) in H. injection H as <- <-. eauto.
Qed.

Lemma unlocked_unlock_node n : unlocked (unlock_node n).
Proof. repeat split. Qed.

Lemma parent_one_run t c h n :
  nodes h !! c = Some n -> lockN n = false ->
  t = [] \/ is_Some (nodes h !! t) -> ~ c `suffix_of` t -> tail c <> t ->
  let c' := fresh_name (hd ""%string c) (taken (nodes h) t) :: t in
  parent_one t c h =
    (Ok c', mkHost (move c c' (with_local (acomp (world (nodes h) c) (ainv (world (nodes h) t))))
                         (nodes h))
                   [c'] (stamp h) (undoLog h)).
Proof.
  intros Hn Hl Ht Hs Htl c'. unfold parent_one. cbv zeta. rewrite Hn, Hl.
  rewrite (bool_decide_eq_false_2 _ Hs), (bool_decide_eq_false_2 _ Htl).
  assert (bool_decide (t = []) || bool_decide (is_Some (nodes h !! t)) = true) as ->.
  { destruct Ht as [Ht|Ht].
    - rewrite (bool_decide_eq_true_2 _ Ht). reflexivity.
    - rewrite (bool_decide_eq_true_2 _ Ht). apply orb_true_r. }
  reflexivity.
Qed.

Lemma ainv_aid : ainv aid = aid.
Proof. apply (bool_decide_eq_true_1 _). vm_compute. reflexivity. Qed.

Lemma lookup_copy p m st r :
  map_imap (fun r v => Some (with_uid (st, r) v)) (sub p m) !! r
  = with_uid (st, r) <$> m !! (app r p).
Proof. rewrite map_lookup_imap, lookup_sub. destruct (m !! _); reflexivity. Qed.


Lemma duplicate_run p h n :
  nodes h !! p = Some n ->
  let c := fresh_name (hd ""%string p) (taken (nodes h) (tail p)) :: tail p in
  duplicate p h = (Ok [c], mkHost (graft c (copy_of (stamp h) p (nodes h)) (nodes h))
                                  [c] (S (stamp h)) (undoLog h)).
Proof. intros Hn c. unfold duplicate. cbv zeta. rewrite Hn. reflexivity. Qed.

Lemma lookup_duplicate_root p m st c n :
  m !! p = Some n -> graft c (copy_of st p m) m !! c = Some (with_uid (st, []) n).
Proof.
  intros Hn. rewrite lookup_graft, strip_self. unfold copy_of.
  rewrite lookup_copy. simpl. rewrite Hn. reflexivity.
Qed.

Lemma not_suffix_longer (x : string) t j : j `suffix_of` t -> ~ (x :: t) `suffix_of` j.
Proof.
  intros H1 H2. apply suffix_length in H1, H2. simpl in H2. lia.
Qed.

(** The run of the [try] block of [instantiateOriginal] on a given node
    that has a parent. *)
Lemma instantiate_body_run o h n :
  nodes h !! o = Some n -> tail o <> [] ->
  let c := fresh_name (hd ""%string o) (taken (nodes h) (tail o)) :: tail o in
  let m1 := graft c (copy_of (stamp h) o (nodes h)) (nodes h) in
  let m2 := <[c := unlock_node (with_uid (stamp h, []) n)]> m1 in
  let i := fresh_name (hd ""%string c) (taken m2 []) in
  instantiate_body (Some o) h
  = (Ok [[i]], mkHost (move c [i] (with_local (world (nodes h) o)) m2) [[i]]
                      (S (stamp h)) (undoLog h)).
Proof.
  intros Hn Ht c m1 m2 i. unfold instantiate_body.
  unfold bind at 1, ret at 1. unfold bind at 1. rewrite (duplicate_run _ _ _ Hn).
  fold c. fold m1. unfold bind at 1. cbn [item0]. unfold ret at 1.
  assert (m1 !! c = Some (with_uid (stamp h, []) n)) as Hc
    by (apply lookup_duplicate_root; exact Hn).
  unfold bind at 1. erewrite unlockTransform_run; [|exact Hc].
  cbn [with_nodes nodes selection stamp undoLog]. fold m2.
  unfold parent. cbn [each]. unfold bind at 1.
  erewrite parent_one_run.
  - cbn [nodes selection stamp undoLog]. unfold bind at 1, ret at 1. unfold ret.
    unfold with_nodes. cbn [nodes selection stamp undoLog]. fold i.
    change (world m2 []) with aid. rewrite ainv_aid, acomp_id_r.
    assert (world m2 c = world (nodes h) o) as ->; [|reflexivity].
    destruct o as [|x t]; [contradiction|]. cbn [tail] in *. unfold c at 1.
    rewrite !world_cons. f_equal.
    + unfold loc. fold c. unfold m2. rewrite lookup_insert_eq, Hn. reflexivity.
    + apply kept_world. unfold m2, m1. eapply kept_trans.
      * apply kept_graft. apply not_suffix_longer. reflexivity.
      * apply kept_insert. apply not_suffix_longer. reflexivity.
  - cbn [nodes]. unfold m2. apply lookup_insert_eq.
  - reflexivity.
  - left. reflexivity.
  - intros Hs. apply suffix_nil_inv in Hs. discriminate Hs.
  - exact Ht.
Qed.


Lemma edit_Raise cmd ok f p h e h' :
  edit cmd ok f p h = (Raise e, h') -> e = HostError cmd.
Proof.
  unfold edit. destruct (nodes h !! p) as [n|]; [destruct (ok n)|]; intros [= <- <-];
    reflexivity.
Qed.

Lemma instantiate_body_Raise o h e h' :
  instantiate_body (Some o) h = (Raise e, h') -> forall msg, e <> CmdsError msg.
Proof.
  intros H msg. unfold instantiate_body in H.
  apply bind_Raise in H as [H|(o' & h1 & _ & H)]; [discriminate H|].
  apply bind_Raise in H as [H|(dup & h2 & _ & H)].
  { unfold duplicate in H. cbv zeta in H.
    destruct (nodes h1 !! o'); [discriminate H|injection H as <- <-; discriminate]. }
  apply bind_Raise in H as [H|(copy & h3 & _ & H)].
  { destruct dup; [injection H as <- <-; discriminate|discriminate H]. }
  apply bind_Raise in H as [H|(u & h4 & _ & H)].
  { unfold unlockTransform, lockNode, setAttr_lock in H.
    repeat (apply bind_Raise in H as [H|(? & ? & _ & H)];
            [apply edit_Raise in H; subst e; discriminate|]).
    apply edit_Raise in H. subst e. discriminate. }
  unfold parent in H. cbn [each] in H.
  apply bind_Raise in H as [H|(c' & h5 & _ & H)].
  { unfold parent_one in H. cbv zeta in H.
    destruct (nodes h4 !! copy) as [n|]; [|injection H as <- <-; discriminate].
    destruct (_ || _) in H; [injection H as <- <-; discriminate|discriminate H]. }
  apply bind_Raise in H as [H|(bs & h6 & _ & H)]; discriminate H.
Qed.

Lemma instantiate_body_selection o h sel :
  let hs := mkHost (nodes h) sel (stamp h) (undoLog h) in
  fst (instantiate_body (Some o) hs) = fst (instantiate_body (Some o) h) /\
  nodes (snd (instantiate_body (Some o) hs)) = nodes (snd (instantiate_body (Some o) h)) /\
  undoLog (snd (instantiate_body (Some o) hs)) = undoLog (snd (instantiate_body (Some o) h)).
Proof.
  intros hs.
  assert (exists K : list dag -> M (list dag),
             forall x, instantiate_body (Some o) x = bind (duplicate o) K x) as [K HK].
  { eexists. intros x. unfold instantiate_body. unfold bind at 1, ret at 1. reflexivity. }
  rewrite !HK. unfold bind, duplicate. cbv zeta. unfold hs. cbn [nodes stamp undoLog].
  destruct (nodes h !! o) as [n|]; auto.
Qed.

Lemma instantiateOriginal_run o h n :
  nodes h !! o = Some n -> tail o <> [] ->
  let c := fresh_name (hd ""%string o) (taken (nodes h) (tail o)) :: tail o in
  let m1 := graft c (copy_of (stamp h) o (nodes h)) (nodes h) in
  let m2 := <[c := unlock_node (with_uid (stamp h, []) n)]> m1 in
  let i := fresh_name (hd ""%string c) (taken m2 []) in
  instantiateOriginal (Some o) h
  = (Ok [[i]], mkHost (move c [i] (with_local (world (nodes h) o)) m2) [[i]]
                      (S (stamp h)) (undoLog h ++ [OpenChunk; CloseChunk])).
Proof.
  intros Hn Ht c m1 m2 i. rewrite instantiateOriginal_unfold.
  pose proof (instantiate_body_run o (mkHost (nodes h) (selection h) (stamp h)
                                             (undoLog h ++ [OpenChunk])) n Hn Ht) as E.
  cbv zeta in E. cbn [nodes stamp undoLog] in E. rewrite E.
  cbn [nodes stamp undoLog selection]. rewrite <- app_assoc. reflexivity.
Qed.

(** The host refuses to move to the world a node that is right under it. *)
Lemma parent_one_world_refused (x : string) h n :
  nodes h !! [x] = Some n -> parent_one [] [x] h = (Raise (HostError "parent"), h).
Proof.
  intros Hn. unfold parent_one. cbv zeta. rewrite Hn. cbn [tail].
  rewrite (bool_decide_eq_true_2 ([] = []) eq_refl), !orb_true_r. reflexivity.
Qed.

(** The run of the [try] block of [instantiateOriginal] on a given node
    that is right under the world. *)
Lemma instantiate_body_root (x : string) h n :
  nodes h !! [x] = Some n ->
  let c := [fresh_name x (taken (nodes h) [])] in
  let m1 := graft c (copy_of (stamp h) [x] (nodes h)) (nodes h) in
  let m2 := <[c := unlock_node (with_uid (stamp h, []) n)]> m1 in
  instantiate_body (Some [x]) h
  = (Raise (HostError "parent"), mkHost m2 [c] (S (stamp h)) (undoLog h)).
Proof.
  intros Hn c m1 m2. unfold instantiate_body.
  unfold bind at 1, ret at 1. unfold bind at 1. rewrite (duplicate_run _ _ _ Hn).
  cbn [hd tail]. fold c. fold m1. unfold bind at 1. cbn [item0]. unfold ret at 1.
  assert (m1 !! c = Some (with_uid (stamp h, []) n)) as Hc
    by (apply lookup_duplicate_root; exact Hn).
  unfold bind at 1. erewrite unlockTransform_run; [|exact Hc].
  cbn [with_nodes nodes selection stamp undoLog]. fold m2.
  unfold parent. cbn [each]. unfold bind at 1.
  unfold c at 1. erewrite parent_one_world_refused; [reflexivity|].
  cbn [nodes]. unfold m2. apply lookup_insert_eq.
Qed.

Lemma instantiateOriginal_root (x : string) h n :
  nodes h !! [x] = Some n ->
  exists h', instantiateOriginal (Some [x]) h = (Raise (HostError "parent"), h') /\
             undoLog h' = undoLog h ++ [OpenChunk; CloseChunk; Undo].
Proof.
  intros Hn. rewrite instantiateOriginal_unfold.
  pose proof (instantiate_body_root x (mkHost (nodes h) (selection h) (stamp h)
                                              (undoLog h ++ [OpenChunk])) n Hn) as E.
  cbv zeta in E. cbn [nodes stamp undoLog] in E. rewrite E.
  eexists. split; [reflexivity|]. cbn [undoLog]. rewrite <- app_assoc. reflexivity.
Qed.

End InstFacts.

(** ** Facts about subtrees: grafting, pruning, replacing *)

Module TreeFacts.
Import Affine Maya Layout Props AffineFacts SceneFacts CmdFacts LocatorFacts FrameFacts UndoFacts
  LookupFacts InstFacts.
Local Open Scope cmds_scope.
Implicit Types (p q c k r : dag) (m t : gmap dag Node) (h : Host).

Lemma clear_app c m r : clear c m -> m !! app r c = None.
Proof. intros H. apply H. apply suffix_app_r. reflexivity. Qed.

Lemma clear_self c m : clear c m -> m !! c = None.
Proof. intros H. apply H. reflexivity. Qed.

Lemma fresh_name_clear m q base : clear (fresh_name base (taken m q) :: q) m.
Proof.
  intros k Hk. destruct (m !! k) eqn:E; [|reflexivity].
  exfalso. eapply fresh_name_avoids; [|exact Hk]. eauto.
Qed.

Lemma clear_avoids c m k : clear c m -> is_Some (m !! k) -> ~ c `suffix_of` k.
Proof. intros H [n Hn] Hs. rewrite (H k Hs) in Hn. discriminate. Qed.

Lemma clear_prune c p m : clear c m -> clear c (prune p m).
Proof. intros H k Hk. rewrite lookup_prune. case_decide; [reflexivity|]. apply H, Hk. Qed.

Lemma clear_prune_self p m : clear p (prune p m).
Proof. intros k Hk. rewrite lookup_prune. rewrite decide_True by exact Hk. reflexivity. Qed.

Lemma insert_eq_alter m k (n : Node) f : m !! k = Some n -> <[k := f n]> m = alter f k m.
Proof.
  intros H. apply map_eq. intros j. rewrite lookup_alter.
  destruct (decide (k = j)) as [->|Hne].
  - rewrite lookup_insert_eq, H. reflexivity.
  - rewrite lookup_insert_ne by exact Hne. reflexivity.
Qed.

Lemma alter_graft_root c t m f :
  m !! c = None -> alter f c (graft c t m) = graft c (alter f [] t) m.
Proof.
  intros H. apply map_eq. intros k. rewrite lookup_alter, !lookup_graft.
  destruct (decide (c = k)) as [<-|Hne].
  - rewrite strip_self, lookup_alter. simpl. rewrite H.
    destruct (t !! []); reflexivity.
  - destruct (strip c k) as [r|] eqn:Hs; [|reflexivity].
    apply strip_Some in Hs. subst k. rewrite lookup_alter.
    rewrite decide_False; [reflexivity|].
    intros <-. apply Hne. reflexivity.
Qed.

Lemma sub_graft c t m : clear c m -> sub c (graft c t m) = t.
Proof.
  intros H. apply map_eq. intros r. rewrite lookup_sub, lookup_graft, strip_app.
  rewrite (clear_app _ _ _ H). destruct (t !! r); reflexivity.
Qed.

Lemma prune_graft_self c t m : clear c m -> prune c (graft c t m) = m.
Proof.
  intros H. apply map_eq. intros k. rewrite lookup_prune. case_decide as Hs.
  - symmetry. apply H, Hs.
  - rewrite lookup_graft. apply strip_None in Hs. rewrite Hs. reflexivity.
Qed.

Lemma move_graft c c' f t m :
  clear c m -> move c c' f (graft c t m) = graft c' (alter f [] t) m.
Proof. intros H. unfold move. rewrite (sub_graft _ _ _ H), (prune_graft_self _ _ _ H). reflexivity. Qed.

Lemma prune_graft p c t m :
  ~ p `suffix_of` c -> ~ c `suffix_of` p -> prune p (graft c t m) = graft c t (prune p m).
Proof.
  intros H1 H2. apply map_eq. intros k. rewrite lookup_prune, !lookup_graft, lookup_prune.
  destruct (strip c k) as [r|] eqn:Hs.
  - apply strip_Some in Hs. subst k.
    destruct (decide (p `suffix_of` app r c)) as [Hp|_]; [exfalso|reflexivity].
    destruct (suffix_weak_total p c (app r c)) as [?|?]; auto.
    apply suffix_app_r. reflexivity.
  - reflexivity.
Qed.

Lemma lookup_replace_at p t m k :
  replace_at p t m !! k = match strip p k with Some r => t !! r | None => m !! k end.
Proof.
  unfold replace_at. rewrite lookup_graft. destruct (strip p k) as [r|] eqn:Hs.
  - apply strip_Some in Hs. subst k. rewrite lookup_prune.
    rewrite decide_True by (apply suffix_app_r; reflexivity).
    destruct (t !! r); reflexivity.
  - apply strip_None in Hs. rewrite lookup_prune, decide_False by exact Hs. reflexivity.
Qed.

Lemma kept_replace_at p t m k : ~ p `suffix_of` k -> kept k m (replace_at p t m).
Proof.
  intros H j Hj. rewrite lookup_replace_at.
  assert (strip p j = None) as ->; [|reflexivity].
  apply strip_None. intros Hp. apply H. etrans; eassumption.
Qed.

Lemma alter_twice m k (f g : Node -> Node) : alter g k (alter f k m) = alter (g ∘ f) k m.
Proof. apply alter_alter_eq. Qed.


Lemma clear_graft_inv c q t m : clear c (graft q t m) -> clear c m.
Proof.
  intros H k Hk. specialize (H k Hk). rewrite lookup_graft in H.
  destruct (strip q k); [|exact H]. destruct (t !! _); [discriminate H|exact H].
Qed.

Lemma clear_insert_inv c k (v : Node) m : clear c (<[k := v]> m) -> clear c m.
Proof.
  intros H j Hj. specialize (H j Hj). destruct (decide (k = j)) as [->|Hne].
  - rewrite lookup_insert_eq in H. discriminate H.
  - rewrite lookup_insert_ne in H by exact Hne. exact H.
Qed.

Lemma lookup_copy_root st o m n : m !! o = Some n -> copy_of st o m !! [] = Some (with_uid (st, []) n).
Proof. intros H. unfold copy_of. rewrite lookup_copy. simpl. rewrite H. reflexivity. Qed.

(** [instantiateOriginal] on a given node: the scene gains, under a free
    name at the top, a copy of the node's subtree whose root is unlocked and
    has the node's world transform as its local one. *)
Lemma instantiateOriginal_Ok o h cs h' :
  instantiateOriginal (Some o) h = (Ok cs, h') ->
  exists n i, nodes h !! o = Some n /\ tail o <> [] /\ cs = [[i]] /\
              clear [i] (nodes h) /\
              nodes h' = graft [i] (alter (with_local (world (nodes h) o) ∘ unlock_node) []
                                         (copy_of (stamp h) o (nodes h)))
                               (nodes h) /\
              stamp h' = S (stamp h).
Proof.
  intros H.
  assert (exists n, nodes h !! o = Some n /\ tail o <> []) as (n & Hn & Ht).
  { rewrite instantiateOriginal_unfold in H.
    destruct (instantiate_body (Some o) _) as [[a|e] h1] eqn:E; [|discriminate H].
    unfold instantiate_body in E.
    apply bind_Ok in E as (o' & h2 & E1 & E). apply ret_Ok in E1 as [-> ->].
    apply bind_Ok in E as (dup & h3 & E1 & E).
    apply duplicate_Ok in E1 as (n & Hn & E1). cbv zeta in E1. destruct E1 as [-> ->].
    apply bind_Ok in E as (copy & h4 & E1 & E). apply item0_Ok in E1 as [-> E1].
    destruct E1 as [l' [= <- <-]].
    apply bind_Ok in E as (u & h5 & E1 & E).
    eapply parent_Ok in E as (c' & -> & E); [|reflexivity].
    apply parent_one_Ok in E as (n' & _ & _ & _ & _ & Htl & _).
    exists n. split; [exact Hn|]. exact Htl. }
  rewrite (instantiateOriginal_run o h n Hn Ht) in H. injection H as <- <-.
  set (c := fresh_name (hd ""%string o) (taken (nodes h) (tail o)) :: tail o).
  set (T0 := copy_of (stamp h) o (nodes h)).
  set (m2 := <[c := unlock_node (with_uid (stamp h, []) n)]> (graft c T0 (nodes h))).
  set (i := fresh_name (hd ""%string c) (taken m2 [])).
  assert (clear c (nodes h)) as Cc by apply fresh_name_clear.
  assert (clear [i] m2) as Ci by apply fresh_name_clear.
  exists n, i. split; [exact Hn|]. split; [exact Ht|]. split; [reflexivity|].
  split; [eapply clear_graft_inv, clear_insert_inv; exact Ci|].
  split; [|reflexivity]. cbn [nodes].
  assert (m2 = graft c (alter unlock_node [] T0) (nodes h)) as ->.
  { unfold m2. rewrite (insert_eq_alter _ _ (with_uid (stamp h, []) n)).
    - apply alter_graft_root. apply clear_self, Cc.
    - apply lookup_duplicate_root. exact Hn. }
  rewrite (move_graft _ _ _ _ _ Cc), alter_twice. reflexivity.
Qed.


Lemma getAttr_Ok pl h v h' :
  getAttr pl h = (Ok v, h') ->
  h' = h /\ exists n, nodes h !! plug_node pl = Some n /\ ident n = Some v.
Proof.
  unfold getAttr. destruct (nodes h !! plug_node pl) as [n|]; [|discriminate].
  destruct (ident n) as [v'|] eqn:E; [|discriminate]. intros [= <- <-]. eauto.
Qed.

Lemma xform_set_matrix_Ok p l h u h' :
  xform_set_matrix [p] l h = (Ok u, h') ->
  exists a n, of_list16 l = Some a /\ nodes h !! p = Some n /\
    h' = with_nodes (<[p := with_local (acomp a (ainv (world (nodes h) (tail p)))) n]> (nodes h)) h.
Proof.
  unfold xform_set_matrix. cbn [each]. intros H.
  apply bind_Ok in H as (us & h1 & H & Hr). apply ret_Ok in Hr as [_ ->].
  apply bind_Ok in H as (u1 & h2 & H & Hr).
  apply bind_Ok in Hr as (bs & h3 & Hr1 & Hr2).
  apply ret_Ok in Hr1 as [-> ->]. apply ret_Ok in Hr2 as [_ ->].
  unfold xform_set_one in H. destruct (of_list16 l) as [a|]; [|discriminate H].
  apply edit_Ok in H as (n & Hn & _ & ->). eauto.
Qed.

Lemma with_local_twice a b n : with_local a (with_local b n) = with_local a n.
Proof. reflexivity. Qed.

Lemma not_suffix_tail p : p <> [] -> ~ p `suffix_of` tail p.
Proof.
  intros Hp Hs. destruct p as [|x p]; [contradiction|]. simpl in Hs.
  apply suffix_cons_not in Hs. exact Hs.
Qed.

Lemma suffix_tail_cons p k : p <> [] -> p `suffix_of` k -> (hd ""%string p :: tail p) `suffix_of` k.
Proof. intros Hp. destruct p; [contradiction|]. simpl. auto. Qed.

Lemma name_free_after_prune p m : p <> [] -> hd ""%string p ∉ taken (prune p m) (tail p).
Proof.
  intros Hp Hin. apply elem_of_taken in Hin as (k & [n Hk] & Hs).
  rewrite lookup_prune in Hk. rewrite decide_True in Hk; [discriminate Hk|].
  destruct p; [contradiction|]. exact Hs.
Qed.

Lemma kept_sampled m m' p :
  p <> [] ->
  (forall L : string, kept (L :: p) m m') -> sampled m' p = sampled m p.
Proof.
  intros Hp H. unfold sampled. rewrite !(kept_world _ _ _ (H _)). reflexivity.
Qed.

Lemma kept_has_locators m m' p :
  (forall L : string, kept (L :: p) m m') -> has_locators m' p -> has_locators m p.
Proof.
  intros H (HX & HY & HZ & HO). unfold has_locators.
  rewrite <- !(kept_lookup _ _ _ (H _)). auto.
Qed.

End TreeFacts.

(** ** Facts about the loop over the instances *)

Module LoopFacts.
Import Affine Maya Layout Props AffineFacts SceneFacts CmdFacts LocatorFacts FrameFacts UndoFacts
  LookupFacts InstFacts TreeFacts.
Local Open Scope cmds_scope.
Implicit Types (p q c k r : dag) (m t : gmap dag Node) (h : Host).

(** One round of the loop of [updateInstances]: the plug is passed over, or
    the subtree at its node is replaced by a fresh instance. *)
Lemma updateInstance_Ok new i pl h u h' :
  updateInstance new i pl h = (Ok u, h') ->
  let p := plug_node pl in
  (h' = h /\ (startswith_Originals p = true \/
              exists n v, nodes h !! p = Some n /\ ident n = Some v /\ v <> i))
  \/ (startswith_Originals p = false /\ p <> [] /\
      (exists n, nodes h !! p = Some n /\ ident n = Some i) /\
      is_Some (nodes h !! new) /\ has_locators (nodes h) p /\
      nodes h' = replace_at p (fresh_instance (stamp h) new p (nodes h)) (nodes h) /\
      stamp h' = S (stamp h)).
Proof.
  intros H p. unfold updateInstance in H. fold p in H.
  destruct (startswith_Originals p) eqn:Hsw.
  { apply ret_Ok in H as [_ ->]. left. auto. }
  apply bind_Ok in H as (v & h1 & Hg & H).
  apply getAttr_Ok in Hg as (-> & n & Hn & Hv). fold p in Hn.
  destruct (String.eqb v i) eqn:Hvi; cbn [negb] in H.
  2:{ apply ret_Ok in H as [_ ->]. left. split; [reflexivity|]. right.
      exists n, v. repeat split; try assumption.
      intros ->. rewrite String.eqb_refl in Hvi. discriminate Hvi. }
  apply String.eqb_eq in Hvi. subst v.
  right. split; [reflexivity|].
  set (m := nodes h) in *. set (st := stamp h) in *.
  apply bind_Ok in H as (copy & h3 & H3 & H).
  apply instantiateOriginal_Ok in H3 as (nn & ii & Hnew & Htn & -> & Cii & E3 & S3).
  fold m in Hnew, Cii, E3. fold st in E3, S3.
  set (T0 := copy_of st new m) in *.
  set (F1 := with_local (world m new) ∘ unlock_node) in *.
  apply bind_Ok in H as (matrix & h4 & H4 & H).
  apply matrixFromLocators_Ok in H4 as (Hloc3 & -> & ->).
  apply bind_Ok in H as (u5 & h5 & H5 & H).
  apply xform_set_matrix_Ok in H5 as (A & n3 & HA & Hn3 & ->).
  rewrite of_rows_with_zero in HA. injection HA as <-.
  cbn [tail world] in *. rewrite ainv_aid, acomp_id_r in *.
  apply bind_Ok in H as (u6 & h6 & H6 & H).
  apply delete_Ok in H6 as (np & Hnp & _ & ->).
  apply bind_Ok in H as (copy & h7 & H7 & H).
  apply bind_Ok in H as (c' & h8 & H8 & H).
  apply ret_Ok in H as [_ ->].
  unfold with_nodes in *. cbn [nodes selection stamp undoLog] in *.
  rewrite E3 in *. clear E3.
  (* the scene after the pose has been given to the copy *)
  assert (graft [ii] (alter F1 [] T0) m !! [ii] = Some n3) as Hn3' by exact Hn3.
  rewrite (insert_eq_alter _ _ n3 (with_local (sampled (graft [ii] (alter F1 [] T0) m) p)) Hn3) in *.
  rewrite (alter_graft_root _ _ _ _ (clear_self _ _ Cii)), alter_twice in *.
  set (Sp := sampled (graft [ii] (alter F1 [] T0) m) p) in *.
  set (T5 := alter (with_local Sp ∘ F1) [] T0) in *.
  assert (~ [ii] `suffix_of` p) as Nip by (apply (clear_avoids _ _ _ Cii); eauto).
  assert (exists c3 M7,
            rename [c3] (hd ""%string p) (mkHost M7 (selection h7) (stamp h7) (undoLog h7))
            = (Ok c', h8) /\ stamp h7 = stamp h3 /\ tail c3 = tail p /\
            ~ p `suffix_of` [ii] /\ clear c3 (prune p m) /\
            M7 = graft c3 (alter (with_local (acomp Sp (ainv (world m (tail p)))) ∘ (with_local Sp ∘ F1)) [] T0)
                       (prune p m))
    as (c3 & M7 & H9 & S7 & Ht3 & Npi & C3 & E7).
  { destruct (tail p) as [|x t'] eqn:Htp.
    - apply ret_Ok in H7 as [-> ->]. cbn [selection stamp undoLog].
      pose proof H8 as H8'. apply rename_Ok in H8' as (c & n8 & [= <-] & Hn8 & _).
      cbn [nodes] in Hn8. rewrite lookup_prune in Hn8.
      destruct (decide (p `suffix_of` [ii])) as [|Npi]; [discriminate Hn8|].
      exists [ii], (prune p (graft [ii] T5 m)).
      split; [exact H8|]. split; [reflexivity|]. split; [reflexivity|].
      split; [exact Npi|]. split; [apply clear_prune, Cii|].
      rewrite (prune_graft _ _ _ _ Npi Nip). f_equal. unfold T5.
      change (world m []) with aid. rewrite ainv_aid, acomp_id_r.
      apply alter_ext. intros y _. reflexivity.
    - eapply parent_Ok in H7 as (c3 & -> & H7); [|reflexivity].
      apply parent_one_Ok in H7 as (n7 & Hn7 & _ & _ & _ & _ & E3 & ->).
      cbn [nodes selection stamp undoLog] in *.
      rewrite lookup_prune in Hn7.
      destruct (decide (p `suffix_of` [ii])) as [|Npi]; [discriminate Hn7|].
      rewrite (prune_graft _ _ _ _ Npi Nip) in *.
      assert (clear [ii] (prune p m)) as Cii' by (apply clear_prune, Cii).
      assert (p <> []) as Hp by (intros E; rewrite E in Htp; discriminate Htp).
      assert (clear c3 (prune p m)) as C3.
      { rewrite E3. eapply clear_graft_inv. apply fresh_name_clear. }
      exists c3, (move [ii] c3
                   (with_local (acomp (world (graft [ii] T5 (prune p m)) [ii])
                                      (ainv (world (graft [ii] T5 (prune p m)) (x :: t')))))
                   (graft [ii] T5 (prune p m))).
      split; [exact H8|]. split; [reflexivity|]. split; [rewrite E3; reflexivity|].
      split; [exact Npi|]. split; [exact C3|].
      assert (world (graft [ii] T5 (prune p m)) [ii] = Sp) as ->.
      { rewrite world_cons. unfold loc. rewrite lookup_graft, strip_self.
        unfold T5. rewrite lookup_alter. cbn [world].
        rewrite decide_True by reflexivity.
        unfold T0. rewrite (lookup_copy_root _ _ _ _ Hnew). cbn. apply acomp_id_r. }
      assert (world (graft [ii] T5 (prune p m)) (x :: t') = world m (x :: t')) as ->.
      { rewrite <- Htp. apply kept_world.
        eapply kept_trans; [apply kept_prune|apply kept_graft].
        * apply not_suffix_tail, Hp.
        * intros Hs. apply Nip. etrans; [exact Hs|].
          destruct p; [contradiction|]. apply suffix_cons_r. reflexivity. }
      rewrite (move_graft _ _ _ _ _ Cii'). unfold T5. rewrite alter_twice. reflexivity. }
  assert (p <> []) as Hp.
  { intros E. apply Npi. rewrite E. apply suffix_nil. }
  assert (forall L : string, kept (L :: p) m (graft [ii] (alter F1 [] T0) m)) as K3.
  { intros L. apply kept_graft. intros Hs.
    apply suffix_cons_inv in Hs as [[= _ E]|Hs]; [|exact (Nip Hs)].
    apply Hp. symmetry. exact E. }
  assert (Sp = sampled m p) as ESp by (apply kept_sampled; [exact Hp|exact K3]).
  apply rename_Ok in H9 as (c & n9 & [= <-] & _ & _ & E9 & E8 & S8 & _).
  cbn [nodes stamp] in *.
  rewrite E7 in E9, E8. rewrite (prune_graft_self _ _ _ C3), Ht3 in E9.
  rewrite (fresh_name_free _ _ (name_free_after_prune p m Hp)) in E9.
  assert (c' = p) as -> by (rewrite E9; destruct p; [contradiction|reflexivity]).
  split; [exact Hp|]. split; [eauto|]. split; [eauto|].
  split; [exact (kept_has_locators _ _ _ K3 Hloc3)|].
  split; [|congruence].
  rewrite E8, (move_graft _ _ _ _ _ C3), alter_twice. unfold replace_at, fresh_instance.
  f_equal. rewrite ESp. apply alter_ext. intros y _. reflexivity.
Qed.

Lemma for_each_kept new i k l : forall h h',
  for_each l (updateInstance new i) h = (Ok tt, h') ->
  (forall pl, pl ∈ l -> plug_node pl `suffix_of` k ->
     startswith_Originals (plug_node pl) = true \/
     forall n, nodes h !! plug_node pl = Some n -> ident n <> Some i) ->
  kept k (nodes h) (nodes h').
Proof.
  induction l as [|pl l IH]; intros h h' H Hl.
  - apply ret_Ok in H as [_ ->]. apply kept_refl.
  - simpl in H. apply bind_Ok in H as (u & h1 & H1 & H).
    apply updateInstance_Ok in H1. cbv zeta in H1.
    destruct H1 as [[-> _]|(Hs & Hp & (n & Hn & Hi) & _ & _ & E & _)].
    + apply IH; [exact H|]. intros pl' Hin. apply Hl. right. exact Hin.
    + assert (~ plug_node pl `suffix_of` k) as Hk.
      { intros Hk. destruct (Hl pl (list_elem_of_here _ _) Hk) as [Ht|Ht].
        - congruence.
        - exact (Ht n Hn Hi). }
      assert (kept k (nodes h) (nodes h1)) as K
        by (rewrite E; apply kept_replace_at; exact Hk).
      eapply kept_trans; [exact K|]. apply IH; [exact H|].
      intros pl' Hin Hsuf.
      destruct (Hl pl' (list_elem_of_further _ _ _ Hin) Hsuf) as [Ht|Ht]; [left; exact Ht|].
      right. intros n'. rewrite (K _ Hsuf). apply Ht.
Qed.

Lemma updateInstances_kept new i k h h' :
  updateInstances new i h = (Ok tt, h') ->
  (forall p n, p `suffix_of` k -> nodes h !! p = Some n -> ident n = Some i ->
               startswith_Originals p = true) ->
  kept k (nodes h) (nodes h').
Proof.
  intros H Hk. unfold updateInstances in H.
  apply bind_Ok in H as (l & h1 & H1 & H). injection H1 as <- <-.
  eapply for_each_kept; [exact H|].
  intros pl _ Hs.
  destruct (startswith_Originals (plug_node pl)) eqn:E; [left; reflexivity|right].
  intros n Hn Hi. specialize (Hk _ _ Hs Hn Hi). congruence.
Qed.

End LoopFacts.

(** ** Facts about the first phase of the update *)

Module PhaseFacts.
Import Affine Maya Layout Props AffineFacts SceneFacts CmdFacts LocatorFacts FrameFacts UndoFacts
  LookupFacts InstFacts TreeFacts LoopFacts.
Local Open Scope cmds_scope.
Implicit Types (p q c k r t s old : dag) (m : gmap dag Node) (h : Host) (st : nat) (a : affine) (n : Node) (L : string) (f : Node -> Node).

Lemma sub_graft_other c s (t : gmap dag Node) m :
  ~ c `suffix_of` s -> ~ s `suffix_of` c -> sub s (graft c t m) = sub s m.
Proof.
  intros H1 H2. apply map_eq. intros r. rewrite !lookup_sub, lookup_graft.
  assert (strip c (app r s) = None) as ->; [|reflexivity].
  apply strip_None. intros Hc.
  destruct (suffix_weak_total c s (app r s) Hc (suffix_app_r _ _ _ (reflexivity _))); contradiction.
Qed.

Lemma graft_graft r c (tt t : gmap dag Node) m :
  graft (app r c) tt (graft c t m) = graft c (graft r tt t) m.
Proof.
  apply map_eq. intros k. rewrite !lookup_graft.
  destruct (strip (app r c) k) as [r'|] eqn:E.
  - apply strip_Some in E. subst k. rewrite app_assoc, strip_app, lookup_graft, strip_app.
    destruct (tt !! r'); [reflexivity|]. reflexivity.
  - destruct (strip c k) as [r''|] eqn:E'; [|reflexivity].
    rewrite lookup_graft.
    assert (strip r r'' = None) as ->; [|reflexivity].
    apply strip_None. intros [x ->]. apply strip_Some in E'. subst k.
    apply strip_None in E. apply E. rewrite <- app_assoc. apply suffix_app_r. reflexivity.
Qed.

Lemma move_into_graft s (x : string) c (f : Node -> Node) (t : gmap dag Node) m :
  ~ c `suffix_of` s -> ~ s `suffix_of` c ->
  move s (x :: c) f (graft c t m)
  = graft c (graft [x] (alter f [] (sub s m)) t) (prune s m).
Proof.
  intros H1 H2. unfold move. rewrite (sub_graft_other _ _ _ _ H1 H2), (prune_graft _ _ _ _ H2 H1).
  apply (graft_graft [x]).
Qed.

Lemma prune_prune_below p q m : p `suffix_of` q -> prune p (prune q m) = prune p m.
Proof.
  intros H. apply map_eq. intros k. rewrite !lookup_prune.
  destruct (decide (p `suffix_of` k)) as [|N]; [reflexivity|].
  rewrite decide_False; [reflexivity|]. intros Hq. apply N. etrans; eassumption.
Qed.

Lemma prune_insert_below p k (v : Node) m : p `suffix_of` k -> prune p (<[k := v]> m) = prune p m.
Proof.
  intros H. apply map_eq. intros j. rewrite !lookup_prune.
  destruct (decide (p `suffix_of` j)) as [|N]; [reflexivity|].
  apply lookup_insert_ne. intros ->. contradiction.
Qed.

Lemma lockTransform_Ok p h u h' :
  lockTransform p h = (Ok u, h') ->
  exists n, nodes h !! p = Some n /\ lockN n = false /\
            h' = with_nodes (<[p := lock_node n]> (nodes h)) h.
Proof.
  intros H. unfold lockTransform, setAttr_lock, lockNode in H.
  apply bind_Ok in H as (u1 & h1 & H1 & H). apply edit_Ok in H1 as (n & Hn & L & ->).
  apply bind_Ok in H as (u2 & h2 & H2 & H). apply edit_Ok in H2 as (n2 & Hn2 & _ & ->).
  apply bind_Ok in H as (u3 & h3 & H3 & H). apply edit_Ok in H3 as (n3 & Hn3 & _ & ->).
  apply edit_Ok in H as (n4 & Hn4 & _ & ->).
  cbn [nodes with_nodes] in *.
  rewrite lookup_insert_eq in Hn2. injection Hn2 as <-.
  rewrite lookup_insert_eq in Hn3. injection Hn3 as <-.
  rewrite lookup_insert_eq in Hn4. injection Hn4 as <-.
  exists n. split; [exact Hn|]. split; [destruct (lockN n); [discriminate|reflexivity]|].
  unfold with_nodes. cbn. rewrite !insert_insert_eq. reflexivity.
Qed.

Lemma locked_lock_node n : locked (lock_node n).
Proof. repeat split. Qed.

Lemma addIdentifier_Ok p i h u h' :
  addIdentifier p i h = (Ok u, h') ->
  exists n, nodes h !! p = Some n /\ lockN n = false /\
            h' = with_nodes (<[p := with_ident (Some i) n]> (nodes h)) h.
Proof.
  intros H. unfold addIdentifier in H.
  apply bind_Ok in H as (e & h0 & H0 & H). injection H0 as <- <-.
  apply bind_Ok in H as (u1 & h1 & H1 & H).
  apply bind_Ok in H as (u2 & h2 & H2 & H).
  apply edit_Ok in H2 as (n2 & Hn2 & L2 & ->).
  apply edit_Ok in H as (n3 & Hn3 & _ & ->).
  cbn [nodes with_nodes] in *.
  rewrite lookup_insert_eq in Hn3. injection Hn3 as <-.
  apply andb_prop in L2 as [L2 _]. apply negb_true_iff in L2.
  destruct (has_identifier (nodes h) p) eqn:E.
  - unfold deleteAttr_identifier in H1. apply edit_Ok in H1 as (n & Hn & _ & ->).
    cbn [nodes with_nodes] in *. rewrite lookup_insert_eq in Hn2. injection Hn2 as <-.
    exists n. split; [exact Hn|]. split; [exact L2|].
    unfold with_nodes. cbn. rewrite !insert_insert_eq. reflexivity.
  - apply ret_Ok in H1 as [_ ->]. exists n2. split; [exact Hn2|]. split; [exact L2|].
    unfold with_nodes. cbn. rewrite !insert_insert_eq. reflexivity.
Qed.

Lemma findOriginal_loop_Some i (l : list plug) : forall h old h',
  findOriginal_loop i l h = (Ok (Some old), h') ->
  h' = h /\ (exists pl, pl ∈ l /\ old = plug_node pl) /\
  exists n, nodes h !! old = Some n /\ ident n = Some i.
Proof.
  induction l as [|pl l IH]; intros h old h' H; [discriminate H|].
  simpl in H. apply bind_Ok in H as (v & h1 & H1 & H).
  apply getAttr_Ok in H1 as (-> & n & Hn & Hv).
  destruct (String.eqb v i) eqn:E.
  - apply String.eqb_eq in E. subst v. injection H as <- <-.
    split; [reflexivity|]. split; [|eauto]. exists pl. split; [left|reflexivity].
  - apply IH in H as (-> & (pl' & Hin & ->) & Hn'). split; [reflexivity|].
    split; [|exact Hn']. exists pl'. split; [right; exact Hin|reflexivity].
Qed.

Lemma findOriginal_Some i h old h' :
  findOriginal i h = (Ok (Some old), h') ->
  h' = h /\ (exists o : string, old = o :: Originals) /\
  exists n, nodes h !! old = Some n /\ ident n = Some i.
Proof.
  intros H. unfold findOriginal in H. apply bind_Ok in H as (l & h1 & H1 & H).
  injection H1 as <- <-.
  apply findOriginal_loop_Some in H as (-> & (pl & Hin & ->) & Hn).
  split; [reflexivity|]. split; [|exact Hn].
  apply list_elem_of_fmap in Hin as (q & -> & Hq).
  apply list_elem_of_filter in Hq as [Hq _]. apply andb_prop_elim in Hq as [Hq _].
  cbn. destruct q as [|o t]; [contradiction|]. cbn in Hq.
  apply bool_decide_unpack in Hq. subst t. eauto.
Qed.

Lemma suffix_cons_r_inv c (x : string) k : c `suffix_of` (x :: k) -> c = x :: k \/ c `suffix_of` k.
Proof.
  intros [r E]. destruct r as [|y r]; simpl in E; [left; congruence|].
  right. injection E as -> ->. exists r. reflexivity.
Qed.

Lemma suffix_tail c : tail c `suffix_of` c.
Proof. destruct c as [|x c]; [reflexivity|]. apply suffix_cons_r. reflexivity. Qed.

Lemma clear_graft_sub r c (t : gmap dag Node) m : clear (app r c) (graft c t m) -> clear r t.
Proof.
  intros H k Hk. specialize (H (app k c) (suffix_app _ _ _ Hk)).
  rewrite lookup_graft, strip_app in H. destruct (t !! k); [discriminate H|reflexivity].
Qed.

Lemma adopt_step L old c h (x : unit) h' (T : gmap dag Node) m' :
  (parent [L :: old] c ;;; ret tt) h = (Ok x, h') ->
  nodes h = graft c T m' -> clear c m' -> ~ c `suffix_of` old ->
  exists (z : string) nL a,
    m' !! (L :: old) = Some nL /\ old <> c /\ ~ (L :: old) `suffix_of` c /\
    clear [z] T /\
    nodes h' = graft c (graft [z] (alter (with_local a) [] (sub (L :: old) m')) T)
                     (prune (L :: old) m') /\
    stamp h' = stamp h.
Proof.
  intros H E C Nc. apply bind_Ok in H as (rs & h1 & H & Hr). apply ret_Ok in Hr as [_ ->].
  eapply parent_Ok in H as (c' & -> & H); [|reflexivity].
  apply parent_one_Ok in H as (n & Hn & _ & _ & Ns & Nt & -> & ->).
  cbn [tail hd nodes stamp] in *.
  assert (~ c `suffix_of` (L :: old)) as Nc'.
  { intros Hc. apply suffix_cons_r_inv in Hc as [->|Hc]; [apply Ns; reflexivity|contradiction]. }
  exists (fresh_name L (taken (nodes h) c)), n, (acomp (world (nodes h) (L :: old)) (ainv (world (nodes h) c))).
  split.
  { rewrite E, lookup_graft in Hn. apply strip_None in Nc'. rewrite Nc' in Hn. exact Hn. }
  split; [exact Nt|]. split; [exact Ns|]. split.
  { apply (clear_graft_sub [_] c T m'). rewrite <- E. apply fresh_name_clear. }
  split; [|reflexivity].
  rewrite <- (move_into_graft _ _ _ _ T m' Nc' Ns), <- E. reflexivity.
Qed.

Lemma prov_adopt st old m m' (t : gmap dag Node) (z : string) L a :
  prov st old m t -> (forall k n, m' !! k = Some n -> m !! k = Some n) ->
  prov st old m (graft [z] (alter (with_local a) [] (sub (L :: old) m')) t).
Proof.
  intros P Hm r n. rewrite lookup_graft.
  destruct (strip [z] r) as [r'|] eqn:E; [|apply P].
  destruct (alter (with_local a) [] (sub (L :: old) m') !! r') as [v|] eqn:Ev; [|apply P].
  intros [= <-]. right.
  destruct (decide (r' = [])) as [->|Hr].
  - rewrite lookup_alter_eq, lookup_sub in Ev. cbn in Ev.
    destruct (m' !! (L :: old)) as [n0|] eqn:En; [|discriminate Ev]. injection Ev as <-.
    exists (L :: old), n0. split; [apply suffix_cons_r; reflexivity|].
    split; [apply cons_neq_self|]. split; [apply Hm; exact En|reflexivity].
  - rewrite lookup_alter_ne, lookup_sub in Ev by congruence.
    exists (app r' (L :: old)), v. split; [apply suffix_app_r, suffix_cons_r; reflexivity|].
    split; [|split; [apply Hm; exact Ev|reflexivity]].
    intros E'. apply (f_equal length) in E'. rewrite length_app in E'. simpl in E'. lia.
Qed.

Lemma adopted_keep L old m (t tt : gmap dag Node) (z : string) :
  adopted L old m t -> clear [z] t -> adopted L old m (graft [z] tt t).
Proof.
  intros (z' & nL & a & Hn & Ht) C. exists z', nL, a. split; [exact Hn|].
  rewrite lookup_graft.
  assert (strip [z] [z'] = None) as ->; [|exact Ht].
  apply strip_None. apply (clear_avoids _ _ _ C). eauto.
Qed.

Lemma adopted_new L old m m' (t : gmap dag Node) (z : string) a nL :
  m' !! (L :: old) = Some nL -> (forall k n, m' !! k = Some n -> m !! k = Some n) ->
  adopted L old m (graft [z] (alter (with_local a) [] (sub (L :: old) m')) t).
Proof.
  intros Hn Hm. exists z, nL, a. split; [apply Hm; exact Hn|].
  rewrite lookup_graft, strip_self, lookup_alter_eq, lookup_sub. cbn. rewrite Hn. reflexivity.
Qed.

Lemma adopted_alter_root L old m (t : gmap dag Node) f :
  adopted L old m t -> adopted L old m (alter f [] t).
Proof.
  intros (z & nL & a & Hn & Ht). exists z, nL, a. split; [exact Hn|].
  rewrite lookup_alter_ne by discriminate. exact Ht.
Qed.

Lemma prov_alter st old m (t : gmap dag Node) (f : Node -> Node) r :
  (forall n, uid (f n) = uid n) -> prov st old m t -> prov st old m (alter f r t).
Proof.
  intros Hf P k n. destruct (decide (k = r)) as [->|Hk].
  - rewrite lookup_alter_eq. destruct (t !! r) as [v|] eqn:E; [|discriminate].
    intros [= <-]. rewrite Hf. apply (P _ _ E).
  - rewrite lookup_alter_ne by congruence. apply P.
Qed.

Lemma prov_copy st old m p : prov st old m (copy_of st p m).
Proof.
  intros r n. unfold copy_of. rewrite lookup_copy.
  destruct (m !! app r p); [|discriminate]. intros [= <-]. left. reflexivity.
Qed.

Lemma lookup_graft_root (z : string) (tt t : gmap dag Node) m : graft [z] tt t !! [] = t !! [].
Proof.
  rewrite lookup_graft. assert (strip [z] [] = None) as ->; [|reflexivity].
  apply strip_None. intros H. apply suffix_nil_inv in H. discriminate H.
Qed.

Lemma adopt_step' L old c h (x : unit) h' (T : gmap dag Node) m' :
  (parent [L :: old] c ;;; ret tt) h = (Ok x, h') ->
  nodes h = graft c T m' -> clear c m' -> (c `suffix_of` old -> c = old) ->
  exists (z : string) nL a,
    m' !! (L :: old) = Some nL /\ old <> c /\ ~ (L :: old) `suffix_of` c /\
    clear [z] T /\
    nodes h' = graft c (graft [z] (alter (with_local a) [] (sub (L :: old) m')) T)
                     (prune (L :: old) m') /\
    stamp h' = stamp h.
Proof.
  intros H E C Nc. eapply adopt_step; try eassumption.
  apply bind_Ok in H as (rs & h1 & H & _).
  eapply parent_Ok in H as (c' & -> & H); [|reflexivity].
  apply parent_one_Ok in H as (n & _ & _ & _ & _ & Nt & _). cbn [tail] in Nt.
  intros Hc. apply Nt. symmetry. apply Nc, Hc.
Qed.

Lemma prune_below m s k n : prune s m !! k = Some n -> m !! k = Some n.
Proof. rewrite lookup_prune. case_decide; [discriminate|auto]. Qed.

Lemma updateOriginal_Ok h new i h1 :
  updateOriginal h = (Ok (new, i), h1) ->
  exists sel0 sel1 n0 n1 (o : string) nold T root,
    let old := o :: Originals in
    let m := nodes h in
    selected_transforms h = [sel0; sel1] /\
    m !! sel0 = Some n0 /\ m !! sel1 = Some n1 /\ ident n1 = Some i /\
    m !! old = Some nold /\ ident nold = Some i /\
    new = old /\
    is_Some (m !! Originals) /\
    ~ old `suffix_of` tail sel0 /\
    nodes h1 = replace_at old T m /\ stamp h1 = S (stamp h) /\
    T !! [] = Some root /\
    uid root = (stamp h, []) /\ kind root = kind n0 /\ ident root = Some i /\ locked root /\
    local root = acomp (acomp (acomp (world m old) (ainv (world m (tail sel0))))
                              (world m (tail sel0)))
                       (ainv (world m Originals)) /\
    prov (stamp h) old m T /\
    (forall L, L ∈ ["Zero"; "X"; "Y"; "Z"]%string -> adopted L old m T).
Proof.
  intros H. unfold updateOriginal in H.
  apply bind_Ok in H as (sel & h0 & H0 & H). injection H0 as Hsel <-.
  fold (selected_transforms h) in Hsel.
  apply bind_Ok in H as (u0 & h0 & H0 & H).
  destruct (length sel =? 2)%nat eqn:Hlen; [|discriminate H0].
  apply ret_Ok in H0 as [_ ->]. apply Nat.eqb_eq in Hlen.
  destruct sel as [|sel0 [|sel1 [|]]]; try discriminate Hlen. clear Hlen.
  apply bind_Ok in H as (x & h0 & H0 & H). apply ret_Ok in H0 as [-> ->].
  apply bind_Ok in H as (e & h0 & H0 & H). injection H0 as <- <-.
  apply bind_Ok in H as (u1 & h0 & H0 & H).
  destruct (has_identifier (nodes h) sel1) eqn:He; [|discriminate H0].
  apply ret_Ok in H0 as [_ ->].
  apply bind_Ok in H as (x & h0 & H0 & H). apply ret_Ok in H0 as [-> ->].
  apply bind_Ok in H as (dup & s1 & Hd & H).
  apply duplicate_Ok in Hd as (n0 & Hn0 & Hd). cbv zeta in Hd.
  fold (copy_of (stamp h) sel0 (nodes h)) in Hd.
  pose proof (fresh_name_clear (nodes h) (tail sel0) (hd ""%string sel0)) as Cc.
  remember (fresh_name (hd ""%string sel0) (taken (nodes h) (tail sel0))) as zc eqn:Ezc. clear Ezc.
  remember (zc :: tail sel0) as c eqn:Ec.
  destruct Hd as [-> E1].
  apply bind_Ok in H as (c0 & h0 & H0 & H). apply ret_Ok in H0 as [-> ->].
  apply bind_Ok in H as (i' & h0 & H0 & H).
  apply getAttr_Ok in H0 as (-> & n1 & Hn1 & Hi1). cbn [plug_node identifier_of fst] in Hn1.
  apply bind_Ok in H as (old' & h0 & H0 & H).
  destruct old' as [old|]; [|discriminate H].
  apply findOriginal_Some in H0 as (-> & (o & Eold) & nold & Hnold & Hiold).
  apply bind_Ok in H as (oldMatrix & h0 & H0 & H).
  unfold xform_q_matrix in H0. rewrite Hnold in H0. injection H0 as <- <-.
  apply bind_Ok in H as (u2 & s2 & H2 & H).
  apply xform_set_matrix_Ok in H2 as (a & nc & Ha & Hnc & E2).
  rewrite of_to_list16 in Ha. injection Ha as <-.
  apply bind_Ok in H as (u3 & s6 & H3 & H).
  cbn [for_each] in H3.
  apply bind_Ok in H3 as (v3 & s3 & A0 & H3).
  apply bind_Ok in H3 as (v4 & s4 & AX & H3).
  apply bind_Ok in H3 as (v5 & s5 & AY & H3).
  apply bind_Ok in H3 as (v6 & s6' & AZ & H3). apply ret_Ok in H3 as [_ ->].
  apply bind_Ok in H as (u7 & s7 & H7 & H).
  apply addIdentifier_Ok in H7 as (n6 & Hn6 & L6 & E7).
  apply bind_Ok in H as (u8 & s8 & H8 & H).
  apply unlockTransform_Ok in H8 as (n7 & Hn7 & E8).
  apply bind_Ok in H as (u9 & s9 & H9 & H).
  apply delete_Ok in H9 as (n8 & Hn8 & L8 & E9).
  apply bind_Ok in H as (new1 & s10 & H10 & H).
  eapply parent_Ok in H10 as (c2 & -> & H10); [|reflexivity].
  apply parent_one_Ok in H10 as (n9 & Hn9 & L9 & HO & NcO & Ntl & Ec2 & E10).
  apply bind_Ok in H as (c3 & s11 & H11 & H).
  apply rename_Ok in H11 as (cx & n10 & [= <-] & Hn10 & L10 & Ec3 & E11 & S11 & _).
  apply bind_Ok in H as (u12 & s12 & H12 & H).
  apply lockTransform_Ok in H12 as (n11 & Hn11 & L11 & E12).
  apply ret_Ok in H as [[= <- <-] ->].
  (* where the nodes are *)
  assert (c `suffix_of` old -> c = old) as Nco.
  { intros Hc. rewrite Eold in Hc. apply suffix_cons_r_inv in Hc as [Hc|Hc]; [congruence|contradiction]. }
  assert (nodes s1 = graft c (copy_of (stamp h) sel0 (nodes h)) (nodes h)) as M1
    by (rewrite E1; reflexivity).
  assert (stamp s1 = S (stamp h)) as S1 by (rewrite E1; reflexivity).
  clear E1.
  set (m := nodes h) in *. set (st := stamp h) in *.
  remember (world (nodes s1) old) as W1 eqn:EW1.
  remember (world (nodes s1) (tail c)) as P1 eqn:EP1.
  assert (nodes s2 = graft c (alter (with_local (acomp W1 (ainv P1))) [] (copy_of st sel0 m)) m) as M2.
  { rewrite E2. cbn [nodes with_nodes].
    rewrite (insert_eq_alter _ _ _ (with_local (acomp W1 (ainv P1))) Hnc), M1.
    apply alter_graft_root, clear_self, Cc. }
  assert (stamp s2 = S st) as S2 by (rewrite E2; exact S1).
  clear E2.
  destruct (adopt_step' _ _ _ _ _ _ _ _ A0 M2 Cc Nco) as (z0 & l0 & a0 & Hl0 & Hoc & Ns0 & Cz0 & M3 & S3).
  pose proof (clear_prune _ ("Zero"%string :: old) _ Cc) as Cc1.
  destruct (adopt_step' _ _ _ _ _ _ _ _ AX M3 Cc1 Nco) as (zX & lX & aX & HlX & _ & NsX & CzX & M4 & S4).
  pose proof (clear_prune _ ("X"%string :: old) _ Cc1) as Cc2.
  destruct (adopt_step' _ _ _ _ _ _ _ _ AY M4 Cc2 Nco) as (zY & lY & aY & HlY & _ & NsY & CzY & M5 & S5).
  pose proof (clear_prune _ ("Y"%string :: old) _ Cc2) as Cc3.
  destruct (adopt_step' _ _ _ _ _ _ _ _ AZ M5 Cc3 Nco) as (zZ & lZ & aZ & HlZ & _ & NsZ & CzZ & M6 & S6).
  pose proof (clear_prune _ ("Z"%string :: old) _ Cc3) as Cc4.
  clear A0 AX AY AZ.
  set (T1 := alter (with_local (acomp W1 (ainv P1))) [] (copy_of st sel0 m)) in *.
  set (m1 := prune ("Zero"%string :: old) m) in *.
  set (T2 := graft [z0] (alter (with_local a0) [] (sub ("Zero"%string :: old) m)) T1) in *.
  set (m2 := prune ("X"%string :: old) m1) in *.
  set (T3 := graft [zX] (alter (with_local aX) [] (sub ("X"%string :: old) m1)) T2) in *.
  set (m3 := prune ("Y"%string :: old) m2) in *.
  set (T4 := graft [zY] (alter (with_local aY) [] (sub ("Y"%string :: old) m2)) T3) in *.
  set (m4 := prune ("Z"%string :: old) m3) in *.
  set (T5 := graft [zZ] (alter (with_local aZ) [] (sub ("Z"%string :: old) m3)) T4) in *.
  assert (nodes s7 = graft c (alter (with_ident (Some i)) [] T5) m4) as M7.
  { rewrite E7. cbn [nodes with_nodes].
    rewrite (insert_eq_alter _ _ _ (with_ident (Some i)) Hn6), M6.
    apply alter_graft_root, clear_self, Cc4. }
  assert (stamp s7 = S st) as S7 by (rewrite E7; cbn; congruence).
  clear E7.
  assert (~ old `suffix_of` c) as Noc.
  { intros Hs. rewrite E9 in Hn9. cbn [nodes] in Hn9. rewrite lookup_prune in Hn9.
    rewrite decide_True in Hn9 by exact Hs. discriminate Hn9. }
  assert (~ c `suffix_of` old) as Nco' by (intros Hs; apply Hoc; symmetry; apply Nco, Hs).
  assert (prune old m4 = prune old m) as Em4.
  { unfold m4, m3, m2, m1.
    rewrite !prune_prune_below by (apply suffix_cons_r; reflexivity). reflexivity. }
  assert (nodes s9 = graft c (alter (with_ident (Some i)) [] T5) (prune old m)) as M9.
  { rewrite E9. cbn [nodes]. rewrite E8. cbn [nodes with_nodes].
    rewrite prune_insert_below by reflexivity.
    rewrite M7, (prune_graft _ _ _ _ Noc Nco'), Em4. reflexivity. }
  assert (stamp s9 = S st) as S9 by (rewrite E9, E8; cbn; congruence).
  pose proof (fresh_name_clear (nodes s9) Originals (hd ""%string c)) as Cc2'.
  rewrite <- Ec2 in Cc2'.
  remember (acomp (world (nodes s9) c) (ainv (world (nodes s9) Originals))) as A9 eqn:EA9.
  assert (clear c (prune old m)) as Cco by (apply clear_prune, Cc).
  assert (clear c2 (prune old m)) as Cc2o by (rewrite M9 in Cc2'; eapply clear_graft_inv, Cc2').
  assert (nodes s10 = graft c2 (alter (with_local A9) [] (alter (with_ident (Some i)) [] T5)) (prune old m)) as M10.
  { rewrite E10. cbn [nodes]. rewrite M9. apply move_graft, Cco. }
  assert (stamp s10 = S st) as S10 by (rewrite E10; cbn; congruence).
  assert (new = old) as ->.
  { rewrite Ec3, M10, (prune_graft_self _ _ _ Cc2o), Ec2. cbn [tail].
    unfold shortName. pose proof (name_free_after_prune old m) as F.
    clear -F Eold. subst old. cbn [hd tail] in *.
    rewrite fresh_name_free; [reflexivity|]. apply F. discriminate. }
  assert (nodes s11 = graft old (alter (fun n => n) [] (alter (with_local A9) [] (alter (with_ident (Some i)) [] T5)))
                            (prune old m)) as M11.
  { rewrite E11, M10. apply move_graft, Cc2o. }
  assert (nodes s12 = graft old (alter lock_node [] (alter (fun n => n) [] (alter (with_local A9) []
                                   (alter (with_ident (Some i)) [] T5))))
                            (prune old m)) as M12.
  { rewrite E12. cbn [nodes with_nodes].
    rewrite (insert_eq_alter _ _ _ lock_node Hn11), M11.
    apply alter_graft_root, clear_self, clear_prune_self. }
  assert (stamp s12 = S st) as S12 by (rewrite E12; cbn; congruence).
  clear E12 E11 E10 E9 E8 Hn11 Hn10.
  (* the nodes the copy is made of *)
  assert (T5 !! [] = Some (with_local (acomp W1 (ainv P1)) (with_uid (st, []) n0))) as R5.
  { unfold T5, T4, T3, T2, T1. rewrite !lookup_graft_root by exact m. rewrite lookup_alter_eq.
    rewrite (lookup_copy_root _ _ _ _ Hn0). reflexivity. }
  assert (kept old m (nodes s1)) as K1 by (rewrite M1; apply kept_graft, Nco').
  assert (~ c `suffix_of` tail c) as Ntc by (apply not_suffix_tail; rewrite Ec; discriminate).
  assert (tail c = tail sel0) as Etc by (rewrite Ec; reflexivity).
  assert (~ old `suffix_of` tail c) as Not
    by (intros Hs; apply Noc; etrans; [exact Hs|apply suffix_tail]).
  assert (forall k, ~ old `suffix_of` k -> ~ c `suffix_of` k -> kept k m (nodes s9)) as K9.
  { intros k Hk1 Hk2. rewrite M9. eapply kept_trans; [apply kept_prune, Hk1|apply kept_graft, Hk2]. }
  assert (~ old `suffix_of` Originals) as NoO by (rewrite Eold; apply not_suffix_longer; reflexivity).
  assert (W1 = world m old) as -> by (rewrite EW1; apply kept_world, K1).
  assert (P1 = world m (tail sel0)) as ->.
  { rewrite EP1, Etc, <- Etc at 1. rewrite Etc. apply kept_world. rewrite M1. apply kept_graft.
    rewrite <- Etc. exact Ntc. }
  assert (nodes s9 !! c = Some (with_ident (Some i)
            (with_local (acomp (world m old) (ainv (world m (tail sel0)))) (with_uid (st, []) n0)))) as R9.
  { rewrite M9, lookup_graft, strip_self, lookup_alter_eq, R5. reflexivity. }
  assert (A9 = acomp (acomp (acomp (world m old) (ainv (world m (tail sel0)))) (world m (tail sel0)))
                     (ainv (world m Originals))) as ->.
  { rewrite EA9. rewrite (kept_world _ _ _ (K9 Originals NoO NcO)). f_equal.
    rewrite Ec, world_cons, <- Ec. unfold loc. rewrite R9. cbn [local with_ident with_local].
    f_equal. rewrite <- Etc. apply kept_world, K9; assumption. }
  assert (forall k n, m1 !! k = Some n -> m !! k = Some n) as Hm1 by (intros k n; apply prune_below).
  assert (forall k n, m2 !! k = Some n -> m !! k = Some n) as Hm2
    by (intros k n Hk; apply Hm1; revert Hk; apply prune_below).
  assert (forall k n, m3 !! k = Some n -> m !! k = Some n) as Hm3
    by (intros k n Hk; apply Hm2; revert Hk; apply prune_below).
  exists sel0, sel1, n0, n1, o, nold. eexists. eexists. cbv zeta. rewrite <- Eold.
  split; [exact Hsel|]. split; [exact Hn0|].
  split.
  { rewrite <- Hn1, M1, lookup_graft.
    assert (strip c sel1 = None) as ->; [|reflexivity].
    apply strip_None, (clear_avoids _ _ _ Cc). unfold has_identifier in He.
    destruct (m !! sel1); [eauto|discriminate He]. }
  split; [exact Hi1|].
  split; [rewrite <- (kept_lookup _ _ _ K1); exact Hnold|]. split; [exact Hiold|].
  split; [reflexivity|].
  split.
  { destruct HO as [HO|HO]; [discriminate HO|].
    rewrite <- (kept_lookup _ _ _ (K9 Originals NoO NcO)). exact HO. }
  split; [rewrite <- Etc; exact Not|].
  split; [exact M12|]. split; [exact S12|].
  split; [rewrite !lookup_alter_eq, R5; reflexivity|].
  split; [reflexivity|]. split; [reflexivity|]. split; [reflexivity|].
  split; [apply locked_lock_node|]. split; [reflexivity|].
  split.
  { repeat (apply prov_alter; [reflexivity|]).
    unfold T5, T4, T3, T2, T1.
    apply prov_adopt; [|exact Hm3]. apply prov_adopt; [|exact Hm2].
    apply prov_adopt; [|exact Hm1]. apply prov_adopt; [|auto].
    apply prov_alter; [reflexivity|]. apply prov_copy. }
  intros L HL. repeat apply adopted_alter_root.
  assert (adopted "Zero" old m T2) as AD0 by (eapply adopted_new; [exact Hl0|auto]).
  assert (adopted "X" old m T3) as ADX by (eapply adopted_new; [exact HlX|exact Hm1]).
  assert (adopted "Y" old m T4) as ADY by (eapply adopted_new; [exact HlY|exact Hm2]).
  assert (adopted "Z" old m T5) as ADZ by (eapply adopted_new; [exact HlZ|exact Hm3]).
  repeat (apply elem_of_cons in HL as [->|HL]); [| | | |apply elem_of_nil in HL; contradiction].
  - apply adopted_keep; [|exact CzZ]. apply adopted_keep; [|exact CzY].
    apply adopted_keep; [|exact CzX]. exact AD0.
  - apply adopted_keep; [|exact CzZ]. apply adopted_keep; [|exact CzY]. exact ADX.
  - apply adopted_keep; [|exact CzZ]. exact ADY.
  - exact ADZ.
Qed.

Lemma confined_weaken (u : nat * dag) (P Q : dag -> Prop) m :
  (forall k, P k -> Q k) -> confined u P m -> confined u Q m.
Proof. intros H C k n Hk E. apply H. exact (C k n Hk E). Qed.

Lemma replace_prov_confined (u : nat * dag) (P : dag -> Prop) m st p (T : gmap dag Node) :
  confined u P m -> (fst u < st)%nat -> prov st p m T ->
  (forall k, p `suffix_of` k -> k <> p -> ~ P k) ->
  confined u (fun k => P k /\ ~ p `suffix_of` k) (replace_at p T m).
Proof.
  intros C Hu Pr HP k n Hk E. rewrite lookup_replace_at in Hk.
  destruct (strip p k) as [r|] eqn:Er.
  - exfalso. destruct (Pr r n Hk) as [Hst|(k0 & n0 & Hs & Hne & Hk0 & Eu)].
    + rewrite E in Hst. lia.
    + apply (HP k0 Hs Hne). apply (C k0 n0 Hk0). congruence.
  - apply strip_None in Er. split; [exact (C k n Hk E)|exact Er].
Qed.

Lemma replace_fresh_confined (u : nat * dag) (P : dag -> Prop) m st p (T : gmap dag Node) :
  confined u P m -> (fst u < st)%nat -> fresh_tree st T ->
  confined u (fun k => P k /\ ~ p `suffix_of` k) (replace_at p T m).
Proof.
  intros C Hu Pr k n Hk E. rewrite lookup_replace_at in Hk.
  destruct (strip p k) as [r|] eqn:Er.
  - exfalso. specialize (Pr r n Hk). rewrite E in Pr. lia.
  - apply strip_None in Er. split; [exact (C k n Hk E)|exact Er].
Qed.

Lemma fresh_tree_instance st new p m : fresh_tree st (fresh_instance st new p m).
Proof.
  intros r n. unfold fresh_instance, copy_of.
  destruct (decide (r = [])) as [->|Hr].
  - rewrite lookup_alter_eq, (lookup_copy new m st []). destruct (m !! app [] new); [|discriminate].
    intros [= <-]. reflexivity.
  - rewrite lookup_alter_ne by congruence. rewrite (lookup_copy new m st r).
    destruct (m !! app r new); [|discriminate].
    intros [= <-]. reflexivity.
Qed.

Lemma updateInstance_confined new i (u : nat * dag) (P : dag -> Prop) pl h (x : unit) h' :
  updateInstance new i pl h = (Ok x, h') ->
  confined u P (nodes h) -> (fst u < stamp h)%nat ->
  confined u P (nodes h') /\ (stamp h <= stamp h')%nat.
Proof.
  intros H C Hu. apply updateInstance_Ok in H. cbv zeta in H.
  destruct H as [[-> _]|(_ & _ & _ & _ & _ & E & S')]; [auto|].
  split; [|lia]. rewrite E.
  eapply confined_weaken;
    [|exact (replace_fresh_confined u P (nodes h) (stamp h) _ _ C Hu (fresh_tree_instance _ _ _ _))].
  intros k [Hk _]. exact Hk.
Qed.

Lemma for_each_confined new i (u : nat * dag) (P : dag -> Prop) l : forall h h',
  for_each l (updateInstance new i) h = (Ok tt, h') ->
  confined u P (nodes h) -> (fst u < stamp h)%nat ->
  confined u P (nodes h') /\ (stamp h <= stamp h')%nat.
Proof.
  induction l as [|pl l IH]; intros h h' H C Hu.
  - apply ret_Ok in H as [_ ->]. auto.
  - simpl in H. apply bind_Ok in H as (x & h1 & H1 & H).
    destruct (updateInstance_confined _ _ _ _ _ _ _ _ H1 C Hu) as [C1 S1].
    destruct (IH _ _ H C1 ltac:(lia)) as [C2 S2]. split; [exact C2|lia].
Qed.

Lemma startswith_store (o : string) r : startswith_Originals (app r (o :: Originals)) = true.
Proof.
  unfold startswith_Originals, Originals. rewrite rev_app_distr. reflexivity.
Qed.

(** What is in the store stays through the loop, when neither the world nor
    the store carries the identifier. *)
Lemma updateInstances_kept_store new i h h' (o : string) r :
  updateInstances new i h = (Ok tt, h') ->
  nodes h !! [] = None ->
  (nodes h !! Originals ≫= ident) <> Some i ->
  kept (app r (o :: Originals)) (nodes h) (nodes h').
Proof.
  intros H H0 HO. apply (updateInstances_kept _ _ _ _ _ H).
  intros p np Hs Hp Hi.
  destruct (suffix_weak_total p (o :: Originals) _ Hs (suffix_app_r _ _ _ (reflexivity _)))
    as [Hp'|[r' ->]].
  - apply suffix_cons_r_inv in Hp' as [->|Hp'].
    + apply (startswith_store o []).
    + apply suffix_cons_r_inv in Hp' as [->|Hp'].
      * exfalso. apply HO. unfold Originals in Hp |- *. rewrite Hp. exact Hi.
      * apply suffix_nil_inv in Hp'. subst p. congruence.
  - apply startswith_store.
Qed.

Lemma updateInstances_confined new i (u : nat * dag) (P : dag -> Prop) h h' :
  updateInstances new i h = (Ok tt, h') ->
  confined u P (nodes h) -> (fst u < stamp h)%nat ->
  confined u P (nodes h') /\ (stamp h <= stamp h')%nat.
Proof.
  intros H. unfold updateInstances in H.
  apply bind_Ok in H as (l & h1 & H1 & H). injection H1 as <- <-.
  eapply for_each_confined, H.
Qed.

Lemma well_formed_at h k n :
  well_formed h -> nodes h !! k = Some n ->
  (fst (uid n) < stamp h)%nat /\ only_at (uid n) k (nodes h).
Proof. intros [_ W] Hk. exact (W k n Hk). Qed.

End PhaseFacts.

(** ** Facts about the replacement of one instance *)

Module PlacementFacts.
Import Affine Maya Layout Props AffineFacts SceneFacts CmdFacts LocatorFacts FrameFacts UndoFacts
  LookupFacts InstFacts TreeFacts LoopFacts PhaseFacts.
Local Open Scope cmds_scope.
Implicit Types (p q c k r t s old : dag) (m : gmap dag Node) (h : Host) (st : nat) (a : affine)
  (n : Node) (L : string) (f : Node -> Node).

Lemma for_each_app {A} (l1 l2 : list A) (body : A -> M unit) : forall h h',
  for_each (l1 ++ l2) body h = (Ok tt, h') ->
  exists h1, for_each l1 body h = (Ok tt, h1) /\ for_each l2 body h1 = (Ok tt, h').
Proof.
  induction l1 as [|x l1 IH]; intros h h' H.
  - exists h. split; [reflexivity|exact H].
  - simpl in H. apply bind_Ok in H as (u & h0 & H0 & H).
    apply IH in H as (h1 & H1 & H2). exists h1. split; [|exact H2].
    simpl. unfold bind. rewrite H0. exact H1.
Qed.

Lemma ls_identifier_Ok pat h (l : list plug) h' :
  ls_identifier pat h = (Ok l, h') ->
  h' = h /\ NoDup l /\
  (forall pl, pl ∈ l -> pl = identifier_of (plug_node pl)) /\
  (forall p, matches pat p = true -> has_identifier (nodes h) p = true -> identifier_of p ∈ l).
Proof.
  unfold ls_identifier. intros [= <- <-]. split; [reflexivity|]. split; [|split].
  - apply NoDup_fmap_2; [intros x y [= ->]; reflexivity|].
    apply NoDup_filter, NoDup_fst_map_to_list.
  - intros pl Hin. apply list_elem_of_fmap in Hin as (q & -> & _). reflexivity.
  - intros p Hm Hi. apply list_elem_of_fmap. exists p. split; [reflexivity|].
    apply list_elem_of_filter. split; [rewrite Hm, Hi; exact I|].
    apply list_elem_of_fmap. unfold has_identifier in Hi.
    destruct (nodes h !! p) as [n|] eqn:E; [|discriminate Hi].
    exists (p, n). split; [reflexivity|]. apply elem_of_map_to_list. exact E.
Qed.

Lemma startswith_inside p : startswith_Originals p = true -> Originals `suffix_of` p.
Proof.
  unfold startswith_Originals. destruct (rev p) as [|root [|x l]] eqn:E; try discriminate.
  intros H. apply String.eqb_eq in H. subst root.
  apply (f_equal (@rev string)) in E. rewrite rev_involutive in E. subst p.
  simpl. apply suffix_app_r. reflexivity.
Qed.

Lemma for_each_kept_store new i l h h' (o : string) r :
  for_each l (updateInstance new i) h = (Ok tt, h') ->
  nodes h !! [] = None ->
  (nodes h !! Originals ≫= ident) <> Some i ->
  kept (app r (o :: Originals)) (nodes h) (nodes h').
Proof.
  intros H H0 HO. apply (for_each_kept _ _ _ _ _ _ H).
  intros pl _ Hs. set (p := plug_node pl) in *.
  destruct (suffix_weak_total p (o :: Originals) _ Hs (suffix_app_r _ _ _ (reflexivity _)))
    as [Hp'|[r' ->]].
  - apply suffix_cons_r_inv in Hp' as [->|Hp'].
    + left. apply (startswith_store o []).
    + right. intros np Hp Hi. apply suffix_cons_r_inv in Hp' as [->|Hp'].
      * apply HO. unfold Originals in Hp |- *. rewrite Hp. exact Hi.
      * apply suffix_nil_inv in Hp'. rewrite Hp' in Hp. congruence.
  - left. apply startswith_store.
Qed.

Lemma unlocked_with_local a n : unlocked n -> unlocked (with_local a n).
Proof. intros H. exact H. Qed.

End PlacementFacts.

(** ** Facts about the first publication *)

Module PublishFacts.
Import Affine Maya Layout Props AffineFacts SceneFacts CmdFacts LocatorFacts FrameFacts UndoFacts
  LookupFacts InstFacts TreeFacts LoopFacts PhaseFacts PlacementFacts.
Local Open Scope cmds_scope.
Implicit Types (p q c k r t s old : dag) (m : gmap dag Node) (h : Host) (st : nat) (a : affine)
  (n : Node) (L i : string) (f : Node -> Node) (J : gmap dag Node -> Prop).

Lemma preserves_ret {A} J (x : A) : preserves J (ret x).
Proof. intros h a h' [= <- <-]. auto. Qed.

Lemma preserves_bind {A B} J (c : M A) (g : A -> M B) :
  preserves J c -> (forall x, preserves J (g x)) -> preserves J (bind c g).
Proof.
  intros Hc Hg h b h' H HJ. apply bind_Ok in H as (x & h1 & H1 & H2).
  apply (Hg x _ _ _ H2). apply (Hc _ _ _ H1). exact HJ.
Qed.

Lemma preserves_each {A B} J (g : A -> M B) l : (forall x, preserves J (g x)) -> preserves J (each g l).
Proof.
  intros Hg. induction l as [|x l IH]; simpl.
  - apply preserves_ret.
  - apply preserves_bind; [apply Hg|]. intros b. apply preserves_bind; [exact IH|].
    intros bs. apply preserves_ret.
Qed.

Lemma taken_existing m t (x : string) k : is_Some (m !! k) -> (x :: t) `suffix_of` k -> x ∈ taken m t.
Proof. intros Hk Hs. apply elem_of_taken. eauto. Qed.

Section Pending.
Variables (i : string) (p : dag) (u : nat * dag).

Lemma pending_edit cmd ok f k :
  (forall n, uid (f n) = uid n /\ kind (f n) = kind n /\ ident (f n) = ident n) ->
  preserves (pending i p u) (edit cmd ok f k).
Proof.
  intros Hf h x h' H ((n & Hn & Hu & Hk) & Hun & Htk).
  apply edit_Ok in H as (nk & Hnk & _ & ->). cbn [nodes with_nodes].
  destruct (Hf nk) as (F1 & F2 & F3).
  split; [|split].
  - destruct (decide (k = p)) as [->|Hne].
    + rewrite lookup_insert_eq. rewrite Hn in Hnk. injection Hnk as <-.
      eexists. split; [reflexivity|]. split; congruence.
    + rewrite lookup_insert_ne by exact Hne. eauto.
  - apply map_Forall_insert_2; [|exact Hun]. rewrite F3. exact (Hun _ _ Hnk).
  - intros Hin. apply taken_insert in Hin as [Hs|Hin]; [|contradiction].
    apply Htk. eapply taken_existing; [|exact Hs]. eauto.
Qed.

Lemma pending_makeLocator name :
  p <> Originals -> preserves (pending i p u) (makeLocator name p).
Proof.
  intros HpO h c h' H ((n & Hn & Hu & Hk) & Hun & Htk).
  apply makeLocator_Ok in H. cbv zeta in H. destruct H as (_ & Hp0 & Ec & ->).
  cbn [nodes].
  set (z := fresh_name (fresh_name name (taken (nodes h) [])) _) in Ec.
  assert (~ (i :: Originals) `suffix_of` c) as Nc.
  { rewrite Ec. intros Hs. apply suffix_cons_r_inv in Hs as [Hs|Hs].
    - injection Hs as _ Hs. congruence.
    - apply Htk. eapply taken_existing; [|exact Hs]. eauto. }
  split; [|split].
  - exists n. split; [|auto].
    rewrite !lookup_insert_ne; [exact Hn| |]; rewrite Ec; key_neq.
  - apply map_Forall_insert_2; [discriminate|].
    apply map_Forall_insert_2; [discriminate|exact Hun].
  - intros Hin. apply taken_insert in Hin as [Hs|Hin].
    { apply suffix_cons_r_inv in Hs as [Hs|Hs]; [|contradiction].
      injection Hs as _ Hs. rewrite Ec in Hs. injection Hs as _ Hs. congruence. }
    apply taken_insert in Hin as [Hs|Hin]; contradiction.
Qed.

Lemma pending_group_empty name : preserves (pending i p u) (group_empty name).
Proof.
  intros h c h' H ((n & Hn & Hu & Hk) & Hun & Htk).
  unfold group_empty in H. injection H as <- <-. cbn [nodes].
  split; [|split].
  - exists n. split; [|auto]. rewrite lookup_insert_ne; [exact Hn|].
    intros E. apply (fresh_name_avoids (nodes h) [] name p); [eauto|]. rewrite E. reflexivity.
  - apply map_Forall_insert_2; [discriminate|exact Hun].
  - intros Hin. apply taken_insert in Hin as [Hs|Hin]; [|contradiction].
    apply suffix_length in Hs. simpl in Hs. lia.
Qed.

Lemma pending_hide ps : preserves (pending i p u) (hide ps).
Proof.
  unfold hide. apply preserves_bind; [|intros; apply preserves_ret].
  apply preserves_each. intros k. apply pending_edit. intros n. auto.
Qed.

Lemma pending_lockTransform k : preserves (pending i p u) (lockTransform k).
Proof.
  unfold lockTransform, setAttr_lock, lockNode.
  repeat (apply preserves_bind; [apply pending_edit; intros n; auto|intros _]).
  apply pending_edit. intros n. auto.
Qed.

Lemma pending_makeLocators : p <> Originals -> preserves (pending i p u) (makeLocators p).
Proof.
  intros HpO. unfold makeLocators, setAttr_translate.
  repeat (apply preserves_bind; [apply pending_makeLocator, HpO|intros ?]).
  repeat (apply preserves_bind; [apply pending_edit; intros n; auto|intros _]).
  apply pending_hide.
Qed.

End Pending.

Lemma untagged_move i c c' f m :
  (forall n, ident (f n) = ident n) -> untagged i m -> untagged i (move c c' f m).
Proof.
  intros Hf Hun k v Hk. apply lookup_move_Some in Hk as [(r & v0 & _ & Hv0 & ->)|[_ Hk]].
  - destruct (decide (r = [])); [rewrite Hf|]; exact (Hun _ _ Hv0).
  - exact (Hun _ _ Hk).
Qed.

Lemma initialize_steps_Ok h (x : unit) h5 (nm : string) t np :
  initialize_steps h = (Ok x, h5) ->
  selected_transforms h = [nm :: t] ->
  nodes h !! (nm :: t) = Some np ->
  untagged nm (nodes h) -> (nm ∉ taken (nodes h) Originals) ->
  exists n5, nodes h5 !! (nm :: Originals) = Some n5 /\
             uid n5 = uid np /\ kind n5 = Transform /\ ident n5 = Some nm /\ locked n5 /\
             (forall k nk, nodes h5 !! k = Some nk -> ident nk = Some nm -> k = nm :: Originals) /\
             selection h5 = [nm :: Originals].
Proof.
  intros H Hsel Hnp Hun Htk. unfold initialize_steps in H.
  apply bind_Ok in H as (sel & h0 & H0 & H). injection H0 as Hsel' <-.
  change (selected_transforms h = sel) in Hsel'. rewrite Hsel in Hsel'. subst sel.
  apply bind_Ok in H as (u0 & h0 & H0 & H). apply ret_Ok in H0 as [_ ->].
  apply bind_Ok in H as (p & h0 & H0 & H). apply ret_Ok in H0 as [-> ->].
  apply bind_Ok in H as (u1 & s1 & Hml & H).
  apply bind_Ok in H as (e & h0 & H0 & H). injection H0 as <- <-.
  apply bind_Ok in H as (u2 & s2 & Hgr & H).
  apply bind_Ok in H as (sel & s3 & Hpar & H).
  eapply parent_Ok in Hpar as (p' & -> & Hpar); [|reflexivity].
  apply parent_one_Ok in Hpar as (n2 & Hn2 & L2 & _ & NpO & _ & Ep' & E3).
  apply bind_Ok in H as (p'' & h0 & H0 & H). apply ret_Ok in H0 as [-> ->].
  apply bind_Ok in H as (u4 & s4 & Hid & H).
  apply addIdentifier_Ok in Hid as (n3 & Hn3 & L3 & E4).
  apply lockTransform_Ok in H as (n4 & Hn4 & L4 & E5).
  assert (nm :: t <> Originals) as HpO by (intros E; apply NpO; rewrite E; reflexivity).
  assert (is_transform (nodes h) (nm :: t) = true) as Htr.
  { assert (nm :: t ∈ selected_transforms h) as Hin by (rewrite Hsel; left).
    apply list_elem_of_filter in Hin as [Hin _]. apply andb_prop_elim in Hin as [_ Hin].
    apply Is_true_true. exact Hin. }
  assert (pending nm (nm :: t) (uid np) (nodes h)) as J0.
  { split; [|auto]. exists np. split; [exact Hnp|]. split; [reflexivity|].
    unfold is_transform in Htr. rewrite Hnp in Htr. destruct (kind np); [reflexivity|discriminate]. }
  assert (pending nm (nm :: t) (uid np) (nodes s1)) as J1
    by (apply (pending_makeLocators _ _ _ HpO _ _ _ Hml J0)).
  assert (pending nm (nm :: t) (uid np) (nodes s2)) as J2.
  { match type of Hgr with
    | ?c _ = _ => assert (preserves (pending nm (nm :: t) (uid np)) c) as PJ
    end.
    { destruct (negb _); [|apply preserves_ret].
      apply preserves_bind; [apply pending_group_empty|]. intros g.
      apply preserves_bind; [apply pending_lockTransform|]. intros _. apply pending_hide. }
    exact (PJ _ _ _ Hgr J1). }
  destruct J2 as ((n2' & Hn2' & Hu2 & Hk2) & Hun2 & Htk2).
  rewrite Hn2 in Hn2'. injection Hn2' as <-.
  cbn [hd] in Ep'. rewrite (fresh_name_free _ _ Htk2) in Ep'. subst p'.
  set (a := acomp _ _) in E3.
  assert (nodes s3 !! (nm :: Originals) = Some (with_local a n2)) as Hn3'
    by (rewrite E3; cbn [nodes]; apply (lookup_move_root _ _ _ _ _ Hn2)).
  rewrite Hn3 in Hn3'. injection Hn3' as ->.
  assert (untagged nm (nodes s3)) as Hun3
    by (rewrite E3; cbn [nodes]; apply untagged_move; [reflexivity|exact Hun2]).
  rewrite E4 in Hn4. cbn [nodes with_nodes] in Hn4. rewrite lookup_insert_eq in Hn4.
  injection Hn4 as <-.
  exists (lock_node (with_ident (Some nm) (with_local a n2))).
  rewrite E5, E4. cbn [nodes with_nodes selection]. rewrite insert_insert_eq, lookup_insert_eq.
  split; [reflexivity|]. split; [exact Hu2|]. split; [exact Hk2|]. split; [reflexivity|].
  split; [apply locked_lock_node|]. split; [|rewrite E3; reflexivity].
  intros k nk Hk Hi. destruct (decide (k = nm :: Originals)) as [->|Hne]; [reflexivity|].
  rewrite lookup_insert_ne in Hk by congruence. exfalso. exact (Hun3 _ _ Hk Hi).
Qed.

Lemma instantiate_body_None h o :
  filter (fun p => matches (ChildOf Originals) p && is_transform (nodes h) p) (selection h) = [o] ->
  instantiate_body None h = instantiate_body (Some o) h.
Proof.
  intros Hsel. unfold instantiate_body. unfold bind at 1 3. unfold bind at 1.
  unfold ls_sl_transform. rewrite Hsel. reflexivity.
Qed.

Lemma instantiateOriginal_None h o :
  filter (fun p => matches (ChildOf Originals) p && is_transform (nodes h) p) (selection h) = [o] ->
  instantiateOriginal None h = instantiateOriginal (Some o) h.
Proof.
  intros Hsel. rewrite !instantiateOriginal_unfold.
  rewrite (instantiate_body_None _ o); [reflexivity|exact Hsel].
Qed.

Lemma initializeOriginal_Ok h (x : unit) h' :
  initializeOriginal h = (Ok x, h') ->
  exists h0 h5 cs h6,
    nodes h0 = nodes h /\ selection h0 = selection h /\ stamp h0 = stamp h /\
    initialize_steps h0 = (Ok tt, h5) /\
    instantiateOriginal None h5 = (Ok cs, h6) /\
    nodes h' = nodes h6.
Proof.
  intros H. unfold initializeOriginal in H.
  apply bind_Ok in H as (u0 & h0 & H0 & H). injection H0 as _ E0.
  apply bind_Ok in H as (os & h0' & H0 & H). injection H0 as _ <-.
  unfold try_except_else in H.
  destruct ((initialize_steps;;; instantiateOriginal None;;; ret tt) h0) as [[a|e] h1] eqn:Hb.
  - apply bind_Ok in Hb as ([] & h5 & H5 & Hb). apply bind_Ok in Hb as (cs & h6 & H6 & Hb).
    apply ret_Ok in Hb as [_ ->]. injection H as _ <-.
    exists h0, h5, cs, h6.
    split; [rewrite <- E0; reflexivity|]. split; [rewrite <- E0; reflexivity|].
    split; [rewrite <- E0; reflexivity|]. split; [exact H5|]. split; [exact H6|reflexivity].
  - discriminate H.
Qed.

End PublishFacts.

(** ** Facts about the helpers *)

Module HelperFacts.
Import Affine Maya Layout Props AffineFacts SceneFacts CmdFacts LocatorFacts FrameFacts UndoFacts
  LookupFacts InstFacts TreeFacts LoopFacts PhaseFacts PlacementFacts PublishFacts.
Local Open Scope cmds_scope.
Implicit Types (p q c k r t s old : dag) (m : gmap dag Node) (h : Host) (st : nat) (a : affine)
  (n : Node) (L i : string) (f : Node -> Node).

Lemma edit_None cmd ok f p h :
  nodes h !! p = None -> edit cmd ok f p h = (Raise (HostError cmd), h).
Proof. intros Hn. unfold edit. rewrite Hn. reflexivity. Qed.

Lemma edit_refused cmd ok f p h n :
  nodes h !! p = Some n -> ok n = false -> edit cmd ok f p h = (Raise (HostError cmd), h).
Proof. intros Hn Hok. unfold edit. rewrite Hn, Hok. reflexivity. Qed.

Lemma lockTransform_run p h n :
  nodes h !! p = Some n -> lockN n = false ->
  lockTransform p h = (Ok tt, with_nodes (<[p := lock_node n]> (nodes h)) h).
Proof.
  intros Hn L. unfold lockTransform, lockNode, setAttr_lock.
  unfold bind at 1. rewrite (edit_run _ _ _ _ _ _ Hn); [|cbn; rewrite L; reflexivity].
  unfold bind at 1. erewrite edit_run; [|cbn; apply lookup_insert_eq|cbn; rewrite L; reflexivity].
  unfold bind at 1. erewrite edit_run; [|cbn; apply lookup_insert_eq|cbn; rewrite L; reflexivity].
  erewrite edit_run; [|cbn; apply lookup_insert_eq|reflexivity].
  unfold with_nodes. cbn. rewrite !insert_insert_eq. reflexivity.
Qed.

Lemma lockTransform_Raise p h e h' :
  lockTransform p h = (Raise e, h') ->
  h' = h /\ e = HostError "setAttr" /\
  (nodes h !! p = None \/ exists n, nodes h !! p = Some n /\ lockN n = true).
Proof.
  intros H. destruct (nodes h !! p) as [n|] eqn:Hn.
  - destruct (lockN n) eqn:L.
    + unfold lockTransform, setAttr_lock in H. unfold bind at 1 in H.
      rewrite (edit_refused _ _ _ _ _ _ Hn) in H by (rewrite L; reflexivity).
      injection H as <- <-. eauto 6.
    + rewrite (lockTransform_run _ _ _ Hn L) in H. discriminate H.
  - unfold lockTransform, setAttr_lock in H. unfold bind at 1 in H.
    rewrite (edit_None _ _ _ _ _ Hn) in H. injection H as <- <-. auto.
Qed.

Lemma unlockTransform_Raise p h e h' :
  unlockTransform p h = (Raise e, h') ->
  h' = h /\ e = HostError "lockNode" /\ nodes h !! p = None.
Proof.
  intros H. destruct (nodes h !! p) as [n|] eqn:Hn.
  - rewrite (unlockTransform_run _ _ _ Hn) in H. discriminate H.
  - unfold unlockTransform, lockNode in H. unfold bind at 1 in H.
    rewrite (edit_None _ _ _ _ _ Hn) in H. injection H as <- <-. auto.
Qed.

Lemma unlock_lock_node n : unlocked n -> unlock_node (lock_node n) = n.
Proof. destruct n. intros (H1 & H2 & H3 & H4). cbn in *. subst. reflexivity. Qed.


Lemma addIdentifier_run p i h n :
  nodes h !! p = Some n -> lockN n = false ->
  addIdentifier p i h = (Ok tt, with_nodes (<[p := with_ident (Some i) n]> (nodes h)) h).
Proof.
  intros Hn L. unfold addIdentifier, objExists_identifier, has_identifier.
  unfold bind at 1. rewrite Hn.
  unfold deleteAttr_identifier, addAttr_identifier, setAttr_identifier.
  destruct (ident n) as [v|] eqn:Ei.
  - unfold bind at 1. rewrite (edit_run _ _ _ _ _ _ Hn); [|rewrite L, Ei; reflexivity].
    unfold bind at 1. erewrite edit_run; [|cbn; apply lookup_insert_eq|cbn; rewrite L; reflexivity].
    erewrite edit_run; [|cbn; apply lookup_insert_eq|reflexivity].
    unfold with_nodes. cbn. rewrite !insert_insert_eq. reflexivity.
  - unfold bind at 1, ret at 1.
    unfold bind at 1. rewrite (edit_run _ _ _ _ _ _ Hn); [|rewrite L, Ei; reflexivity].
    erewrite edit_run; [|cbn; apply lookup_insert_eq|reflexivity].
    unfold with_nodes. cbn. rewrite !insert_insert_eq. destruct n; cbn in *; subst; reflexivity.
Qed.

Lemma addIdentifier_Raise p i h e h' :
  addIdentifier p i h = (Raise e, h') ->
  h' = h /\ (nodes h !! p = None \/ exists n, nodes h !! p = Some n /\ lockN n = true).
Proof.
  intros H. destruct (nodes h !! p) as [n|] eqn:Hn.
  - destruct (lockN n) eqn:L.
    + split; [|eauto]. unfold addIdentifier, objExists_identifier, has_identifier in H.
      unfold bind at 1 in H. rewrite Hn in H.
      unfold deleteAttr_identifier, addAttr_identifier in H.
      destruct (ident n) as [v|] eqn:Ei.
      * unfold bind at 1 in H.
        rewrite (edit_refused _ _ _ _ _ _ Hn) in H by (rewrite L; reflexivity).
        injection H as _ <-. reflexivity.
      * unfold bind at 1, ret at 1 in H. unfold bind at 1 in H.
        rewrite (edit_refused _ _ _ _ _ _ Hn) in H by (rewrite L; reflexivity).
        injection H as _ <-. reflexivity.
    + rewrite (addIdentifier_run _ _ _ _ Hn L) in H. discriminate H.
  - split; [|auto]. unfold addIdentifier, objExists_identifier, has_identifier in H.
    unfold bind at 1 in H. rewrite Hn in H. unfold bind at 1, ret at 1 in H.
    unfold addAttr_identifier in H. unfold bind at 1 in H.
    rewrite (edit_None _ _ _ _ _ Hn) in H. injection H as _ <-. reflexivity.
Qed.

End HelperFacts.

(** ** Facts about the lookups *)

Module MoreFacts.
Import Affine Maya Layout Props AffineFacts SceneFacts CmdFacts LocatorFacts FrameFacts UndoFacts
  LookupFacts InstFacts TreeFacts LoopFacts PhaseFacts PlacementFacts PublishFacts.
Import HelperFacts.
Local Open Scope cmds_scope.
Implicit Types (p q c k r t s old : dag) (m : gmap dag Node) (h : Host) (st : nat) (a : affine)
  (n : Node) (L i : string) (f : Node -> Node).

Lemma with_nodes_id h : with_nodes (nodes h) h = h.
Proof. destruct h. reflexivity. Qed.

Lemma findOriginal_loop_head i m (l : list dag) h :
  nodes h = m ->
  findOriginal_loop i
    (map identifier_of (filter (fun p => matches (ChildOf Originals) p && has_identifier m p) l)) h
  = (Ok (head (filter (fun p => matches (ChildOf Originals) p
                                && bool_decide (ident <$> m !! p = Some (Some i))) l)), h).
Proof.
  intros Hm. induction l as [|k l IH]; [reflexivity|].
  destruct (matches (ChildOf Originals) k) eqn:Ek.
  2:{ rewrite !filter_cons_False by (rewrite Ek; exact id). exact IH. }
  unfold has_identifier at 1.
  destruct (m !! k) as [n|] eqn:En.
  2:{ rewrite !filter_cons_False; [exact IH| |].
      - rewrite Ek, En. cbn. rewrite bool_decide_eq_false_2; [exact id|discriminate].
      - unfold has_identifier. rewrite Ek, En. exact id. }
  destruct (ident n) as [v|] eqn:Ev.
  2:{ rewrite !filter_cons_False; [exact IH| |].
      - rewrite Ek, En. cbn. rewrite Ev. rewrite bool_decide_eq_false_2; [exact id|discriminate].
      - unfold has_identifier. rewrite Ek, En, Ev. exact id. }
  rewrite (filter_cons_True (fun p => matches (ChildOf Originals) p && has_identifier m p));
    [|unfold has_identifier; rewrite Ek, En, Ev; exact I].
  cbn [map findOriginal_loop]. unfold bind at 1.
  rewrite (getAttr_Some (identifier_of k) h n v); [|cbn; rewrite Hm; exact En|exact Ev].
  destruct (String.eqb v i) eqn:E.
  - apply String.eqb_eq in E. subst v.
    rewrite filter_cons_True; [reflexivity|].
    rewrite Ek, En. cbn. rewrite Ev. rewrite bool_decide_eq_true_2; [exact I|reflexivity].
  - apply String.eqb_neq in E.
    rewrite filter_cons_False; [exact IH|].
    rewrite Ek, En. cbn. rewrite Ev. rewrite bool_decide_eq_false_2; [exact id|congruence].
Qed.

Lemma xform_q_rp_None p h :
  nodes h !! p = None -> xform_q_rp p h = (Raise (HostError "xform"), h).
Proof. intros Hn. unfold xform_q_rp. rewrite Hn. reflexivity. Qed.

Lemma matrixFromLocators_Raise node h e h' :
  matrixFromLocators node h = (Raise e, h') ->
  h' = h /\ e = HostError "xform" /\ ~ has_locators (nodes h) node.
Proof.
  intros H.
  destruct (nodes h !! ("X"%string :: node)) as [nx|] eqn:HX.
  2:{ unfold matrixFromLocators in H. unfold bind at 1 in H.
      rewrite (xform_q_rp_None _ _ HX) in H. injection H as <- <-.
      split; [reflexivity|]. split; [reflexivity|]. intros (Hx & _). rewrite HX in Hx.
      destruct Hx as [? Hx]. discriminate Hx. }
  destruct (nodes h !! ("Y"%string :: node)) as [ny|] eqn:HY.
  2:{ unfold matrixFromLocators in H. unfold bind at 1 in H.
      rewrite (xform_q_rp_Some _ _ (mk_is_Some _ _ HX)) in H. unfold bind at 1 in H.
      rewrite (xform_q_rp_None _ _ HY) in H. injection H as <- <-.
      split; [reflexivity|]. split; [reflexivity|]. intros (_ & Hy & _). rewrite HY in Hy.
      destruct Hy as [? Hy]. discriminate Hy. }
  destruct (nodes h !! ("Z"%string :: node)) as [nz|] eqn:HZ.
  2:{ unfold matrixFromLocators in H. unfold bind at 1 in H.
      rewrite (xform_q_rp_Some _ _ (mk_is_Some _ _ HX)) in H. unfold bind at 1 in H.
      rewrite (xform_q_rp_Some _ _ (mk_is_Some _ _ HY)) in H. unfold bind at 1 in H.
      rewrite (xform_q_rp_None _ _ HZ) in H. injection H as <- <-.
      split; [reflexivity|]. split; [reflexivity|]. intros (_ & _ & Hz & _). rewrite HZ in Hz.
      destruct Hz as [? Hz]. discriminate Hz. }
  destruct (nodes h !! ("Zero"%string :: node)) as [no|] eqn:HO.
  2:{ unfold matrixFromLocators in H. unfold bind at 1 in H.
      rewrite (xform_q_rp_Some _ _ (mk_is_Some _ _ HX)) in H. unfold bind at 1 in H.
      rewrite (xform_q_rp_Some _ _ (mk_is_Some _ _ HY)) in H. unfold bind at 1 in H.
      rewrite (xform_q_rp_Some _ _ (mk_is_Some _ _ HZ)) in H. unfold bind at 1 in H.
      rewrite (xform_q_rp_None _ _ HO) in H. injection H as <- <-.
      split; [reflexivity|]. split; [reflexivity|]. intros (_ & _ & _ & Ho). rewrite HO in Ho.
      destruct Ho as [? Ho]. discriminate Ho. }
  rewrite matrixFromLocators_Some in H; [discriminate H|].
  unfold has_locators. rewrite HX, HY, HZ, HO. eauto.
Qed.

(** [findOriginal] returns the first child of [|Originals] that carries the
    identifier. *)
Lemma findOriginal_head i h :
  findOriginal i h = (Ok (head (carriers (ChildOf Originals) (nodes h) i)), h).
Proof.
  unfold findOriginal, bind, ls_identifier, carriers.
  apply findOriginal_loop_head. reflexivity.
Qed.

End MoreFacts.

(** ** Facts about failing runs and the undo queue *)

Module ErrorFacts.
Import Affine Maya Layout Props AffineFacts SceneFacts CmdFacts LocatorFacts FrameFacts UndoFacts
  LookupFacts InstFacts TreeFacts LoopFacts PhaseFacts PlacementFacts PublishFacts.
Import HelperFacts MoreFacts.
Local Open Scope cmds_scope.
Implicit Types (p q c k r t s old : dag) (m : gmap dag Node) (h : Host) (st : nat) (a : affine)
  (n : Node) (L i : string) (f : Node -> Node).

Lemma quiet_updateOriginal : quiet updateOriginal.
Proof. unfold updateOriginal. quiet. Qed.

Lemma quiet_tail_of_updateInstance (copy : list dag) instance :
  quiet (matrix <- matrixFromLocators instance ;;
         xform_set_matrix copy matrix ;;;
         delete instance ;;;
         copy <- (match tail instance with
                  | [] => ret copy
                  | _ => parent copy (tail instance)
                  end) ;;
         copy <- rename copy (hd ""%string instance) ;;
         ret tt).
Proof. quiet. Qed.

Lemma updateInstance_log new i pl h (x : unit) h' :
  updateInstance new i pl h = (Ok x, h') ->
  undoLog h' = undoLog h \/ undoLog h' = undoLog h ++ [OpenChunk; CloseChunk].
Proof.
  unfold updateInstance. destruct (startswith_Originals (plug_node pl)).
  { intros [= _ <-]. left. reflexivity. }
  intros H. apply bind_Ok in H as (v & h0 & H0 & H). apply getAttr_Ok in H0 as [-> _].
  destruct (negb (String.eqb v i)).
  { injection H as _ <-. left. reflexivity. }
  apply bind_Ok in H as (copy & h1 & H1 & H).
  apply instantiateOriginal_log in H1. right.
  rewrite (quiet_tail_of_updateInstance _ _ _ _ _ H). exact H1.
Qed.

Lemma for_each_log new i l : forall h h',
  for_each l (updateInstance new i) h = (Ok tt, h') ->
  exists k : nat, undoLog h' = undoLog h ++ concat (replicate k [OpenChunk; CloseChunk]).
Proof.
  induction l as [|pl l IH]; intros h h' H.
  - apply ret_Ok in H as [_ ->]. exists 0%nat. cbn. rewrite app_nil_r. reflexivity.
  - simpl in H. apply bind_Ok in H as (x & h1 & H1 & H).
    apply IH in H as (k & Hk). apply updateInstance_log in H1 as [E|E].
    + exists k. rewrite Hk, E. reflexivity.
    + exists (S k). rewrite Hk, E. cbn. rewrite <- app_assoc. reflexivity.
Qed.

Lemma addIdentifier_refused p i h :
  (nodes h !! p = None \/ exists n, nodes h !! p = Some n /\ lockN n = true) ->
  addIdentifier p i h
  = (Raise (HostError (if has_identifier (nodes h) p then "deleteAttr" else "addAttr")), h).
Proof.
  intros Hc. unfold addIdentifier, objExists_identifier. unfold bind at 1.
  unfold deleteAttr_identifier, addAttr_identifier.
  destruct Hc as [Hn|(n & Hn & L)].
  - unfold has_identifier. rewrite Hn. unfold bind at 1, ret at 1. unfold bind at 1.
    rewrite (edit_None _ _ _ _ _ Hn). reflexivity.
  - unfold has_identifier. rewrite Hn. destruct (ident n) as [v|] eqn:Ei.
    + unfold bind at 1. rewrite (edit_refused _ _ _ _ _ _ Hn) by (rewrite L; reflexivity).
      reflexivity.
    + unfold bind at 1, ret at 1. unfold bind at 1.
      rewrite (edit_refused _ _ _ _ _ _ Hn) by (rewrite L; reflexivity). reflexivity.
Qed.

End ErrorFacts.

(** ** Facts about long names *)

Module NameFacts.
Import Affine Maya Layout Props Names.
Import Stdlib.Strings.Ascii.
Local Open Scope cmds_scope.

Lemma render_cons (n : string) (t : dag) : render (n :: t) = (render t +:+ "|" +:+ n)%string.
Proof. unfold render. simpl. rewrite fold_left_app. reflexivity. Qed.

Lemma cut_last_None sep s : occurs sep s = false -> cut_last sep s = None.
Proof.
  induction s as [|a s IH]; [reflexivity|]. simpl. intros H.
  apply orb_false_iff in H as [Ha Hs]. rewrite (IH Hs), Ha. reflexivity.
Qed.

Lemma cut_last_app sep (a n : string) :
  occurs sep n = false -> cut_last sep (a +:+ String sep n) = Some (a, n).
Proof.
  intros Hn. induction a as [|x a IH]; simpl.
  - rewrite (cut_last_None _ _ Hn), Ascii.eqb_refl. reflexivity.
  - rewrite IH. reflexivity.
Qed.

Lemma cut_first_app sep (a r : string) :
  occurs sep a = false -> cut_first sep (a +:+ String sep r) = Some (a, r).
Proof.
  induction a as [|x a IH]; simpl.
  - intros _. rewrite Ascii.eqb_refl. reflexivity.
  - intros H. apply orb_false_iff in H as [Hx Ha]. rewrite Hx, (IH Ha). reflexivity.
Qed.

Lemma occurs_app c (a b : string) : occurs c (a +:+ b) = occurs c a || occurs c b.
Proof. induction a as [|x a IH]; simpl; [reflexivity|]. rewrite IH, orb_assoc. reflexivity. Qed.

Lemma occurs_render p : plain p -> occurs "."%char (render p) = false.
Proof.
  induction p as [|n t IH]; [reflexivity|]. intros H. apply Forall_cons in H as [[_ Hn] Ht].
  rewrite render_cons, !occurs_app, (IH Ht), Hn. reflexivity.
Qed.

Lemma render_nil_iff p : render p = ""%string <-> p = [].
Proof.
  split; [|intros ->; reflexivity]. destruct p as [|n t]; [reflexivity|].
  rewrite render_cons. destruct (render t); discriminate.
Qed.

Lemma string_app_nil_r (s : string) : (s +:+ "")%string = s.
Proof.
  induction s as [|x s IH]; [reflexivity|].
  change (String x (s +:+ "") = String x s). f_equal. exact IH.
Qed.

Lemma string_app_assoc (a b c : string) : ((a +:+ b) +:+ c = a +:+ (b +:+ c))%string.
Proof.
  induction a as [|x a IH]; [reflexivity|].
  change (String x ((a +:+ b) +:+ c) = String x (a +:+ (b +:+ c))). f_equal. exact IH.
Qed.

Lemma fold_render (l : list string) (acc : string) :
  fold_left (fun acc n => acc +:+ "|" +:+ n)%string l acc
  = (acc +:+ fold_left (fun acc n => acc +:+ "|" +:+ n)%string l "")%string.
Proof.
  revert acc. induction l as [|n l IH]; intros acc; simpl.
  - symmetry. apply string_app_nil_r.
  - rewrite IH, (IH ("" +:+ "|" +:+ n)%string). apply string_app_assoc.
Qed.

Lemma startswith_cons (a b : ascii) (s pre : string) :
  startswith (String b s) (String a pre) = Ascii.eqb a b && startswith s pre.
Proof. reflexivity. Qed.

Lemma startswith_name (a root R : string) :
  occurs "|"%char a = false -> occurs "|"%char root = false ->
  R = ""%string \/ (exists c R', R = String c R' /\ occurs c a = false) ->
  startswith (root +:+ R) (a +:+ "|") = String.eqb root a && startswith R "|".
Proof.
  revert root. induction a as [|x a IH]; intros root Ha Hr HR.
  - destruct root as [|c r].
    + reflexivity.
    + simpl in Hr. apply orb_false_iff in Hr as [Hc _].
      change (startswith (String c (r +:+ R)) (String "|" "") = false).
      rewrite startswith_cons, Ascii.eqb_sym, Hc. reflexivity.
  - simpl in Ha. apply orb_false_iff in Ha as [Hx Ha].
    destruct root as [|c r].
    + change (startswith R (String x (a +:+ "|")) = false && startswith R "|").
      destruct HR as [->|(c & R' & -> & Hc)]; [reflexivity|].
      simpl in Hc. apply orb_false_iff in Hc as [Hc _].
      rewrite startswith_cons, Hc. reflexivity.
    + simpl in Hr. apply orb_false_iff in Hr as [_ Hr].
      change (startswith (String c (r +:+ R)) (String x (a +:+ "|"))
              = String.eqb (String c r) (String x a) && startswith R "|").
      rewrite startswith_cons. cbn [String.eqb]. rewrite (Ascii.eqb_sym c x).
      destruct (Ascii.eqb x c); [|reflexivity]. apply IH; [assumption..|].
      destruct HR as [->|(c' & R' & -> & Hc)]; [left; reflexivity|right].
      simpl in Hc. apply orb_false_iff in Hc as [_ Hc]. eauto.
Qed.

Lemma plug_shape (l : list string) :
  let R := (fold_left (fun acc n => acc +:+ "|" +:+ n)%string l ""%string +:+ ".identifier")%string in
  (exists c R', R = String c R' /\ occurs c "Originals" = false) /\
  startswith R "|" = match l with [] => false | _ => true end.
Proof.
  destruct l as [|n l].
  - split; [|reflexivity]. exists "."%char, "identifier"%string. split; reflexivity.
  - cbn [fold_left]. rewrite fold_render.
    set (F := fold_left _ l ""%string).
    change ((("" +:+ "|" +:+ n) +:+ F) +:+ ".identifier")%string
      with (String "|" ((n +:+ F) +:+ ".identifier")).
    split; [|reflexivity]. eexists _, _. split; reflexivity.
Qed.

End NameFacts.

(** ** Facts about what the publication leaves alone *)

Module OutsideFacts.
Import Affine Maya Layout Props AffineFacts SceneFacts CmdFacts LocatorFacts FrameFacts UndoFacts
  LookupFacts InstFacts TreeFacts LoopFacts PhaseFacts PlacementFacts PublishFacts.
Import HelperFacts MoreFacts ErrorFacts.
Local Open Scope cmds_scope.
Implicit Types (p q c k r t s old : dag) (m : gmap dag Node) (h : Host) (st : nat) (a : affine)
  (n : Node) (L i : string) (f : Node -> Node).

Lemma same_outside_refl p m : same_outside p m m.
Proof. intros k _. reflexivity. Qed.

Lemma same_outside_trans p m m1 m2 :
  same_outside p m m1 -> same_outside p m1 m2 -> same_outside p m m2.
Proof. intros H1 H2 k Hk. rewrite (H2 k Hk). apply H1, Hk. Qed.

Lemma same_outside_insert p m q (v : Node) :
  p `suffix_of` q -> same_outside p m (<[q := v]> m).
Proof. intros Hq k Hk. apply lookup_insert_ne. intros ->. contradiction. Qed.

Lemma makeLocator_outside name node h c h' :
  makeLocator name node h = (Ok c, h') ->
  same_outside node (nodes h) (nodes h') /\ node `suffix_of` c.
Proof.
  intros H. apply makeLocator_Ok in H. cbv zeta in H. destruct H as (_ & _ & Ec & ->).
  cbn [nodes].
  assert (node `suffix_of` c) as Hc by (rewrite Ec; apply suffix_cons_r; reflexivity).
  split; [|exact Hc].
  eapply same_outside_trans; [apply same_outside_insert, Hc|].
  apply same_outside_insert, suffix_cons_r, Hc.
Qed.

Lemma edit_outside cmd ok f p q h (x : unit) h' :
  edit cmd ok f q h = (Ok x, h') -> p `suffix_of` q -> same_outside p (nodes h) (nodes h').
Proof.
  intros H Hq. apply edit_Ok in H as (n & _ & _ & ->). apply same_outside_insert, Hq.
Qed.

Lemma hide_outside p (qs : list dag) : forall h (x : unit) h',
  hide qs h = (Ok x, h') -> Forall (fun q => p `suffix_of` q) qs ->
  same_outside p (nodes h) (nodes h').
Proof.
  unfold hide. intros h x h' H. apply bind_Ok in H as (us & h1 & H & Hr).
  apply ret_Ok in Hr as [_ ->]. revert h us h1 H.
  induction qs as [|q qs IH]; intros h us h1 H Hall.
  - apply ret_Ok in H as [_ ->]. apply same_outside_refl.
  - apply Forall_cons in Hall as [Hq Hall]. simpl in H.
    apply bind_Ok in H as (u & h2 & H2 & H). apply bind_Ok in H as (us' & h3 & H3 & Hr).
    apply ret_Ok in Hr as [_ ->].
    eapply same_outside_trans; [exact (edit_outside _ _ _ _ _ _ _ _ H2 Hq)|].
    exact (IH _ _ _ H3 Hall).
Qed.

Lemma makeLocators_outside node h (x : unit) h' :
  makeLocators node h = (Ok x, h') -> same_outside node (nodes h) (nodes h').
Proof.
  intros H. unfold makeLocators, setAttr_translate in H.
  apply bind_Ok in H as (zero & h1 & H1 & H). apply makeLocator_outside in H1 as [O1 S1].
  apply bind_Ok in H as (X & h2 & H2 & H). apply makeLocator_outside in H2 as [O2 S2].
  apply bind_Ok in H as (Y & h3 & H3 & H). apply makeLocator_outside in H3 as [O3 S3].
  apply bind_Ok in H as (Z & h4 & H4 & H). apply makeLocator_outside in H4 as [O4 S4].
  apply bind_Ok in H as (u1 & h5 & H5 & H). apply (edit_outside _ _ _ node) in H5; [|exact S2].
  apply bind_Ok in H as (u2 & h6 & H6 & H). apply (edit_outside _ _ _ node) in H6; [|exact S3].
  apply bind_Ok in H as (u3 & h7 & H7 & H). apply (edit_outside _ _ _ node) in H7; [|exact S4].
  apply (hide_outside node) in H; [|repeat constructor; assumption].
  repeat (eapply same_outside_trans; [eassumption|]). apply same_outside_refl.
Qed.

Lemma instantiateOriginal_None_Ok h (cs : list dag) h' :
  instantiateOriginal None h = (Ok cs, h') ->
  exists o, instantiateOriginal (Some o) h = (Ok cs, h').
Proof.
  rewrite instantiateOriginal_unfold.
  destruct (instantiate_body None _) as [[a|e] h1] eqn:E; [|discriminate].
  intros H. unfold instantiate_body in E. apply bind_Ok in E as (o & hx & E1 & E2).
  exists o. rewrite instantiateOriginal_unfold.
  apply bind_Ok in E1 as (sel & h2 & Hs & E1). injection Hs as _ <-.
  apply bind_Ok in E1 as (u & h3 & Hu & E1).
  destruct (negb _); [discriminate Hu|]. apply ret_Ok in Hu as [_ ->].
  apply item0_Ok in E1 as [-> _].
  unfold instantiate_body. unfold bind at 1, ret at 1. rewrite E2. exact H.
Qed.

Lemma group_block_Ok h (x : unit) h' :
  ((if negb (match nodes h !! Originals with Some _ => true | None => false end)
    then originals <- group_empty "Originals" ;; lockTransform originals ;;; hide [originals]
    else ret tt) h) = (Ok x, h') ->
  (is_Some (nodes h !! Originals) /\ h' = h) \/
  (nodes h !! Originals = None /\
   exists g : string,
     g = fresh_name "Originals" (taken (nodes h) []) /\
     nodes h' = <[ [g] := with_visible false (lock_node (fresh_node (stamp h, []) Transform)) ]>
                  (nodes h)).
Proof.
  destruct (nodes h !! Originals) as [n|] eqn:En; cbn [negb].
  - intros H. apply ret_Ok in H as [_ ->]. left. eauto.
  - intros H. right. split; [reflexivity|].
    apply bind_Ok in H as (g & h1 & H1 & H). unfold group_empty in H1. injection H1 as <- <-.
    apply bind_Ok in H as (u & h2 & H2 & H). apply lockTransform_Ok in H2 as (n1 & Hn1 & _ & ->).
    cbn [nodes] in Hn1. rewrite lookup_insert_eq in Hn1. injection Hn1 as <-.
    unfold hide in H. simpl in H.
    apply bind_Ok in H as (us & h3 & H & Hr). apply ret_Ok in Hr as [_ ->].
    apply bind_Ok in H as (v & h4 & H4 & H). apply edit_Ok in H4 as (n4 & Hn4 & _ & ->).
    apply bind_Ok in H as (vs & h5 & H & Hr). apply ret_Ok in Hr as [_ ->].
    apply ret_Ok in H as [_ ->].
    cbn [nodes with_nodes] in *. rewrite lookup_insert_eq in Hn4. injection Hn4 as <-.
    eexists. split; [reflexivity|]. rewrite !insert_insert_eq. reflexivity.
Qed.

Lemma initialize_steps_frame h (x : unit) h5 p :
  initialize_steps h = (Ok x, h5) ->
  selected_transforms h = [p] ->
  (forall k nk, nodes h !! k = Some nk -> ~ p `suffix_of` k -> nodes h5 !! k = Some nk) /\
  (exists g, nodes h5 !! Originals = Some g /\
             (nodes h !! Originals = None ->
              locked g /\ visible g = false /\ kind g = Transform /\ ident g = None)).
Proof.
  intros H Hsel. unfold initialize_steps in H.
  apply bind_Ok in H as (sel & h0 & H0 & H). injection H0 as Hsel' <-.
  change (selected_transforms h = sel) in Hsel'. rewrite Hsel in Hsel'. subst sel.
  apply bind_Ok in H as (u0 & h0 & H0 & H). apply ret_Ok in H0 as [_ ->].
  apply bind_Ok in H as (p0 & h0 & H0 & H). apply ret_Ok in H0 as [-> ->].
  apply bind_Ok in H as (u1 & s1 & Hml & H). apply makeLocators_outside in Hml.
  apply bind_Ok in H as (e & h0 & H0 & H). injection H0 as <- <-.
  apply bind_Ok in H as (u2 & s2 & Hgr & H). apply group_block_Ok in Hgr.
  apply bind_Ok in H as (sel & s3 & Hpar & H).
  eapply parent_Ok in Hpar as (p' & -> & Hpar); [|reflexivity].
  apply parent_one_Ok in Hpar as (n2 & Hn2 & L2 & HO & NpO & _ & Ep' & E3).
  apply bind_Ok in H as (p'' & h0 & H0 & H). apply ret_Ok in H0 as [-> ->].
  apply bind_Ok in H as (u4 & s4 & Hid & H).
  apply addIdentifier_Ok in Hid as (n3 & Hn3 & L3 & E4).
  apply lockTransform_Ok in H as (n4 & Hn4 & L4 & E5).
  destruct HO as [HO|HO]; [discriminate HO|].
  assert (forall k, is_Some (nodes s2 !! k) -> ~ p' `suffix_of` k) as Fp'
    by (intros k Hk; rewrite Ep'; apply fresh_name_avoids, Hk).
  assert (forall k, is_Some (nodes s2 !! k) -> ~ p `suffix_of` k ->
                    nodes h5 !! k = nodes s2 !! k) as Hafter.
  { intros k Hk Npk. rewrite E5, E4. cbn [nodes with_nodes].
    assert (p' <> k) as Hne by (intros <-; apply (Fp' p' Hk); reflexivity).
    rewrite !lookup_insert_ne by exact Hne. rewrite E3. cbn [nodes].
    apply lookup_move_other; [exact Npk|apply Fp', Hk]. }
  split.
  - intros k nk Hk Npk. rewrite Hafter; [| |exact Npk].
    + destruct Hgr as [[_ ->]|(_ & g & Eg & ->)]; [rewrite (Hml k Npk); exact Hk|].
      rewrite lookup_insert_ne; [rewrite (Hml k Npk); exact Hk|].
      intros E. apply (fresh_name_avoids (nodes s1) [] "Originals" k).
      * rewrite (Hml k Npk). eauto.
      * rewrite <- Eg, E. reflexivity.
    + destruct Hgr as [[_ ->]|(_ & g & Eg & ->)]; [rewrite (Hml k Npk); eauto|].
      rewrite lookup_insert_ne; [rewrite (Hml k Npk); eauto|].
      intros E. apply (fresh_name_avoids (nodes s1) [] "Originals" k).
      * rewrite (Hml k Npk). eauto.
      * rewrite <- Eg, E. reflexivity.
  - destruct HO as [g Hg]. exists g. split; [rewrite (Hafter _ (mk_is_Some _ _ Hg) NpO); exact Hg|].
    intros Hnone. destruct Hgr as [[[g' Hg'] _]|(_ & gn & Eg & E2)].
    + rewrite (Hml _ NpO), Hnone in Hg'. discriminate Hg'.
    + rewrite E2 in Hg. destruct (decide ([gn] = Originals)) as [E|E].
      * rewrite E, lookup_insert_eq in Hg. injection Hg as <-. repeat split.
      * rewrite lookup_insert_ne, (Hml _ NpO), Hnone in Hg by exact E. discriminate Hg.
Qed.

Lemma initializeOriginal_frame_aux h (x : unit) h' p :
  initializeOriginal h = (Ok x, h') ->
  selected_transforms h = [p] ->
  (forall k nk, nodes h !! k = Some nk -> ~ p `suffix_of` k -> nodes h' !! k = Some nk) /\
  (exists g, nodes h' !! Originals = Some g /\
             (nodes h !! Originals = None ->
              locked g /\ visible g = false /\ kind g = Transform /\ ident g = None)).
Proof.
  intros H Hsel.
  apply initializeOriginal_Ok in H as (h0 & h5 & cs & h6 & E0 & Es0 & _ & H5 & H6 & ->).
  apply initialize_steps_frame with (p := p) in H5;
    [|unfold selected_transforms; rewrite E0, Es0; exact Hsel].
  rewrite E0 in H5. destruct H5 as [Hk (g & Hg & Hnew)].
  apply instantiateOriginal_None_Ok in H6 as (o & H6).
  apply instantiateOriginal_Ok in H6 as (no & z & _ & _ & _ & Cz & M6 & _).
  assert (forall k nk, nodes h5 !! k = Some nk -> nodes h6 !! k = Some nk) as Hkeep.
  { intros k nk Hk5. rewrite M6, lookup_graft.
    assert (strip [z] k = None) as ->; [|exact Hk5].
    apply strip_None, (clear_avoids _ _ _ Cz). eauto. }
  split.
  - intros k nk Hk0 Npk. apply Hkeep, (Hk k nk Hk0 Npk).
  - exists g. split; [apply Hkeep, Hg|exact Hnew].
Qed.

End OutsideFacts.

(** ** Facts about the published original *)

Module RoundTripFacts.
Import Affine Maya Layout Props AffineFacts SceneFacts CmdFacts LocatorFacts FrameFacts UndoFacts
  LookupFacts InstFacts TreeFacts LoopFacts PhaseFacts PlacementFacts PublishFacts.
Import HelperFacts MoreFacts ErrorFacts OutsideFacts.
Local Open Scope cmds_scope.
Implicit Types (p q c k r t s old : dag) (m : gmap dag Node) (h : Host) (st : nat) (a : affine)
  (n : Node) (L i : string) (f : Node -> Node).

Lemma singleton_list {A} (l : list A) (x : A) :
  NoDup l -> (forall y, y ∈ l <-> y = x) -> l = [x].
Proof.
  intros ND H. destruct l as [|y l].
  - exfalso. apply (elem_of_nil x). apply H. reflexivity.
  - assert (y = x) as -> by (apply H; left).
    destruct l as [|z l]; [reflexivity|]. exfalso.
    assert (z = x) as -> by (apply H; right; left).
    apply NoDup_cons in ND as [ND _]. apply ND. left.
Qed.

Lemma carriers_singleton pat m i p :
  (forall q, (matches pat q = true /\ exists n, m !! q = Some n /\ ident n = Some i) <-> q = p) ->
  carriers pat m i = [p].
Proof.
  intros H. apply singleton_list; [apply NoDup_carriers|].
  intros q. rewrite elem_of_carriers. apply H.
Qed.

(** What [initializeOriginal] leaves, on the hypotheses of its use on a
    transform not yet published. *)
Lemma initializeOriginal_result h h' (nm : string) t np :
  initializeOriginal h = (Ok tt, h') ->
  selected_transforms h = [nm :: t] ->
  nodes h !! (nm :: t) = Some np ->
  untagged nm (nodes h) -> (nm ∉ taken (nodes h) Originals) ->
  exists (z : string) norig ninst,
    nodes h' !! (nm :: Originals) = Some norig /\ ident norig = Some nm /\
    nodes h' !! [z] = Some ninst /\ ident ninst = Some nm /\
    (forall k nk, nodes h' !! k = Some nk -> ident nk = Some nm ->
                  k = nm :: Originals \/ k = [z]).
Proof.
  intros H Hsel Hnp Hun Htk.
  apply initializeOriginal_Ok in H as (h0 & h5 & cs & h6 & E0 & Es0 & _ & H5 & H6 & ->).
  apply initialize_steps_Ok with (nm := nm) (t := t) (np := np) in H5;
    [|unfold selected_transforms; rewrite E0, Es0; exact Hsel|rewrite E0; exact Hnp
     |rewrite E0; exact Hun|rewrite E0; exact Htk].
  destruct H5 as (n5 & Hn5 & Hu5 & Hk5 & Hi5 & Hl5 & Honly & Hs5).
  set (o := nm :: Originals) in *.
  rewrite (instantiateOriginal_None _ o) in H6.
  2:{ rewrite Hs5. rewrite filter_cons_True; [reflexivity|].
      unfold is_transform. rewrite Hn5, Hk5. cbn. rewrite bool_decide_eq_true_2; [exact I|reflexivity]. }
  apply instantiateOriginal_Ok in H6 as (n5' & z & Hn5' & _ & _ & Cz & M6 & _).
  rewrite Hn5 in Hn5'. injection Hn5' as <-.
  set (F := with_local (world (nodes h5) o) ∘ unlock_node) in M6.
  assert (strip [z] o = None) as Eso by (apply strip_None, (clear_avoids _ _ _ Cz); eauto).
  exists z, n5, (F (with_uid (stamp h5, []) n5)).
  split; [rewrite M6, lookup_graft, Eso; exact Hn5|]. split; [exact Hi5|].
  split.
  { rewrite M6, lookup_graft, strip_self, lookup_alter_eq, (lookup_copy_root _ _ _ _ Hn5).
    reflexivity. }
  split; [exact Hi5|].
  intros k nk Hk Hi. rewrite M6, lookup_graft in Hk.
  destruct (strip [z] k) as [r|] eqn:Er; [|left; exact (Honly _ _ Hk Hi)].
  destruct (alter F [] (copy_of (stamp h5) o (nodes h5)) !! r) as [v|] eqn:Ev;
    [|left; exact (Honly _ _ Hk Hi)].
  injection Hk as ->. apply strip_Some in Er. subst k.
  destruct (decide (r = [])) as [->|Hr]; [right; reflexivity|].
  exfalso. rewrite lookup_alter_ne in Ev by congruence. unfold copy_of in Ev.
  rewrite lookup_copy in Ev. destruct (nodes h5 !! app r o) as [v|] eqn:Evo; [|discriminate Ev].
  injection Ev as <-. apply Hr, (app_eq_self_l r o). exact (Honly _ _ Evo Hi).
Qed.

End RoundTripFacts.

(** ** Facts about the moved subtree *)

Module SubtreeFacts.
Import Affine Maya Layout Props AffineFacts SceneFacts CmdFacts LocatorFacts FrameFacts UndoFacts
  LookupFacts InstFacts TreeFacts LoopFacts PhaseFacts PlacementFacts PublishFacts.
Import HelperFacts MoreFacts ErrorFacts OutsideFacts RoundTripFacts.
Local Open Scope cmds_scope.
Implicit Types (p q c k r t s old : dag) (m : gmap dag Node) (h : Host) (st : nat) (a : affine)
  (n : Node) (L i : string) (f : Node -> Node).

Lemma extends_refl m : extends m m.
Proof. intros k _. reflexivity. Qed.

Lemma extends_insert_new m m' q (v : Node) :
  extends m m' -> m !! q = None -> extends m (<[q := v]> m').
Proof.
  intros E Hq k Hk. rewrite lookup_insert_ne; [apply E, Hk|].
  intros ->. rewrite Hq in Hk. destruct Hk as [? Hk]. discriminate Hk.
Qed.

Lemma makeLocator_extends m0 name node h c h' :
  makeLocator name node h = (Ok c, h') ->
  extends m0 (nodes h) ->
  extends m0 (nodes h') /\ m0 !! c = None.
Proof.
  intros H E. apply makeLocator_Ok in H. cbv zeta in H. destruct H as (_ & _ & Ec & ->).
  cbn [nodes].
  set (z0 := fresh_name name (taken (nodes h) [])) in *.
  set (m1 := <[ [(z0 +:+ "Shape")%string; z0] := _ ]> (<[ [z0] := _ ]> (nodes h))) in *.
  assert (forall k, is_Some (m0 !! k) -> ~ c `suffix_of` k) as Hav.
  { intros k Hk. rewrite Ec. apply fresh_name_avoids.
    assert (is_Some (nodes h !! k)) as Hk' by (rewrite (E k Hk); exact Hk).
    unfold m1. destruct (decide (k = [(z0 +:+ "Shape")%string; z0])) as [->|N1].
    { rewrite lookup_insert_eq. eauto. }
    rewrite lookup_insert_ne by congruence.
    destruct (decide (k = [z0])) as [->|N2]; [rewrite lookup_insert_eq; eauto|].
    rewrite lookup_insert_ne by congruence. exact Hk'. }
  assert (forall k, c `suffix_of` k -> m0 !! k = None) as Hnew.
  { intros k Hs. destruct (m0 !! k) eqn:Ek; [|reflexivity]. exfalso. apply (Hav k); eauto. }
  split; [|apply Hnew; reflexivity].
  apply extends_insert_new; [|apply Hnew, suffix_cons_r; reflexivity].
  apply extends_insert_new; [exact E|apply Hnew; reflexivity].
Qed.

Lemma edit_extends m0 cmd ok f q h (x : unit) h' :
  edit cmd ok f q h = (Ok x, h') -> extends m0 (nodes h) -> m0 !! q = None ->
  extends m0 (nodes h').
Proof.
  intros H E Hq. apply edit_Ok in H as (n & _ & _ & ->). apply extends_insert_new; assumption.
Qed.

Lemma hide_extends m0 (qs : list dag) : forall h (x : unit) h',
  hide qs h = (Ok x, h') -> Forall (fun q => m0 !! q = None) qs ->
  extends m0 (nodes h) -> extends m0 (nodes h').
Proof.
  unfold hide. intros h x h' H. apply bind_Ok in H as (us & h1 & H & Hr).
  apply ret_Ok in Hr as [_ ->]. revert h us h1 H.
  induction qs as [|q qs IH]; intros h us h1 H Hall E.
  - apply ret_Ok in H as [_ ->]. exact E.
  - apply Forall_cons in Hall as [Hq Hall]. simpl in H.
    apply bind_Ok in H as (u & h2 & H2 & H). apply bind_Ok in H as (us' & h3 & H3 & Hr).
    apply ret_Ok in Hr as [_ ->].
    apply (IH _ _ _ H3 Hall). exact (edit_extends _ _ _ _ _ _ _ _ H2 E Hq).
Qed.

Lemma makeLocators_extends node h (x : unit) h' :
  makeLocators node h = (Ok x, h') -> extends (nodes h) (nodes h').
Proof.
  intros H. unfold makeLocators, setAttr_translate in H.
  pose proof (extends_refl (nodes h)) as E0.
  apply bind_Ok in H as (zero & h1 & H1 & H).
  apply (makeLocator_extends (nodes h)) in H1 as [E1 N1]; [|exact E0].
  apply bind_Ok in H as (X & h2 & H2 & H).
  apply (makeLocator_extends (nodes h)) in H2 as [E2 N2]; [|exact E1].
  apply bind_Ok in H as (Y & h3 & H3 & H).
  apply (makeLocator_extends (nodes h)) in H3 as [E3 N3]; [|exact E2].
  apply bind_Ok in H as (Z & h4 & H4 & H).
  apply (makeLocator_extends (nodes h)) in H4 as [E4 N4]; [|exact E3].
  apply bind_Ok in H as (u1 & h5 & H5 & H). apply (edit_extends (nodes h)) in H5; [|exact E4|exact N2].
  apply bind_Ok in H as (u2 & h6 & H6 & H). apply (edit_extends (nodes h)) in H6; [|exact H5|exact N3].
  apply bind_Ok in H as (u3 & h7 & H7 & H). apply (edit_extends (nodes h)) in H7; [|exact H6|exact N4].
  apply (hide_extends (nodes h)) in H; [exact H|repeat constructor; assumption|exact H7].
Qed.

Lemma initialize_steps_subtree h (x : unit) h5 p np :
  initialize_steps h = (Ok x, h5) ->
  selected_transforms h = [p] ->
  nodes h !! p = Some np ->
  exists (o : string) n',
    nodes h5 !! (o :: Originals) = Some n' /\
    uid n' = uid np /\ kind n' = kind np /\ visible n' = visible np /\
    ident n' = Some o /\ locked n' /\
    (forall r v, r <> [] -> nodes h !! (app r p) = Some v ->
                 nodes h5 !! (app r (o :: Originals)) = Some v).
Proof.
  intros H Hsel Hnp. unfold initialize_steps in H.
  apply bind_Ok in H as (sel & h0 & H0 & H). injection H0 as Hsel' <-.
  change (selected_transforms h = sel) in Hsel'. rewrite Hsel in Hsel'. subst sel.
  apply bind_Ok in H as (u0 & h0 & H0 & H). apply ret_Ok in H0 as [_ ->].
  apply bind_Ok in H as (p0 & h0 & H0 & H). apply ret_Ok in H0 as [-> ->].
  apply bind_Ok in H as (u1 & s1 & Hml & H). apply makeLocators_extends in Hml.
  apply bind_Ok in H as (e & h0 & H0 & H). injection H0 as <- <-.
  apply bind_Ok in H as (u2 & s2 & Hgr & H). apply group_block_Ok in Hgr.
  apply bind_Ok in H as (sel & s3 & Hpar & H).
  eapply parent_Ok in Hpar as (q' & -> & Hpar); [|reflexivity].
  apply parent_one_Ok in Hpar as (n2 & Hn2 & L2 & HO & NpO & _ & Eq' & E3).
  apply bind_Ok in H as (q2 & h0 & H0 & H). apply ret_Ok in H0 as [-> ->].
  apply bind_Ok in H as (u4 & s4 & Hid & H).
  apply addIdentifier_Ok in Hid as (n3 & Hn3 & L3 & E4).
  apply lockTransform_Ok in H as (n4 & Hn4 & L4 & E5).
  assert (extends (nodes h) (nodes s2)) as E2.
  { destruct Hgr as [[_ ->]|(_ & g & Eg & ->)]; [exact Hml|].
    intros k Hk. rewrite lookup_insert_ne; [apply Hml, Hk|].
    intros E. apply (fresh_name_avoids (nodes s1) [] "Originals" k).
    - rewrite (Hml k Hk). exact Hk.
    - rewrite <- Eg, E. reflexivity. }
  assert (nodes s2 !! p = Some np) as Hp2 by (rewrite (E2 p (mk_is_Some _ _ Hnp)); exact Hnp).
  rewrite Hp2 in Hn2. injection Hn2 as <-.
  set (o := fresh_name (hd ""%string p) (taken (nodes s2) Originals)) in *.
  set (a := acomp _ _) in E3.
  assert (nodes s3 !! q' = Some (with_local a np)) as Hn3b
    by (rewrite E3; cbn [nodes]; apply (lookup_move_root _ _ _ _ _ Hp2)).
  rewrite Hn3 in Hn3b. injection Hn3b as ->.
  rewrite E4 in Hn4. cbn [nodes with_nodes] in Hn4. rewrite lookup_insert_eq in Hn4.
  injection Hn4 as <-.
  exists o, (lock_node (with_ident (Some (shortName q')) (with_local a np))).
  rewrite <- Eq'. rewrite E5, E4. cbn [nodes with_nodes].
  rewrite insert_insert_eq, lookup_insert_eq.
  split; [reflexivity|]. split; [reflexivity|]. split; [reflexivity|]. split; [reflexivity|].
  split; [rewrite Eq'; reflexivity|]. split; [apply locked_lock_node|].
  intros r v Hr Hv. rewrite lookup_insert_ne.
  2:{ intros E. symmetry in E. apply app_eq_self_l in E. contradiction. }
  rewrite E3. cbn [nodes]. apply lookup_move_below; [exact Hr|].
  rewrite (E2 _ (mk_is_Some _ _ Hv)). exact Hv.
Qed.

End SubtreeFacts.

(** * The claims *)

Import Affine Maya Layout Props AffineFacts SceneFacts CmdFacts LocatorFacts FrameFacts UndoFacts
  LookupFacts InstFacts TreeFacts LoopFacts PhaseFacts PlacementFacts PublishFacts.
Local Open Scope cmds_scope.

(** C2 (as the code has it): whenever the four locators exist,
    [matrixFromLocators] returns sixteen numbers of which the last one, the
    homogeneous component of the translation row, is [0] and not [1]; the
    basis rows end in [0]. *)
Theorem matrixFromLocators_last_entry node h :
  has_locators (nodes h) node ->
  exists l, matrixFromLocators node h = (Ok l, h) /\
            l !! 3%nat = Some 0 /\ l !! 7%nat = Some 0 /\ l !! 11%nat = Some 0 /\
            l !! 15%nat = Some 0 /\ l !! 15%nat <> Some 1.
Proof.
  intros Hl. eexists. split; [apply matrixFromLocators_Some; exact Hl|].
  split; [reflexivity|]. split; [reflexivity|]. split; [reflexivity|].
  split; [reflexivity|]. cbn. intros E. discriminate E.
Qed.

Lemma matrixFromLocators_last_entry_witness :
  exists l, matrixFromLocators ["Pillar"%string] (after_locators vzero)
            = (Ok l, after_locators vzero) /\
            l !! 3%nat = Some 0 /\ l !! 7%nat = Some 0 /\ l !! 11%nat = Some 0 /\
            l !! 15%nat = Some 0 /\ l !! 15%nat <> Some 1.
Proof.
  apply (matrixFromLocators_last_entry ["Pillar"%string] (after_locators vzero)).
  repeat split; vm_compute; eexists; reflexivity.
Defined.

Ltac by_compute := apply (bool_decide_eq_true_1 _); vm_compute; reflexivity.

(** C4 (where the code departs from it): for a transform translated by
    [(5, 0, 0)], the locator-creation steps leave [Zero] at the world origin,
    that is at [(-5, 0, 0)] in the entity's space, so that [X - Zero] is
    [(6, 0, 0)] there and not [(1, 0, 0)]. *)
Theorem makeLocators_off_origin :
  let h := pillar_scene (Vec (Q2Qc 5) 0 0) in
  let m' := nodes (snd (makeLocators ["Pillar"%string] h)) in
  fst (makeLocators ["Pillar"%string] h) = Ok tt /\
  local_pos m' ["Zero"; "Pillar"]%string = Vec (- Q2Qc 5) 0 0 /\
  local_pos m' ["X"; "Pillar"]%string = ex /\
  vsub (local_pos m' ["X"; "Pillar"]%string) (local_pos m' ["Zero"; "Pillar"]%string)
    = Vec (Q2Qc 6) 0 0 /\
  Vec (Q2Qc 6) 0 0 <> ex.
Proof.
  cbv zeta.
  split; [by_compute|]. split; [by_compute|]. split; [by_compute|]. split; [by_compute|].
  intros E. discriminate E.
Qed.






(** C8: [findOriginal] returns [None] when no node right under [|Originals]
    carries the identifier; and when that is so at the time of the lookup,
    that is in the scene [hd] left by the duplication of the first selected
    transform, [updateOriginalAndInstances] raises its error and leaves the
    scene as [hd]. *)
Theorem findOriginal_miss_aborts_update i :
  (forall h, carriers (ChildOf Originals) (nodes h) i = [] ->
             findOriginal i h = (Ok None, h))
  /\ (forall h sel0 sel1 n1,
         selected_transforms h = [sel0; sel1] ->
         nodes h !! sel1 = Some n1 -> ident n1 = Some i ->
         let hd := snd (duplicate sel0 h) in
         carriers (ChildOf Originals) (nodes hd) i = [] ->
         updateOriginalAndInstances h = (Raise (CmdsError (not_found_msg i)), hd)).
Proof.
  split; [apply findOriginal_None|].
  intros h sel0 sel1 n1 Hsel Hn1 Hi hd Hzero.
  unfold updateOriginalAndInstances, updateOriginal.
  unfold bind at 1. unfold bind at 1. unfold ls_sl_transform.
  fold (selected_transforms h). rewrite Hsel. cbn [length Nat.eqb negb].
  unfold bind at 1, ret at 1. unfold bind at 1. cbn [drop item0]. unfold ret at 1.
  unfold bind at 1, objExists_identifier, has_identifier. rewrite Hn1, Hi. cbn [negb].
  unfold bind at 1, ret at 1. unfold bind at 1, ret at 1.
  assert (is_Some (nodes h !! sel0)) as [n0 Hn0].
  { assert (sel0 ∈ selected_transforms h) as Hin by (rewrite Hsel; left).
    apply list_elem_of_filter in Hin as [Hin _]. apply andb_prop_elim in Hin as [_ Hin].
    unfold is_transform in Hin. destruct (nodes h !! sel0); [eauto|contradiction]. }
  unfold bind at 1. destruct (duplicate sel0 h) as [[rs|e] hd'] eqn:Hd.
  2:{ unfold duplicate in Hd. rewrite Hn0 in Hd. discriminate Hd. }
  subst hd. cbn [snd] in Hzero.
  destruct (duplicate_kept _ _ _ _ sel1 Hd) as [Hk (c & -> & _)]; [eauto|].
  unfold bind at 1. cbn [item0]. unfold ret at 1.
  unfold bind at 1. rewrite (getAttr_Some (identifier_of sel1) hd' n1 i);
    [|cbn; rewrite (kept_lookup _ _ _ Hk); exact Hn1|exact Hi].
  unfold bind at 1. rewrite (findOriginal_None i hd' Hzero). reflexivity.
Qed.

Lemma findOriginal_miss_aborts_update_witness :
  findOriginal "Pillar" orphan_scene = (Ok None, orphan_scene) /\
  updateOriginalAndInstances orphan_scene
  = (Raise (CmdsError (not_found_msg "Pillar")), snd (duplicate ["Cand"%string] orphan_scene)).
Proof.
  split.
  - apply (proj1 (findOriginal_miss_aborts_update "Pillar") orphan_scene).
    vm_compute. reflexivity.
  - apply (proj2 (findOriginal_miss_aborts_update "Pillar") orphan_scene
             ["Cand"%string] ["Pillar1"%string]
             (with_ident (Some "Pillar"%string) (fresh_node (1%nat, []) Transform))).
    + vm_compute. reflexivity.
    + vm_compute. reflexivity.
    + reflexivity.
    + vm_compute. reflexivity.
Defined.

(** C10 (amended): given a node, [instantiateOriginal] behaves the same
    whatever is selected and never raises the selection error; given a node
    that has a parent, it returns one new node right under the world that is
    unlocked, has the kind, identifier and world transform of the given node
    and copies of what is below it, every node of the scene staying as it
    was; and given a node that is itself right under the world, it returns
    nothing: the host refuses to move the copy to the world, where it is
    already, and [instantiateOriginal] raises that error after closing its
    chunk and calling [undo]. *)
Theorem instantiateOriginal_given o :
  (forall h sel,
      let hs := mkHost (nodes h) sel (stamp h) (undoLog h) in
      fst (instantiateOriginal (Some o) hs) = fst (instantiateOriginal (Some o) h) /\
      nodes (snd (instantiateOriginal (Some o) hs)) = nodes (snd (instantiateOriginal (Some o) h)))
  /\ (forall h msg, fst (instantiateOriginal (Some o) h) <> Raise (CmdsError msg))
  /\ (forall h n,
         nodes h !! o = Some n -> tail o <> [] ->
         exists i h' n',
           instantiateOriginal (Some o) h = (Ok [[i]], h') /\
           nodes h' !! [i] = Some n' /\ unlocked n' /\
           kind n' = kind n /\ ident n' = ident n /\ visible n' = visible n /\
           uid n' = (stamp h, []) /\
           world (nodes h') [i] = world (nodes h) o /\
           (forall r, r <> [] ->
                      nodes h' !! (app r [i]) = with_uid (stamp h, r) <$> nodes h !! (app r o)) /\
           (forall k, is_Some (nodes h !! k) -> nodes h' !! k = nodes h !! k))
  /\ (forall h (x : string) n,
         o = [x] -> nodes h !! o = Some n ->
         exists h', instantiateOriginal (Some o) h = (Raise (HostError "parent"), h') /\
                    undoLog h' = undoLog h ++ [OpenChunk; CloseChunk; Undo]).
Proof.
  split; [|split; [|split]].
  - intros h sel hs. rewrite !instantiateOriginal_unfold. unfold hs. cbn [nodes selection stamp undoLog].
    pose proof (instantiate_body_selection o
                  (mkHost (nodes h) (selection h) (stamp h) (undoLog h ++ [OpenChunk])) sel) as E.
    cbv zeta in E. cbn [nodes selection stamp undoLog] in E.
    destruct E as (E1 & E2 & _).
    destruct (instantiate_body (Some o) _) as [[a|e] h1];
      destruct (instantiate_body (Some o) _) as [[a'|e'] h1']; cbn in *;
      split; congruence.
  - intros h msg. rewrite instantiateOriginal_unfold.
    destruct (instantiate_body (Some o) _) as [[a|e] h1] eqn:E; cbn; [discriminate|].
    intros [= ->]. apply (instantiate_body_Raise _ _ _ _ E msg). reflexivity.
  - intros h n Hn Ht.
    pose proof (instantiateOriginal_run o h n Hn Ht) as E. cbv zeta in E.
    set (c := fresh_name (hd ""%string o) (taken (nodes h) (tail o)) :: tail o) in *.
    set (m1 := graft c (copy_of (stamp h) o (nodes h)) (nodes h)) in *.
    set (m2 := <[c := unlock_node (with_uid (stamp h, []) n)]> m1) in *.
    set (i := fresh_name (hd ""%string c) (taken m2 [])) in *.
    set (f := with_local (world (nodes h) o)) in *.
    assert (forall k, is_Some (nodes h !! k) -> ~ c `suffix_of` k) as Fc
      by (intros k Hk; apply fresh_name_avoids; exact Hk).
    assert (forall k, is_Some (m2 !! k) -> ~ [i] `suffix_of` k) as Fi
      by (intros k Hk; apply fresh_name_avoids; exact Hk).
    assert (m2 !! c = Some (unlock_node (with_uid (stamp h, []) n))) as Hc
      by apply lookup_insert_eq.
    assert (forall k, is_Some (nodes h !! k) -> kept k (nodes h) m2) as K2.
    { intros k Hk. unfold m2, m1. eapply kept_trans.
      - apply kept_graft. apply Fc, Hk.
      - apply kept_insert. apply Fc, Hk. }
    eexists i, _, _. split; [exact E|]. cbn [nodes].
    split; [apply lookup_move_root; exact Hc|].
    split; [apply unlocked_unlock_node|].
    split; [reflexivity|]. split; [reflexivity|]. split; [reflexivity|]. split; [reflexivity|].
    split; [|split].
    + rewrite world_cons. unfold loc. rewrite (lookup_move_root _ _ _ _ _ Hc).
      cbn. apply acomp_id_r.
    + intros r Hr. rewrite lookup_move, strip_app.
      assert (m2 !! app r c = with_uid (stamp h, r) <$> nodes h !! app r o) as E2.
      { unfold m2. rewrite lookup_insert_ne.
        2:{ intros E'. symmetry in E'. apply app_eq_self_l in E'. contradiction. }
        unfold m1. rewrite lookup_graft, strip_app. unfold copy_of. rewrite lookup_copy.
        destruct (nodes h !! app r o) as [v|]; [reflexivity|].
        cbn. destruct (nodes h !! app r c) as [v|] eqn:Ev; [|reflexivity].
        exfalso. apply (Fc (app r c)); [eauto|]. apply suffix_app_r. reflexivity. }
      rewrite E2. destruct (nodes h !! app r o) as [v|]; cbn.
      * rewrite decide_False by exact Hr. reflexivity.
      * rewrite lookup_prune. case_decide; [reflexivity|].
        destruct (m2 !! app r [i]) as [v|] eqn:Ev; [|exact Ev].
        exfalso. apply (Fi (app r [i])); [eauto|]. apply suffix_app_r. reflexivity.
    + intros k Hk. rewrite lookup_move_other.
      * apply (kept_lookup _ _ _ (K2 k Hk)).
      * apply Fc, Hk.
      * apply Fi. rewrite (kept_lookup _ _ _ (K2 k Hk)). exact Hk.
  - intros h x n -> Hn. exact (instantiateOriginal_root x h n Hn).
Qed.

Lemma instantiateOriginal_given_witness :
  exists i h' n',
    instantiateOriginal (Some ["Pillar"; "Originals"]%string) published = (Ok [[i]], h') /\
    nodes h' !! [i] = Some n' /\ unlocked n' /\
    kind n' = kind published_original /\ ident n' = ident published_original /\
    visible n' = visible published_original /\
    uid n' = (stamp published, []) /\
    world (nodes h') [i] = world (nodes published) ["Pillar"; "Originals"]%string /\
    (forall r, r <> [] ->
               nodes h' !! (app r [i])
               = with_uid (stamp published, r) <$> nodes published !! (app r ["Pillar"; "Originals"]%string)) /\
    (forall k, is_Some (nodes published !! k) -> nodes h' !! k = nodes published !! k).
Proof.
  apply (proj1 (proj2 (proj2 (instantiateOriginal_given ["Pillar"; "Originals"]%string)))
           published published_original).
  - vm_compute. reflexivity.
  - discriminate.
Defined.

(** C10, as stated, fails: given [|Pillar], a transform right under the
    world, in [pillar_scene vzero], [instantiateOriginal] returns no copy; it
    raises the error of [cmds.parent] and has called [undo]. *)
Lemma instantiateOriginal_root_raises :
  fst (instantiateOriginal (Some ["Pillar"%string]) (pillar_scene vzero))
  = Raise (HostError "parent") /\
  undoLog (snd (instantiateOriginal (Some ["Pillar"%string]) (pillar_scene vzero)))
  = [OpenChunk; CloseChunk; Undo].
Proof. split; vm_compute; reflexivity. Qed.




(** C5: a successful update, with the candidate and then an instance
    selected in a well-formed scene where [|Originals] does not itself carry
    the identifier and the transforms above the candidate and of [|Originals]
    can be inverted: the identifier [i] of the instance resolves to an
    original [|Originals|o]; afterwards no node has the identity of that
    original, and [|Originals|o] is a node made by the update from the
    candidate, which carries [i], is locked, has the world transform the old
    original had, and has right below it the four locators of the old
    original, the very nodes and not new ones. *)
Theorem updateOriginalAndInstances_replaces_original h h' cand inst :
  updateOriginalAndInstances h = (Ok tt, h') ->
  selected_transforms h = [cand; inst] ->
  well_formed h ->
  (nodes h !! Originals ≫= ident) <> (nodes h !! inst ≫= ident) ->
  regular (world (nodes h) (tail cand)) -> regular (world (nodes h) Originals) ->
  exists i (o : string) ncand nold nnew,
    let old := o :: Originals in
    nodes h !! inst ≫= ident = Some i /\
    nodes h !! cand = Some ncand /\
    nodes h !! old = Some nold /\ ident nold = Some i /\
    absent (uid nold) (nodes h') /\
    nodes h' !! old = Some nnew /\
    uid nnew = (stamp h, []) /\ kind nnew = kind ncand /\ ident nnew = Some i /\ locked nnew /\
    world (nodes h') old = world (nodes h) old /\
    forall L : string, L ∈ ["Zero"; "X"; "Y"; "Z"]%string ->
      exists (z : string) nL nz,
        nodes h !! (L :: old) = Some nL /\ nodes h' !! (z :: old) = Some nz /\ uid nz = uid nL.
Proof.
  intros H Hsel WF HO RP RO. unfold updateOriginalAndInstances in H.
  apply bind_Ok in H as ([new i] & h1 & H1 & H2). cbn [fst snd] in H2.
  apply updateOriginal_Ok in H1
    as (sel0 & sel1 & n0 & n1 & o & nold & T & root & H1). cbv zeta in H1.
  destruct H1 as (Hsel' & Hn0 & Hn1 & Hi1 & Hnold & Hiold & -> & HOr & Nos & M1 & S1 & HT
                  & Ruid & Rkind & Rident & Rlock & Rlocal & Prov & Adopt).
  rewrite Hsel in Hsel'. injection Hsel' as <- <-.
  set (old := o :: Originals) in *. set (m := nodes h) in *.
  assert (~ old `suffix_of` Originals) as NoO by (apply not_suffix_longer; reflexivity).
  assert (~ old `suffix_of` []) as No0
    by (intros Hs; apply suffix_nil_inv in Hs; discriminate Hs).
  assert (nodes h1 !! [] = None) as H10.
  { rewrite M1. rewrite (kept_lookup _ _ _ (kept_replace_at _ _ _ _ No0)). apply WF. }
  assert ((nodes h1 !! Originals ≫= ident) <> Some i) as H1O.
  { rewrite M1. rewrite (kept_lookup _ _ _ (kept_replace_at _ _ _ _ NoO)).
    fold m in HO. rewrite Hn1 in HO. cbn in HO. congruence. }
  assert (forall r, kept (app r old) (nodes h1) (nodes h')) as K
    by (intros r; apply (updateInstances_kept_store _ _ _ _ _ _ H2 H10 H1O)).
  assert (forall r, nodes h' !! app r old = T !! r) as HT'.
  { intros r. rewrite (kept_lookup _ _ _ (K r)), M1, lookup_replace_at, strip_app. reflexivity. }
  destruct (well_formed_at _ _ _ WF Hnold) as [Bo Uo].
  exists i, o, n0, nold, root. cbv zeta. fold old.
  split; [fold m; rewrite Hn1; exact Hi1|]. split; [exact Hn0|].
  split; [exact Hnold|]. split; [exact Hiold|].
  split.
  { eapply (updateInstances_confined _ _ _ _ _ _ H2); [|rewrite S1; lia].
    rewrite M1. eapply confined_weaken;
      [|apply (replace_prov_confined _ _ _ _ _ _ Uo Bo Prov)].
    - intros k [-> Hk]. apply Hk. reflexivity.
    - intros k _ Hk E. exact (Hk E). }
  split; [rewrite <- HT; apply (HT' [])|].
  split; [exact Ruid|]. split; [exact Rkind|]. split; [exact Rident|]. split; [exact Rlock|].
  split.
  { rewrite (kept_world _ _ _ (K [] : kept old _ _)).
    change (world (nodes h1) old) with (acomp (loc (nodes h1) old) (world (nodes h1) Originals)).
    assert (loc (nodes h1) old = local root) as ->
      by (unfold loc; rewrite M1, lookup_replace_at, strip_self, HT; reflexivity).
    assert (world (nodes h1) Originals = world m Originals) as ->
      by (rewrite M1; apply kept_world, kept_replace_at, NoO).
    rewrite Rlocal, (acomp_ainv_cancel _ _ RO), (acomp_ainv_cancel _ _ RP). reflexivity. }
  intros L HL. destruct (Adopt L HL) as (z & nL & a & HnL & Hz).
  exists z, nL, (with_local a nL). split; [exact HnL|].
  split; [rewrite <- Hz; apply (HT' [z])|reflexivity].
Qed.


Lemma updateOriginalAndInstances_replaces_original_witness :
  exists i (o : string) ncand nold nnew,
    nodes nested_scene !! ["Pillar1"%string] ≫= ident = Some i /\
    nodes nested_scene !! ["Cand"%string] = Some ncand /\
    nodes nested_scene !! (o :: Originals) = Some nold /\ ident nold = Some i /\
    absent (uid nold) (nodes (snd (updateOriginalAndInstances nested_scene))) /\
    nodes (snd (updateOriginalAndInstances nested_scene)) !! (o :: Originals) = Some nnew /\
    uid nnew = (stamp nested_scene, []) /\ kind nnew = kind ncand /\ ident nnew = Some i /\
    locked nnew /\
    world (nodes (snd (updateOriginalAndInstances nested_scene))) (o :: Originals)
    = world (nodes nested_scene) (o :: Originals) /\
    forall L : string, L ∈ ["Zero"; "X"; "Y"; "Z"]%string ->
      exists (z : string) nL nz,
        nodes nested_scene !! (L :: o :: Originals) = Some nL /\
        nodes (snd (updateOriginalAndInstances nested_scene)) !! (z :: o :: Originals) = Some nz /\
        uid nz = uid nL.
Proof.
  apply (updateOriginalAndInstances_replaces_original nested_scene
           (snd (updateOriginalAndInstances nested_scene)) ["Cand"%string] ["Pillar1"%string]).
  - by_compute.
  - by_compute.
  - by_compute.
  - by_compute.
  - unfold regular. by_compute.
  - unfold regular. by_compute.
Defined.

(** C1 (as the code has it): a successful update in a well-formed scene
    where [|Originals] does not itself carry the identifier [i] of the
    selected instance.  Take an instance at [p] outside [|Originals] that
    carries [i], whose four locators sit at the origin and the unit points
    of its space, whose parent's world transform can be inverted, and which
    has no node carrying [i] above or below it.  Afterwards [p] is a new,
    unlocked node that carries [i] and has the world transform the instance
    had, and no node has the identity of the old instance. *)
Theorem updateOriginalAndInstances_keeps_placement h h' cand inst p n i :
  updateOriginalAndInstances h = (Ok tt, h') ->
  selected_transforms h = [cand; inst] ->
  nodes h !! inst ≫= ident = Some i ->
  well_formed h ->
  (nodes h !! Originals ≫= ident) <> Some i ->
  nodes h !! p = Some n -> ident n = Some i -> ~ Originals `suffix_of` p ->
  unit_frame (nodes h) p -> regular (world (nodes h) (tail p)) ->
  map_Forall (fun q nq => q `suffix_of` p \/ p `suffix_of` q -> q <> p -> ident nq <> Some i)
             (nodes h) ->
  exists n', nodes h' !! p = Some n' /\ ident n' = Some i /\ unlocked n' /\
             uid n' <> uid n /\
             world (nodes h') p = world (nodes h) p /\
             absent (uid n) (nodes h').
Proof.
  intros H Hsel Hinst WF HO Hp Hip Hout UF RP Halone.
  assert (forall q nq, q `suffix_of` p -> q <> p -> nodes h !! q = Some nq -> ident nq <> Some i)
    as Hanc by (intros q nq Hs Hne Hq; apply (Halone q nq Hq); [left; exact Hs|exact Hne]).
  assert (forall (L : string) nL, nodes h !! (L :: p) = Some nL -> ident nL <> Some i) as Hloc.
  { intros L nL Hq. apply (Halone _ nL Hq); [right; apply suffix_cons_r; reflexivity|].
    apply cons_neq_self. }
  clear Halone.
  unfold updateOriginalAndInstances in H.
  apply bind_Ok in H as ([new i'] & h1 & H1 & H2). cbn [fst snd] in H2.
  apply updateOriginal_Ok in H1
    as (sel0 & sel1 & n0 & n1 & o & nold & T & root & H1). cbv zeta in H1.
  destruct H1 as (Hsel' & Hn0 & Hn1 & Hi1 & Hnold & Hiold & -> & HOr & Nos & M1 & S1 & HT
                  & Ruid & Rkind & Rident & Rlock & Rlocal & Prov & Adopt).
  rewrite Hsel in Hsel'. injection Hsel' as <- <-.
  rewrite Hn1 in Hinst. cbn in Hinst. assert (i' = i) as -> by congruence.
  set (old := o :: Originals) in *. set (m := nodes h) in *.
  assert (~ old `suffix_of` Originals) as NoO by (apply not_suffix_longer; reflexivity).
  assert (~ old `suffix_of` []) as No0
    by (intros Hs; apply suffix_nil_inv in Hs; discriminate Hs).
  assert (~ old `suffix_of` p) as Nop.
  { intros Hs. apply Hout. etrans; [|exact Hs]. apply suffix_cons_r. reflexivity. }
  assert (forall L, ~ old `suffix_of` (L :: p)) as NopL.
  { intros L Hs. apply suffix_cons_r_inv in Hs as [Hs|Hs]; [|contradiction].
    injection Hs as _ <-. apply Hout. reflexivity. }
  assert (nodes h1 !! [] = None) as H10.
  { rewrite M1. rewrite (kept_lookup _ _ _ (kept_replace_at _ _ _ _ No0)). apply WF. }
  assert ((nodes h1 !! Originals ≫= ident) <> Some i) as H1O.
  { rewrite M1. rewrite (kept_lookup _ _ _ (kept_replace_at _ _ _ _ NoO)). exact HO. }
  assert (forall L, kept (L :: p) m (nodes h1)) as K1
    by (intros L; rewrite M1; apply kept_replace_at, NopL).
  destruct (well_formed_at _ _ _ WF Hp) as [Bn Un]. fold m in Un.
  assert (only_at (uid n) p (nodes h1)) as U1.
  { rewrite M1. eapply confined_weaken;
      [|apply (replace_prov_confined _ _ _ _ _ _ Un Bn Prov)].
    - intros k [Hk _]. exact Hk.
    - intros k Hs _ ->. contradiction. }
  (* the loop, split at the plug of [p] *)
  unfold updateInstances in H2. apply bind_Ok in H2 as (l & h0 & Hl & H2).
  apply ls_identifier_Ok in Hl as (-> & ND & Hform & Hin).
  assert (identifier_of p ∈ l) as Hpl.
  { apply Hin; [reflexivity|]. unfold has_identifier.
    rewrite (kept_lookup _ _ _ (kept_suffix _ p _ _ (K1 "X"%string) (suffix_cons_r _ _ _ (reflexivity _)))).
    fold m. rewrite Hp, Hip. reflexivity. }
  apply list_elem_of_split in Hpl as (l1 & l2 & ->).
  apply NoDup_app in ND as (_ & ND1 & ND2). apply NoDup_cons in ND2 as [ND2 _].
  assert (identifier_of p ∉ l1) as Nl1
    by (intros Hx; apply (ND1 _ Hx); left).
  apply for_each_app in H2 as (ha & Ha & H2).
  simpl in H2. apply bind_Ok in H2 as (x & hb & Hb & H2).
  assert (forall q, q `suffix_of` p -> q <> p ->
                    forall nq, m !! q = Some nq -> ident nq <> Some i) as Hanc'
    by (intros q Hs Hne nq; apply Hanc; assumption).
  assert (forall pl, pl ∈ l1 ++ identifier_of p :: l2 -> pl <> identifier_of p ->
                     plug_node pl <> p) as Hne.
  { intros pl Hx Hy E. apply Hy. rewrite (Hform _ Hx), E. reflexivity. }
  (* before the instance is reached *)
  assert (forall L, kept (L :: p) (nodes h1) (nodes ha)) as Ka.
  { intros L. apply (for_each_kept _ _ _ _ _ _ Ha). intros pl Hx Hs. right. intros nq.
    assert (plug_node pl <> p) as Hq.
    { apply Hne; [apply elem_of_app; left; exact Hx|]. intros ->. contradiction. }
    rewrite (K1 L _ Hs). apply suffix_cons_r_inv in Hs as [Hs|Hs].
    - rewrite Hs. apply Hloc.
    - apply Hanc'; assumption. }
  assert (kept old (nodes h1) (nodes ha)) as Koa
    by (apply (for_each_kept_store _ _ _ _ _ o [] Ha H10 H1O)).
  assert (forall L, kept (L :: p) m (nodes ha)) as Kma
    by (intros L; eapply kept_trans; [apply K1|apply Ka]).
  assert (kept p m (nodes ha)) as Kpa
    by (apply (kept_suffix _ _ _ _ (Kma "X"%string)), suffix_cons_r; reflexivity).
  destruct (for_each_confined _ _ _ _ _ _ _ Ha U1 ltac:(rewrite S1; lia)) as [Ua Sa].
  (* the instance *)
  apply updateInstance_Ok in Hb. cbv zeta in Hb. cbn [plug_node identifier_of fst] in Hb.
  destruct Hb as [[_ [Hb|(nb & v & Hb & Hv & Hne')]]|(_ & Hp0 & _ & _ & _ & Mb & Sb)].
  { exfalso. apply Hout, startswith_inside, Hb. }
  { exfalso. rewrite (kept_lookup _ _ _ Kpa) in Hb. fold m in Hp. congruence. }
  assert (nodes ha !! old = Some root) as Hroot.
  { rewrite (kept_lookup _ _ _ Koa), M1, lookup_replace_at, strip_self. exact HT. }
  set (B := acomp (sampled (nodes ha) p) (ainv (world (nodes ha) (tail p)))) in *.
  assert (nodes hb !! p = Some (with_local B (unlock_node (with_uid (stamp ha, []) root)))) as Hnb.
  { rewrite Mb, lookup_replace_at, strip_self. unfold fresh_instance.
    rewrite lookup_alter_eq, (lookup_copy_root _ _ _ _ Hroot). reflexivity. }
  assert (~ p `suffix_of` tail p) as Ntp by (apply not_suffix_tail, Hp0).
  assert (world (nodes hb) p = world m p) as Wb.
  { destruct p as [|xp t]; [contradiction|]. rewrite world_cons. unfold loc. rewrite Hnb.
    cbn [local with_local tail] in *.
    rewrite Mb, (kept_world _ _ _ (kept_replace_at _ _ _ _ Ntp)).
    assert (world (nodes ha) t = world m t) as Et.
    { apply kept_world. apply (kept_suffix _ _ _ _ Kpa). apply suffix_cons_r. reflexivity. }
    unfold B. rewrite Et, (acomp_ainv_cancel _ _ RP).
    rewrite (kept_sampled m (nodes ha) (xp :: t) ltac:(discriminate) Kma).
    apply sampled_unit_frame, UF. }
  assert (absent (uid n) (nodes hb)) as Ab.
  { rewrite Mb. eapply confined_weaken;
      [|exact (replace_fresh_confined _ _ _ (stamp ha) p _ Ua ltac:(rewrite S1 in Sa; lia)
                 (fresh_tree_instance _ _ _ _))].
    intros k [-> Hk]. apply Hk. reflexivity. }
  (* after it *)
  assert (kept p (nodes hb) (nodes h')) as Kb.
  { apply (for_each_kept _ _ _ _ _ _ H2). intros pl Hx Hs. right. intros nq.
    assert (plug_node pl <> p) as Hq.
    { apply Hne; [apply elem_of_app; right; right; exact Hx|]. intros ->. contradiction. }
    rewrite Mb, lookup_replace_at.
    assert (strip p (plug_node pl) = None) as ->.
    { apply strip_None. intros Hs'. apply Hq. apply (anti_symm suffix); assumption. }
    rewrite (Kpa _ Hs). apply Hanc'; assumption. }
  destruct (for_each_confined _ _ _ _ _ _ _ H2 Ab ltac:(rewrite S1 in Sa; lia)) as [A' _].
  eexists. split; [rewrite (kept_lookup _ _ _ Kb); exact Hnb|].
  split; [exact Rident|]. split; [apply unlocked_unlock_node|].
  split.
  { cbn. intros E. rewrite <- E in Bn. cbn in Bn. rewrite S1 in Sa. lia. }
  split; [rewrite (kept_world _ _ _ Kb); exact Wb|exact A'].
Qed.

Lemma updateOriginalAndInstances_keeps_placement_witness :
  exists n', nodes (snd (updateOriginalAndInstances nested_scene)) !! ["Pillar1"%string] = Some n' /\
             ident n' = Some "Pillar"%string /\ unlocked n' /\
             uid n' <> uid nested_instance /\
             world (nodes (snd (updateOriginalAndInstances nested_scene))) ["Pillar1"%string]
             = world (nodes nested_scene) ["Pillar1"%string] /\
             absent (uid nested_instance) (nodes (snd (updateOriginalAndInstances nested_scene))).
Proof.
  apply (updateOriginalAndInstances_keeps_placement nested_scene
           (snd (updateOriginalAndInstances nested_scene)) ["Cand"%string] ["Pillar1"%string]).
  - by_compute.
  - by_compute.
  - by_compute.
  - by_compute.
  - by_compute.
  - by_compute.
  - by_compute.
  - by_compute.
  - repeat split; by_compute.
  - unfold regular. by_compute.
  - by_compute.
Defined.

(** C1, where the code departs from it: [initializeOriginal] on a [|Pillar]
    translated by [(5, 0, 0)] leaves the locator [Zero] of the original, and
    so of its instance [|Pillar1], at [(-5, 0, 0)] in the entity's space;
    the update that follows succeeds and brings the instance from the
    translation by [(5, 0, 0)] to the pose read off the locators, with the
    rows [(6, 0, 0)], [(5, 1, 0)], [(5, 0, 1)] and no translation. *)
Lemma updateOriginalAndInstances_moves_instance :
  fst (initializeOriginal (pillar_scene (Vec (Q2Qc 5) 0 0))) = Ok tt /\
  nodes offset_scene !! ["Pillar1"%string] ≫= ident = Some "Pillar"%string /\
  local_pos (nodes offset_scene) ["Zero"; "Pillar1"]%string = Vec (- Q2Qc 5) 0 0 /\
  world (nodes offset_scene) ["Pillar1"%string] = Aff mid (Vec (Q2Qc 5) 0 0) /\
  fst (updateOriginalAndInstances offset_scene) = Ok tt /\
  world (nodes (snd (updateOriginalAndInstances offset_scene))) ["Pillar1"%string]
  = Aff (Mat (Vec (Q2Qc 6) 0 0) (Vec (Q2Qc 5) 1 0) (Vec (Q2Qc 5) 0 1)) vzero /\
  world (nodes (snd (updateOriginalAndInstances offset_scene))) ["Pillar1"%string]
  <> world (nodes offset_scene) ["Pillar1"%string].
Proof.
  split; [by_compute|]. split; [by_compute|]. split; [by_compute|]. split; [by_compute|].
  split; [by_compute|]. split; by_compute.
Qed.

(** C6: a successful [initializeOriginal] with one transform selected,
    named [nm], in a scene where no node carries the identifier [nm] and no
    node right under [|Originals] has that name: afterwards
    [|Originals|nm] is the selected transform, carries the identifier [nm]
    and is locked; a node right under the world carries [nm] and is
    unlocked; and no other node carries [nm]. *)
Theorem initializeOriginal_publishes h h' (nm : string) t np :
  initializeOriginal h = (Ok tt, h') ->
  selected_transforms h = [nm :: t] ->
  nodes h !! (nm :: t) = Some np ->
  untagged nm (nodes h) -> (nm ∉ taken (nodes h) Originals) ->
  exists (z : string) norig ninst,
    nodes h' !! (nm :: Originals) = Some norig /\
    uid norig = uid np /\ ident norig = Some nm /\ locked norig /\
    nodes h' !! [z] = Some ninst /\
    ident ninst = Some nm /\ unlocked ninst /\
    (forall k nk, nodes h' !! k = Some nk -> ident nk = Some nm ->
                  k = nm :: Originals \/ k = [z]).
Proof.
  intros H Hsel Hnp Hun Htk.
  apply initializeOriginal_Ok in H as (h0 & h5 & cs & h6 & E0 & Es0 & _ & H5 & H6 & ->).
  apply initialize_steps_Ok with (nm := nm) (t := t) (np := np) in H5;
    [|unfold selected_transforms; rewrite E0, Es0; exact Hsel|rewrite E0; exact Hnp
     |rewrite E0; exact Hun|rewrite E0; exact Htk].
  destruct H5 as (n5 & Hn5 & Hu5 & Hk5 & Hi5 & Hl5 & Honly & Hs5).
  set (o := nm :: Originals) in *.
  rewrite (instantiateOriginal_None _ o) in H6.
  2:{ rewrite Hs5. rewrite filter_cons_True; [reflexivity|].
      unfold is_transform. rewrite Hn5, Hk5. cbn. rewrite bool_decide_eq_true_2; [exact I|reflexivity]. }
  apply instantiateOriginal_Ok in H6 as (n5' & z & Hn5' & _ & _ & Cz & M6 & _).
  rewrite Hn5 in Hn5'. injection Hn5' as <-.
  set (F := with_local (world (nodes h5) o) ∘ unlock_node) in M6.
  assert (strip [z] o = None) as Eso by (apply strip_None, (clear_avoids _ _ _ Cz); eauto).
  exists z, n5, (F (with_uid (stamp h5, []) n5)).
  split; [rewrite M6, lookup_graft, Eso; exact Hn5|].
  split; [exact Hu5|]. split; [exact Hi5|]. split; [exact Hl5|].
  split.
  { rewrite M6, lookup_graft, strip_self, lookup_alter_eq, (lookup_copy_root _ _ _ _ Hn5).
    reflexivity. }
  split; [exact Hi5|]. split; [apply unlocked_unlock_node|].
  intros k nk Hk Hi. rewrite M6, lookup_graft in Hk.
  destruct (strip [z] k) as [r|] eqn:Er; [|left; exact (Honly _ _ Hk Hi)].
  destruct (alter F [] (copy_of (stamp h5) o (nodes h5)) !! r) as [v|] eqn:Ev;
    [|left; exact (Honly _ _ Hk Hi)].
  injection Hk as ->. apply strip_Some in Er. subst k.
  destruct (decide (r = [])) as [->|Hr]; [right; reflexivity|].
  exfalso. rewrite lookup_alter_ne in Ev by congruence. unfold copy_of in Ev.
  rewrite lookup_copy in Ev. destruct (nodes h5 !! app r o) as [v|] eqn:Evo; [|discriminate Ev].
  injection Ev as <-. apply Hr, (app_eq_self_l r o). exact (Honly _ _ Evo Hi).
Qed.

Lemma initializeOriginal_publishes_witness :
  exists (z : string) norig ninst,
    nodes published !! ("Pillar"%string :: Originals) = Some norig /\
    uid norig = uid pillar_node /\ ident norig = Some "Pillar"%string /\ locked norig /\
    nodes published !! [z] = Some ninst /\
    ident ninst = Some "Pillar"%string /\ unlocked ninst /\
    (forall k nk, nodes published !! k = Some nk -> ident nk = Some "Pillar"%string ->
                  k = "Pillar"%string :: Originals \/ k = [z]).
Proof.
  apply (initializeOriginal_publishes (pillar_scene vzero) published "Pillar" [] pillar_node).
  - by_compute.
  - by_compute.
  - by_compute.
  - by_compute.
  - by_compute.
Defined.

(** * Further properties of the helpers and of the three tools *)

Import HelperFacts MoreFacts ErrorFacts OutsideFacts RoundTripFacts SubtreeFacts.

(** X1: [lockTransform] on a node that exists and is not node-locked succeeds
    and changes that node only, by setting its four locks, so that the node
    is then locked and is otherwise as it was; on a path that is no node it
    raises at its first [setAttr]; and a run that raises has changed
    nothing: the node is never left with some of its locks set. *)
Theorem lockTransform_all_or_nothing p h :
  (forall n, nodes h !! p = Some n -> lockN n = false ->
     lockTransform p h = (Ok tt, with_nodes (<[p := lock_node n]> (nodes h)) h) /\
     locked (lock_node n) /\
     with_lockN false (with_lock scale (lockS n) (with_lock rotate (lockR n)
       (with_lock translate (lockT n) (lock_node n)))) = n) /\
  (nodes h !! p = None -> lockTransform p h = (Raise (HostError "setAttr"), h)) /\
  (forall e h', lockTransform p h = (Raise e, h') -> h' = h).
Proof.
  split; [|split].
  - intros n Hn L. split; [apply lockTransform_run; assumption|].
    split; [apply locked_lock_node|]. destruct n; cbn in *; subst; reflexivity.
  - intros Hn. destruct (lockTransform p h) as [[[]|e] h1] eqn:H.
    + apply lockTransform_Ok in H as (n & Hn' & _). congruence.
    + apply lockTransform_Raise in H as (-> & -> & _). reflexivity.
  - intros e h' H. apply lockTransform_Raise in H as (-> & _). reflexivity.
Qed.

Lemma lockTransform_all_or_nothing_witness :
  (lockTransform ["Pillar"%string] (pillar_scene vzero)
   = (Ok tt, with_nodes (<[["Pillar"%string] := lock_node pillar_node]>
                           (nodes (pillar_scene vzero))) (pillar_scene vzero)) /\
   locked (lock_node pillar_node) /\
   with_lockN false (with_lock scale (lockS pillar_node) (with_lock rotate (lockR pillar_node)
     (with_lock translate (lockT pillar_node) (lock_node pillar_node)))) = pillar_node) /\
  lockTransform ["Missing"%string] (pillar_scene vzero)
  = (Raise (HostError "setAttr"), pillar_scene vzero).
Proof.
  split.
  - apply (proj1 (lockTransform_all_or_nothing ["Pillar"%string] (pillar_scene vzero))
             pillar_node).
    + by_compute.
    + reflexivity.
  - apply (proj1 (proj2 (lockTransform_all_or_nothing ["Missing"%string] (pillar_scene vzero)))).
    by_compute.
Defined.

(** X2: on a node none of whose locks is set, [lockTransform] followed by
    [unlockTransform] succeeds and gives back the scene as it was. *)
Theorem lock_unlock_round_trip p h n :
  nodes h !! p = Some n -> unlocked n ->
  (lockTransform p ;;; unlockTransform p) h = (Ok tt, h).
Proof.
  intros Hn Hu. unfold bind. rewrite (lockTransform_run _ _ _ Hn (proj2 (proj2 (proj2 Hu)))).
  erewrite unlockTransform_run; [|cbn [nodes with_nodes]; apply lookup_insert_eq].
  unfold with_nodes. cbn [nodes selection stamp undoLog].
  rewrite insert_insert_eq, (unlock_lock_node _ Hu), (insert_id _ _ _ Hn).
  destruct h; reflexivity.
Qed.

Lemma lock_unlock_round_trip_witness :
  (lockTransform ["Pillar"%string] ;;; unlockTransform ["Pillar"%string]) (pillar_scene vzero)
  = (Ok tt, pillar_scene vzero).
Proof.
  apply (lock_unlock_round_trip ["Pillar"%string] (pillar_scene vzero) pillar_node).
  - by_compute.
  - repeat split.
Defined.

(** X3: [unlockTransform] twice is [unlockTransform] once.  On a node it
    always succeeds, whatever locks are set, changes that node only, and
    leaves it with no lock and otherwise as it was; on a path that is no
    node it raises at [lockNode] and changes nothing. *)
Theorem unlockTransform_idempotent p h :
  (unlockTransform p ;;; unlockTransform p) h = unlockTransform p h /\
  (forall n, nodes h !! p = Some n ->
     exists n', unlockTransform p h = (Ok tt, with_nodes (<[p := n']> (nodes h)) h) /\
                unlocked n' /\ with_lockN (lockN n) (with_lock scale (lockS n)
                  (with_lock rotate (lockR n) (with_lock translate (lockT n) n'))) = n) /\
  (nodes h !! p = None -> unlockTransform p h = (Raise (HostError "lockNode"), h)).
Proof.
  split; [|split].
  - unfold bind. destruct (nodes h !! p) as [n|] eqn:Hn.
    + rewrite (unlockTransform_run _ _ _ Hn).
      erewrite unlockTransform_run; [|cbn; apply lookup_insert_eq].
      unfold with_nodes. cbn. rewrite insert_insert_eq. reflexivity.
    + destruct (unlockTransform p h) as [[[]|e] h1] eqn:H; [|reflexivity].
      apply unlockTransform_Ok in H as (n & Hn' & _). congruence.
  - intros n Hn. exists (unlock_node n). split; [apply unlockTransform_run, Hn|].
    split; [apply unlocked_unlock_node|]. destruct n; reflexivity.
  - intros Hn. destruct (unlockTransform p h) as [[[]|e] h1] eqn:H.
    + apply unlockTransform_Ok in H as (n & Hn' & _). congruence.
    + apply unlockTransform_Raise in H as (-> & -> & _). reflexivity.
Qed.

(** X4: after [addIdentifier] on a node that is not node-locked, reading
    the node's identifier gives the value just written, whether or not the
    node carried an identifier before; the node is otherwise as it was and
    no other node has changed. *)
Theorem addIdentifier_then_getAttr p i h n :
  nodes h !! p = Some n -> lockN n = false ->
  (addIdentifier p i ;;; getAttr (identifier_of p)) h
  = (Ok i, with_nodes (<[p := with_ident (Some i) n]> (nodes h)) h).
Proof.
  intros Hn L. unfold bind. rewrite (addIdentifier_run _ _ _ _ Hn L).
  apply getAttr_Some with (n := with_ident (Some i) n); [|reflexivity].
  cbn. apply lookup_insert_eq.
Qed.

Lemma addIdentifier_then_getAttr_witness :
  (addIdentifier ["Pillar"%string] "Column" ;;; getAttr (identifier_of ["Pillar"%string]))
    (pillar_scene vzero)
  = (Ok "Column"%string,
     with_nodes (<[["Pillar"%string] := with_ident (Some "Column"%string) pillar_node]>
                   (nodes (pillar_scene vzero))) (pillar_scene vzero)).
Proof.
  apply (addIdentifier_then_getAttr ["Pillar"%string] "Column" (pillar_scene vzero) pillar_node).
  - by_compute.
  - reflexivity.
Defined.

(** X5: [addIdentifier] with one value and then with another has the
    result and the scene of [addIdentifier] with the second value alone:
    the attribute is replaced, not accumulated, and a failure is the same
    failure. *)
Theorem addIdentifier_last_wins p (v w : string) h :
  (addIdentifier p v ;;; addIdentifier p w) h = addIdentifier p w h.
Proof.
  unfold bind. destruct (addIdentifier p v h) as [[[]|e] h1] eqn:H.
  - apply addIdentifier_Ok in H as (n & Hn & L & ->).
    rewrite (addIdentifier_run _ w _ _ Hn L).
    erewrite addIdentifier_run; [|cbn [nodes with_nodes]; apply lookup_insert_eq|exact L].
    unfold with_nodes. cbn [nodes selection stamp undoLog]. rewrite insert_insert_eq. reflexivity.
  - pose proof H as H0. apply addIdentifier_Raise in H0 as (-> & Hc).
    rewrite (addIdentifier_refused _ v _ Hc) in H. rewrite (addIdentifier_refused _ w _ Hc).
    exact (eq_sym H).
Qed.

(** X6: a run of [addIdentifier] that raises has changed nothing, and it
    raises either on a path that is no node, at [addAttr], or on a
    node-locked node, at [deleteAttr] when the node carries an identifier
    and at [addAttr] when it does not: a locked node never loses its
    identifier. *)
Theorem addIdentifier_refused_leaves_scene p i h e h' :
  addIdentifier p i h = (Raise e, h') ->
  h' = h /\
  ((nodes h !! p = None /\ e = HostError "addAttr") \/
   (exists n, nodes h !! p = Some n /\ lockN n = true /\
              e = HostError (match ident n with Some _ => "deleteAttr" | None => "addAttr" end))).
Proof.
  intros H. pose proof H as H0. apply addIdentifier_Raise in H0 as (-> & Hc).
  split; [reflexivity|]. rewrite (addIdentifier_refused _ _ _ Hc) in H. injection H as <-.
  unfold has_identifier. destruct Hc as [Hn|(n & Hn & L)]; rewrite Hn.
  - left. auto.
  - right. exists n. split; [reflexivity|]. split; [exact L|].
    destruct (ident n); reflexivity.
Qed.

Lemma addIdentifier_refused_leaves_scene_witness :
  snd (addIdentifier ["Pillar"; "Originals"]%string "Column" published) = published /\
  ((nodes published !! ["Pillar"; "Originals"]%string = None /\
    HostError "deleteAttr" = HostError "addAttr") \/
   (exists n, nodes published !! ["Pillar"; "Originals"]%string = Some n /\ lockN n = true /\
              HostError "deleteAttr"
              = HostError (match ident n with Some _ => "deleteAttr" | None => "addAttr" end))).
Proof.
  apply (addIdentifier_refused_leaves_scene ["Pillar"; "Originals"]%string "Column" published).
  by_compute.
Defined.

(** X7: [findOriginal] never raises and leaves the scene as it is; it
    returns the first, in the host's listing order, of the children of
    [|Originals] that carry the identifier: a node right under [|Originals]
    whose identifier is the one asked for, and [None] exactly when no child
    of [|Originals] carries it. *)
Theorem findOriginal_first_carrier i h :
  findOriginal i h = (Ok (head (carriers (ChildOf Originals) (nodes h) i)), h) /\
  match head (carriers (ChildOf Originals) (nodes h) i) with
  | Some p => exists (o : string) n,
                p = o :: Originals /\ nodes h !! p = Some n /\ ident n = Some i
  | None => forall (o : string) n, nodes h !! (o :: Originals) = Some n -> ident n <> Some i
  end.
Proof.
  split; [apply findOriginal_head|].
  destruct (carriers (ChildOf Originals) (nodes h) i) as [|p l] eqn:E; cbn [head].
  - intros o n Hn Hi.
    assert (o :: Originals ∈ carriers (ChildOf Originals) (nodes h) i) as Hin.
    { apply elem_of_carriers. split; [cbn; apply bool_decide_eq_true_2; reflexivity|eauto]. }
    rewrite E in Hin. apply elem_of_nil in Hin. exact Hin.
  - assert (p ∈ carriers (ChildOf Originals) (nodes h) i) as Hin by (rewrite E; left).
    apply elem_of_carriers in Hin as (Hm & n & Hn & Hi).
    destruct p as [|o t]; [discriminate Hm|].
    cbn in Hm. apply bool_decide_eq_true in Hm. subst t. eauto.
Qed.

(** X8: [matrixFromLocators] never changes the scene; it returns sixteen
    numbers when the node has its four locators [X], [Y], [Z] and [Zero],
    and raises at [xform] when one of them is missing. *)
Theorem matrixFromLocators_read_only node h (r : res (list Qc)) h' :
  matrixFromLocators node h = (r, h') ->
  h' = h /\
  match r with
  | Ok l => has_locators (nodes h) node /\ length l = 16%nat
  | Raise e => e = HostError "xform" /\ ~ has_locators (nodes h) node
  end.
Proof.
  intros H. destruct r as [l|e].
  - apply matrixFromLocators_Ok in H as (Hl & -> & ->). auto.
  - apply matrixFromLocators_Raise in H as (-> & -> & Hl). auto.
Qed.

Lemma matrixFromLocators_read_only_witness :
  snd (matrixFromLocators ["Pillar"%string] (pillar_scene vzero)) = pillar_scene vzero /\
  (HostError "xform" = HostError "xform" /\
   ~ has_locators (nodes (pillar_scene vzero)) ["Pillar"%string]).
Proof.
  apply (matrixFromLocators_read_only ["Pillar"%string] (pillar_scene vzero)
           (Raise (HostError "xform"))).
  by_compute.
Defined.

(** X9: called without an original, [instantiateOriginal] raises the
    selection error unless exactly one transform right under [|Originals]
    is selected; its own commands have then changed no node and not the
    selection, and it has opened and closed its chunk and called [undo]
    once. *)
Theorem instantiateOriginal_selection_error h :
  length (filter (fun p => matches (ChildOf Originals) p && is_transform (nodes h) p)
                 (selection h)) <> 1%nat ->
  instantiateOriginal None h
  = (Raise (CmdsError select_one_msg),
     mkHost (nodes h) (selection h) (stamp h) (undoLog h ++ [OpenChunk; CloseChunk; Undo])).
Proof.
  intros Hlen. rewrite instantiateOriginal_unfold.
  unfold instantiate_body. unfold bind at 1. unfold bind at 1. unfold ls_sl_transform.
  cbn [nodes selection]. unfold bind at 1.
  apply Nat.eqb_neq in Hlen. rewrite Hlen. cbn. rewrite <- app_assoc. reflexivity.
Qed.

Lemma instantiateOriginal_selection_error_witness :
  instantiateOriginal None (pillar_scene vzero)
  = (Raise (CmdsError select_one_msg),
     mkHost (nodes (pillar_scene vzero)) (selection (pillar_scene vzero))
            (stamp (pillar_scene vzero))
            (undoLog (pillar_scene vzero) ++ [OpenChunk; CloseChunk; Undo])).
Proof.
  apply (instantiateOriginal_selection_error (pillar_scene vzero)).
  by_compute.
Defined.

(** X10: every run of [instantiateOriginal] adds to the undo queue one
    opened and closed chunk, followed by one call of [undo] exactly when the
    run raises. *)
Theorem instantiateOriginal_brackets o h (r : res (list dag)) h' :
  instantiateOriginal o h = (r, h') ->
  undoLog h' = undoLog h ++ [OpenChunk; CloseChunk] ++
               match r with Ok _ => [] | Raise _ => [Undo] end.
Proof.
  intros H. apply instantiateOriginal_log in H. destruct r; exact H.
Qed.

Lemma instantiateOriginal_brackets_witness :
  undoLog (snd (instantiateOriginal (Some ["Missing"%string]) (pillar_scene vzero)))
  = undoLog (pillar_scene vzero) ++ [OpenChunk; CloseChunk] ++ [Undo].
Proof.
  apply (instantiateOriginal_brackets (Some ["Missing"%string]) (pillar_scene vzero)
           (Raise (HostError "duplicate"))).
  by_compute.
Defined.

(** X11: when exactly one transform right under [|Originals] is selected,
    [instantiateOriginal] without an original behaves as
    [instantiateOriginal] given that transform: same result, same scene. *)
Theorem instantiateOriginal_default_argument h o :
  filter (fun p => matches (ChildOf Originals) p && is_transform (nodes h) p) (selection h) = [o] ->
  instantiateOriginal None h = instantiateOriginal (Some o) h.
Proof. apply instantiateOriginal_None. Qed.

Lemma instantiateOriginal_default_argument_witness :
  instantiateOriginal None
    (mkHost (nodes published) [["Pillar"; "Originals"]%string] (stamp published) (undoLog published))
  = instantiateOriginal (Some ["Pillar"; "Originals"]%string)
      (mkHost (nodes published) [["Pillar"; "Originals"]%string] (stamp published)
              (undoLog published)).
Proof.
  apply (instantiateOriginal_default_argument
           (mkHost (nodes published) [["Pillar"; "Originals"]%string] (stamp published)
                   (undoLog published))).
  by_compute.
Defined.

(** X12: [initializeOriginal] raises the selection error unless exactly
    one transform is selected; the scene is then as it was, no locator and
    no group has been created, and the undo queue has the opened and closed
    chunk. *)
Theorem initializeOriginal_selection_error h :
  length (selected_transforms h) <> 1%nat ->
  initializeOriginal h
  = (Raise (CmdsError select_one_msg),
     mkHost (nodes h) (selection h) (stamp h) (undoLog h ++ [OpenChunk; CloseChunk])).
Proof.
  intros Hlen. unfold initializeOriginal, bind at 1, undoInfo_openChunk. rewrite undo_call_run.
  unfold bind at 1, ls_sl. unfold try_except_else.
  unfold initialize_steps. unfold bind at 1. unfold bind at 1. unfold ls_sl_transform.
  cbn [nodes selection]. unfold bind at 1.
  apply Nat.eqb_neq in Hlen. unfold selected_transforms in Hlen. rewrite Hlen.
  cbn. rewrite <- app_assoc. reflexivity.
Qed.

Lemma initializeOriginal_selection_error_witness :
  initializeOriginal nothing_selected
  = (Raise (CmdsError select_one_msg),
     mkHost (nodes nothing_selected) (selection nothing_selected) (stamp nothing_selected)
            (undoLog nothing_selected ++ [OpenChunk; CloseChunk])).
Proof.
  apply (initializeOriginal_selection_error nothing_selected).
  by_compute.
Defined.

(** X13: a successful [initializeOriginal] leaves in the undo queue its
    own chunk with the chunk of [instantiateOriginal] nested in it, both
    closed, and no call of [undo]. *)
Theorem initializeOriginal_success_log h (x : unit) h' :
  initializeOriginal h = (Ok x, h') ->
  undoLog h' = undoLog h ++ [OpenChunk; OpenChunk; CloseChunk; CloseChunk].
Proof.
  intros H. unfold initializeOriginal in H.
  apply bind_Ok in H as (u0 & h0 & H0 & H). injection H0 as _ E0.
  apply bind_Ok in H as (os & h0' & H0 & H). injection H0 as _ <-.
  unfold try_except_else in H.
  destruct ((initialize_steps;;; instantiateOriginal None;;; ret tt) h0) as [[a|e] h1] eqn:Hb.
  - apply bind_Ok in Hb as ([] & h5 & H5 & Hb). apply bind_Ok in Hb as (cs & h6 & H6 & Hb).
    apply ret_Ok in Hb as [_ ->]. injection H as _ <-.
    apply instantiateOriginal_log in H6. apply quiet_initialize_steps in H5.
    cbn. rewrite H6, H5, <- E0. cbn. rewrite <- !app_assoc. reflexivity.
  - discriminate H.
Qed.

Lemma initializeOriginal_success_log_witness :
  undoLog published
  = undoLog (pillar_scene vzero) ++ [OpenChunk; OpenChunk; CloseChunk; CloseChunk].
Proof.
  apply (initializeOriginal_success_log (pillar_scene vzero) tt published).
  by_compute.
Defined.

(** X14: a successful [initializeOriginal] leaves every node that is not
    the selected transform or below it exactly as it was, at the same
    place: other objects, earlier originals and their instances are not
    touched. *)
Theorem initializeOriginal_frame h (x : unit) h' p k nk :
  initializeOriginal h = (Ok x, h') ->
  selected_transforms h = [p] ->
  nodes h !! k = Some nk -> ~ p `suffix_of` k ->
  nodes h' !! k = Some nk.
Proof. intros H Hsel. exact (proj1 (initializeOriginal_frame_aux _ _ _ _ H Hsel) k nk). Qed.

Lemma initializeOriginal_frame_witness :
  nodes (snd (initializeOriginal bystander_scene)) !! ["Pillar1"%string]
  = Some (with_ident (Some "Pillar"%string) (fresh_node (1%nat, []) Transform)).
Proof.
  apply (initializeOriginal_frame bystander_scene tt (snd (initializeOriginal bystander_scene))
           ["Cand"%string] ["Pillar1"%string]).
  - by_compute.
  - by_compute.
  - by_compute.
  - by_compute.
Defined.

(** X15: after a successful [initializeOriginal] the group [|Originals]
    exists; it is the node that was there when there was one, unchanged, and
    otherwise a new transform that is locked and hidden and carries no
    identifier. *)
Theorem initializeOriginal_store_group h (x : unit) h' p :
  initializeOriginal h = (Ok x, h') ->
  selected_transforms h = [p] ->
  exists g, nodes h' !! Originals = Some g /\
            (forall g0, nodes h !! Originals = Some g0 -> g = g0) /\
            (nodes h !! Originals = None ->
             locked g /\ visible g = false /\ kind g = Transform /\ ident g = None).
Proof.
  intros H Hsel. destruct (initializeOriginal_frame_aux _ _ _ _ H Hsel) as [Hk (g & Hg & Hnew)].
  exists g. split; [exact Hg|]. split; [|exact Hnew].
  intros g0 Hg0.
  assert (~ p `suffix_of` Originals) as NpO.
  { intros Hs. (* the host refuses to move a node into its own subtree *)
    apply initializeOriginal_Ok in H as (h0 & h5 & cs & h6 & E0 & Es0 & _ & H5 & _).
    unfold initialize_steps in H5.
    apply bind_Ok in H5 as (sel & h1 & H0 & H5). injection H0 as Hsel' <-.
    change (selected_transforms h0 = sel) in Hsel'.
    unfold selected_transforms in Hsel'. rewrite E0, Es0 in Hsel'.
    change (selected_transforms h = sel) in Hsel'. rewrite Hsel in Hsel'. subst sel.
    apply bind_Ok in H5 as (u0 & h1 & H0 & H5). apply ret_Ok in H0 as [_ ->].
    apply bind_Ok in H5 as (p0 & h1 & H0 & H5). apply ret_Ok in H0 as [-> ->].
    apply bind_Ok in H5 as (u1 & s1 & _ & H5).
    apply bind_Ok in H5 as (e & h1 & _ & H5).
    apply bind_Ok in H5 as (u2 & s2 & _ & H5).
    apply bind_Ok in H5 as (sel & s3 & Hpar & _).
    eapply parent_Ok in Hpar as (p' & -> & Hpar); [|reflexivity].
    apply parent_one_Ok in Hpar as (_ & _ & _ & _ & NpO & _). contradiction. }
  specialize (Hk _ _ Hg0 NpO). congruence.
Qed.

Lemma initializeOriginal_store_group_witness :
  exists g, nodes published !! Originals = Some g /\
            (forall g0, nodes (pillar_scene vzero) !! Originals = Some g0 -> g = g0) /\
            (nodes (pillar_scene vzero) !! Originals = None ->
             locked g /\ visible g = false /\ kind g = Transform /\ ident g = None).
Proof.
  apply (initializeOriginal_store_group (pillar_scene vzero) tt published ["Pillar"%string]).
  - by_compute.
  - by_compute.
Defined.

(** X16: a successful [initializeOriginal] has moved the selected
    transform itself, by identity, right under [|Originals], with its kind
    and visibility, locked, and with the name it has there as its
    identifier; and everything that was below it is below it still,
    unchanged. *)
Theorem initializeOriginal_moves_subtree h (x : unit) h' p np :
  initializeOriginal h = (Ok x, h') ->
  selected_transforms h = [p] ->
  nodes h !! p = Some np ->
  exists (o : string) n',
    nodes h' !! (o :: Originals) = Some n' /\
    uid n' = uid np /\ kind n' = kind np /\ visible n' = visible np /\
    ident n' = Some o /\ locked n' /\
    (forall r v, r <> [] -> nodes h !! (app r p) = Some v ->
                 nodes h' !! (app r (o :: Originals)) = Some v).
Proof.
  intros H Hsel Hnp.
  apply initializeOriginal_Ok in H as (h0 & h5 & cs & h6 & E0 & Es0 & _ & H5 & H6 & ->).
  apply initialize_steps_subtree with (p := p) (np := np) in H5;
    [|unfold selected_transforms; rewrite E0, Es0; exact Hsel|rewrite E0; exact Hnp].
  rewrite E0 in H5. destruct H5 as (o & n' & Hn' & Hu & Hk & Hv & Hi & Hl & Hsub).
  apply instantiateOriginal_None_Ok in H6 as (o2 & H6).
  apply instantiateOriginal_Ok in H6 as (no & z & _ & _ & _ & Cz & M6 & _).
  assert (forall k nk, nodes h5 !! k = Some nk -> nodes h6 !! k = Some nk) as Hkeep.
  { intros k nk Hk5. rewrite M6, lookup_graft.
    assert (strip [z] k = None) as ->; [|exact Hk5].
    apply strip_None, (clear_avoids _ _ _ Cz). eauto. }
  exists o, n'. split; [apply Hkeep, Hn'|]. repeat (split; [assumption|]).
  intros r v Hr Hrv. apply Hkeep, Hsub; assumption.
Qed.

Lemma initializeOriginal_moves_subtree_witness :
  exists (o : string) n',
    nodes (snd (initializeOriginal rigged_scene)) !! (o :: Originals) = Some n' /\
    uid n' = uid pillar_node /\ kind n' = kind pillar_node /\ visible n' = visible pillar_node /\
    ident n' = Some o /\ locked n' /\
    (forall r v, r <> [] -> nodes rigged_scene !! (app r ["Pillar"%string]) = Some v ->
                 nodes (snd (initializeOriginal rigged_scene)) !! (app r (o :: Originals)) = Some v).
Proof.
  apply (initializeOriginal_moves_subtree rigged_scene tt (snd (initializeOriginal rigged_scene))
           ["Pillar"%string] pillar_node).
  - by_compute.
  - by_compute.
  - by_compute.
Defined.

(** X17: after a successful [initializeOriginal] on a transform whose name
    is carried as identifier by no node and is free under [|Originals],
    [findOriginal] of that name finds the new original, right under
    [|Originals] with that name. *)
Theorem initializeOriginal_then_findOriginal h h' (nm : string) t np :
  initializeOriginal h = (Ok tt, h') ->
  selected_transforms h = [nm :: t] ->
  nodes h !! (nm :: t) = Some np ->
  untagged nm (nodes h) -> (nm ∉ taken (nodes h) Originals) ->
  findOriginal nm h' = (Ok (Some (nm :: Originals)), h').
Proof.
  intros H Hsel Hnp Hun Htk.
  destruct (initializeOriginal_result _ _ _ _ _ H Hsel Hnp Hun Htk)
    as (z & norig & ninst & Ho & Hio & _ & _ & Honly).
  rewrite findOriginal_head.
  rewrite (carriers_singleton _ _ _ (nm :: Originals)); [reflexivity|].
  intros q. split.
  - intros (Hm & n & Hn & Hi). destruct (Honly _ _ Hn Hi) as [->| ->]; [reflexivity|].
    cbn in Hm. apply bool_decide_eq_true in Hm. discriminate Hm.
  - intros ->. split; [cbn; apply bool_decide_eq_true_2; reflexivity|eauto].
Qed.

Lemma initializeOriginal_then_findOriginal_witness :
  findOriginal "Pillar" published = (Ok (Some ("Pillar"%string :: Originals)), published).
Proof.
  apply (initializeOriginal_then_findOriginal (pillar_scene vzero) published "Pillar" []
           pillar_node).
  - by_compute.
  - by_compute.
  - by_compute.
  - by_compute.
  - by_compute.
Defined.

(** X18: the locator-creation steps of [initializeOriginal] only add
    nodes: every node of the scene, the selected transform included, is
    afterwards exactly as it was. *)
Theorem makeLocators_adds_only node h (x : unit) h' k nk :
  makeLocators node h = (Ok x, h') -> nodes h !! k = Some nk -> nodes h' !! k = Some nk.
Proof.
  intros H Hk. rewrite (makeLocators_extends _ _ _ _ H k (mk_is_Some _ _ Hk)). exact Hk.
Qed.

Lemma makeLocators_adds_only_witness :
  nodes (after_locators vzero) !! ["Pillar"%string] = Some pillar_node.
Proof.
  apply (makeLocators_adds_only ["Pillar"%string] (pillar_scene vzero) tt (after_locators vzero)).
  - by_compute.
  - by_compute.
Defined.

(** X19: [updateOriginalAndInstances] raises its first error unless
    exactly two transforms are selected, and its second error when the
    second of the two carries no identifier; in both cases the scene and the
    undo queue are as they were. *)
Theorem updateOriginalAndInstances_selection_errors h :
  (length (selected_transforms h) <> 2%nat ->
   updateOriginalAndInstances h = (Raise (CmdsError select_two_msg), h)) /\
  (forall new old, selected_transforms h = [new; old] ->
                   has_identifier (nodes h) old = false ->
                   updateOriginalAndInstances h = (Raise (CmdsError wrong_order_msg), h)).
Proof.
  split.
  - intros Hlen. unfold updateOriginalAndInstances, updateOriginal.
    unfold bind at 1. unfold bind at 1. unfold ls_sl_transform. unfold bind at 1.
    apply Nat.eqb_neq in Hlen. unfold selected_transforms in Hlen. rewrite Hlen. reflexivity.
  - intros new old Hsel Hid. unfold updateOriginalAndInstances, updateOriginal.
    unfold bind at 1. unfold bind at 1. unfold ls_sl_transform.
    fold (selected_transforms h). rewrite Hsel. cbn [length Nat.eqb negb].
    unfold bind at 1, ret at 1. unfold bind at 1. cbn [drop item0]. unfold ret at 1.
    unfold bind at 1, objExists_identifier. rewrite Hid. reflexivity.
Qed.

Lemma updateOriginalAndInstances_selection_errors_witness :
  updateOriginalAndInstances (pillar_scene vzero)
  = (Raise (CmdsError select_two_msg), pillar_scene vzero) /\
  updateOriginalAndInstances
    (mkHost (nodes orphan_scene) [["Pillar1"%string]; ["Cand"%string]] 2 [])
  = (Raise (CmdsError wrong_order_msg),
     mkHost (nodes orphan_scene) [["Pillar1"%string]; ["Cand"%string]] 2 []).
Proof.
  split.
  - apply (proj1 (updateOriginalAndInstances_selection_errors (pillar_scene vzero))).
    by_compute.
  - apply (proj2 (updateOriginalAndInstances_selection_errors
                    (mkHost (nodes orphan_scene) [["Pillar1"%string]; ["Cand"%string]] 2 []))
             ["Pillar1"%string] ["Cand"%string]).
    + by_compute.
    + by_compute.
Defined.

(** X20: a successful [updateOriginalAndInstances] adds to the undo queue
    only chunks opened and at once closed, those of its calls of
    [instantiateOriginal]; it opens no chunk of its own around the update
    and never calls [undo]. *)
Theorem updateOriginalAndInstances_success_log h (x : unit) h' :
  updateOriginalAndInstances h = (Ok x, h') ->
  exists k : nat, undoLog h' = undoLog h ++ concat (replicate k [OpenChunk; CloseChunk]).
Proof.
  intros H. unfold updateOriginalAndInstances in H.
  apply bind_Ok in H as (r & h1 & H1 & H). apply quiet_updateOriginal in H1.
  unfold updateInstances in H. apply bind_Ok in H as (l & h2 & H2 & H). injection H2 as _ <-.
  destruct x. apply for_each_log in H as (k & Hk). exists k. rewrite Hk, H1. reflexivity.
Qed.

Lemma updateOriginalAndInstances_success_log_witness :
  exists k : nat,
    undoLog (snd (updateOriginalAndInstances nested_scene))
    = undoLog nested_scene ++ concat (replicate k [OpenChunk; CloseChunk]).
Proof.
  apply (updateOriginalAndInstances_success_log nested_scene tt).
  by_compute.
Defined.

(** X21: a successful [updateOriginalAndInstances] leaves exactly as it
    was, with its world transform, every node outside [|Originals] that
    neither carries the updated identifier nor lies below a node that does.
    The selected candidate is such a node only when it does not carry that
    identifier itself. *)
Theorem updateOriginalAndInstances_frame h h' cand inst i k nk :
  updateOriginalAndInstances h = (Ok tt, h') ->
  selected_transforms h = [cand; inst] ->
  nodes h !! inst ≫= ident = Some i ->
  nodes h !! k = Some nk ->
  ~ Originals `suffix_of` k ->
  (forall q nq, q `suffix_of` k -> nodes h !! q = Some nq -> ident nq <> Some i) ->
  nodes h' !! k = Some nk /\ world (nodes h') k = world (nodes h) k.
Proof.
  intros H Hsel Hinst Hk Hout Hno. unfold updateOriginalAndInstances in H.
  apply bind_Ok in H as ([new i'] & h1 & H1 & H2). cbn [fst snd] in H2.
  apply updateOriginal_Ok in H1
    as (sel0 & sel1 & n0 & n1 & o & nold & T & root & H1). cbv zeta in H1.
  destruct H1 as (Hsel' & Hn0 & Hn1 & Hi1 & Hnold & Hiold & -> & HOr & Nos & M1 & S1 & HT
                  & Ruid & Rkind & Rident & Rlock & Rlocal & Prov & Adopt).
  rewrite Hsel in Hsel'. injection Hsel' as <- <-.
  rewrite Hn1 in Hinst. cbn in Hinst. assert (i' = i) as -> by congruence.
  assert (~ (o :: Originals) `suffix_of` k) as Nok.
  { intros Hs. apply Hout. etrans; [|exact Hs]. apply suffix_cons_r. reflexivity. }
  assert (kept k (nodes h) (nodes h1)) as K1 by (rewrite M1; apply kept_replace_at, Nok).
  assert (kept k (nodes h1) (nodes h')) as K2.
  { apply (updateInstances_kept _ _ _ _ _ H2). intros q nq Hs Hq Hi. exfalso.
    rewrite (K1 q Hs) in Hq. exact (Hno q nq Hs Hq Hi). }
  pose proof (kept_trans _ _ _ _ K1 K2) as K.
  split; [rewrite (kept_lookup _ _ _ K); exact Hk|apply kept_world, K].
Qed.

Lemma updateOriginalAndInstances_frame_witness :
  nodes (snd (updateOriginalAndInstances nested_scene)) !! ["Cand"%string]
  = Some (fresh_node (102%nat, []) Transform) /\
  world (nodes (snd (updateOriginalAndInstances nested_scene))) ["Cand"%string]
  = world (nodes nested_scene) ["Cand"%string].
Proof.
  apply (updateOriginalAndInstances_frame nested_scene
           (snd (updateOriginalAndInstances nested_scene)) ["Cand"%string] ["Pillar1"%string]
           "Pillar").
  - by_compute.
  - by_compute.
  - by_compute.
  - by_compute.
  - by_compute.
  - intros q nq Hs. destruct q as [|y q].
    + assert (nodes nested_scene !! ([] : dag) = None) as -> by by_compute. discriminate.
    + apply suffix_one_inv in Hs as [-> ->].
      assert (nodes nested_scene !! ["Cand"%string] = Some (fresh_node (102%nat, []) Transform))
        as -> by by_compute.
      intros [= <-]. discriminate.
Defined.

(** X22: after a successful [updateOriginalAndInstances], in a scene where
    one child of [|Originals] carried the identifier of the selected
    instance and [|Originals] itself did not, [findOriginal] of that
    identifier finds an original at the same long name as before: the new
    original has taken the place and the name of the old one. *)
Theorem updateOriginalAndInstances_then_findOriginal h h' cand inst i old :
  updateOriginalAndInstances h = (Ok tt, h') ->
  selected_transforms h = [cand; inst] ->
  nodes h !! inst ≫= ident = Some i ->
  nodes h !! [] = None ->
  (nodes h !! Originals ≫= ident) <> Some i ->
  carriers (ChildOf Originals) (nodes h) i = [old] ->
  findOriginal i h' = (Ok (Some old), h').
Proof.
  intros H Hsel Hinst H0 HO Hcar. unfold updateOriginalAndInstances in H.
  apply bind_Ok in H as ([new i'] & h1 & H1 & H2). cbn [fst snd] in H2.
  apply updateOriginal_Ok in H1
    as (sel0 & sel1 & n0 & n1 & o & nold & T & root & H1). cbv zeta in H1.
  destruct H1 as (Hsel' & Hn0 & Hn1 & Hi1 & Hnold & Hiold & -> & HOr & Nos & M1 & S1 & HT
                  & Ruid & Rkind & Rident & Rlock & Rlocal & Prov & Adopt).
  rewrite Hsel in Hsel'. injection Hsel' as <- <-.
  rewrite Hn1 in Hinst. cbn in Hinst. assert (i' = i) as -> by congruence.
  assert (o :: Originals = old) as Eold.
  { assert (o :: Originals ∈ carriers (ChildOf Originals) (nodes h) i) as Hin.
    { apply elem_of_carriers. split; [cbn; apply bool_decide_eq_true_2; reflexivity|eauto]. }
    rewrite Hcar in Hin. apply list_elem_of_singleton in Hin. exact Hin. }
  assert (~ (o :: Originals) `suffix_of` Originals) as NoO by (apply not_suffix_longer; reflexivity).
  assert (~ (o :: Originals) `suffix_of` []) as No0
    by (intros Hs; apply suffix_nil_inv in Hs; discriminate Hs).
  assert (nodes h1 !! [] = None) as H10.
  { rewrite M1. rewrite (kept_lookup _ _ _ (kept_replace_at _ _ _ _ No0)). exact H0. }
  assert ((nodes h1 !! Originals ≫= ident) <> Some i) as H1O.
  { rewrite M1. rewrite (kept_lookup _ _ _ (kept_replace_at _ _ _ _ NoO)). exact HO. }
  assert (forall y : string, nodes h' !! (y :: Originals) = nodes h1 !! (y :: Originals)) as K.
  { intros y. apply kept_lookup. apply (updateInstances_kept_store _ _ _ _ y [] H2 H10 H1O). }
  rewrite findOriginal_head.
  rewrite (carriers_singleton _ _ _ old); [reflexivity|].
  intros q. split.
  - intros (Hm & n & Hn & Hi). destruct q as [|y tq]; [discriminate Hm|].
    cbn in Hm. apply bool_decide_eq_true in Hm. subst tq.
    rewrite K, M1, lookup_replace_at in Hn.
    destruct (strip (o :: Originals) (y :: Originals)) as [r|] eqn:Er.
    + apply strip_Some in Er. destruct r as [|? r]; [cbn in Er; congruence|].
      apply (f_equal length) in Er. rewrite length_app in Er. cbn in Er. lia.
    + assert (y :: Originals ∈ carriers (ChildOf Originals) (nodes h) i) as Hin.
      { apply elem_of_carriers. split; [cbn; apply bool_decide_eq_true_2; reflexivity|eauto]. }
      rewrite Hcar in Hin. apply list_elem_of_singleton in Hin. exact Hin.
  - intros ->. rewrite <- Eold.
    split; [cbn; apply bool_decide_eq_true_2; reflexivity|]. exists root.
    split; [|exact Rident]. rewrite K, M1, lookup_replace_at, strip_self. exact HT.
Qed.

Lemma updateOriginalAndInstances_then_findOriginal_witness :
  findOriginal "Pillar" (snd (updateOriginalAndInstances nested_scene))
  = (Ok (Some ["Pillar"; "Originals"]%string), snd (updateOriginalAndInstances nested_scene)).
Proof.
  apply (updateOriginalAndInstances_then_findOriginal nested_scene
           (snd (updateOriginalAndInstances nested_scene)) ["Cand"%string] ["Pillar1"%string]).
  - by_compute.
  - by_compute.
  - by_compute.
  - by_compute.
  - by_compute.
  - by_compute.
Defined.

Import Names NameFacts.
Import Stdlib.Strings.Ascii.

(** X23: on the long name of a node whose own name has no ["|"],
    [rsplit("|", 1)] gives the long name of the parent and the node's name;
    [shortName] is then the node's name, and the first part is empty exactly
    for a node right under the world. *)
Theorem shortName_of_render (n : string) (t : dag) :
  occurs "|"%char n = false ->
  rsplit1 "|"%char (render (n :: t)) = [render t; n] /\
  shortName_of (render (n :: t)) = shortName (n :: t) /\
  (render t = ""%string <-> tail (n :: t) = []).
Proof.
  intros Hn. rewrite render_cons. unfold shortName_of, rsplit1.
  change (render t +:+ "|" +:+ n)%string with (render t +:+ String "|" n)%string.
  rewrite (cut_last_app _ _ _ Hn). split; [reflexivity|]. split; [reflexivity|].
  apply render_nil_iff.
Qed.

Lemma shortName_of_render_witness :
  rsplit1 "|"%char (render ["Pillar"; "Originals"]%string)
  = [render ["Originals"%string]; "Pillar"%string] /\
  shortName_of (render ["Pillar"; "Originals"]%string) = shortName ["Pillar"; "Originals"]%string /\
  (render ["Originals"%string] = ""%string <-> tail ["Pillar"; "Originals"]%string = []).
Proof.
  apply (shortName_of_render "Pillar" ["Originals"%string]).
  reflexivity.
Defined.

(** X24: on the name of an identifier attribute, as [cmds.ls] lists it for
    a node whose names have no ["."], [split(".", 1)[0]] is the long name of
    the node. *)
Theorem node_of_plug_render (p : dag) :
  plain p ->
  split1 "."%char (render p +:+ ".identifier") = [render p; "identifier"%string] /\
  node_of_plug (render p +:+ ".identifier") = render (plug_node (identifier_of p)).
Proof.
  intros Hp. unfold node_of_plug, split1.
  change (render p +:+ ".identifier")%string with (render p +:+ String "." "identifier")%string.
  rewrite (cut_first_app _ _ _ (occurs_render _ Hp)). split; reflexivity.
Qed.

Lemma node_of_plug_render_witness :
  split1 "."%char (render ["Pillar"; "Originals"]%string +:+ ".identifier")
  = [render ["Pillar"; "Originals"]%string; "identifier"%string] /\
  node_of_plug (render ["Pillar"; "Originals"]%string +:+ ".identifier")
  = render (plug_node (identifier_of ["Pillar"; "Originals"]%string)).
Proof.
  apply (node_of_plug_render ["Pillar"; "Originals"]%string).
  by_compute.
Defined.

(** X25: on the name of an identifier attribute of a node,
    [startswith("|Originals|")] holds exactly when the node lies strictly
    below a root named [Originals]: the group [|Originals] itself is not
    skipped by the test, and a root whose name only begins with
    [Originals] does not make it hold. *)
Theorem startswith_render (p : dag) :
  plain p ->
  startswith (render p +:+ ".identifier") "|Originals|" = startswith_Originals p.
Proof.
  intros Hp. unfold startswith_Originals, render.
  assert (Forall (fun n => occurs "|"%char n = false) (rev p)) as Hr.
  { apply Forall_rev. eapply Forall_impl; [exact Hp|]. intros n [Hn _]. exact Hn. }
  destruct (rev p) as [|root rest]; [reflexivity|].
  apply Forall_cons in Hr as [Hroot _].
  cbn [fold_left]. rewrite fold_render.
  destruct (plug_shape rest) as [Hshape Hbar]. cbv zeta in Hshape, Hbar.
  set (F := fold_left _ rest ""%string) in *.
  rewrite (string_app_assoc _ F).
  change (startswith (String "|" (root +:+ (F +:+ ".identifier"))) (String "|" ("Originals" +:+ "|"))
          = match rest with [] => false | _ :: _ => String.eqb root "Originals" end).
  rewrite startswith_cons, Ascii.eqb_refl. cbn [andb].
  rewrite (startswith_name "Originals" root _ eq_refl Hroot (or_intror Hshape)), Hbar.
  destruct rest; [apply andb_false_r|apply andb_true_r].
Qed.

Lemma startswith_render_witness :
  startswith (render ["Pillar"; "Originals"]%string +:+ ".identifier") "|Originals|"
  = startswith_Originals ["Pillar"; "Originals"]%string.
Proof.
  apply (startswith_render ["Pillar"; "Originals"]%string).
  by_compute.
Defined.
